(** * compose2hcl: the Compose-to-Nomad translation engine

    A shallow embedding of [src/converter.ts], [src/validation/compose-validator.ts],
    the entry points of [src/index.ts] and a caller of theirs in
    [nomad-compose/src/deployment-service.ts], with the properties the
    specification states about them and further properties of the code.

    Conventions of the embedding.

    - A parsed Compose document is whatever the YAML parser returned: the
      converter receives it through an unchecked cast, so it is modelled as an
      untyped tree ([value]) and every property read, method call and coercion
      is written out with the outcome JavaScript gives it (a value, or a thrown
      [TypeError]).  The objects the converter builds are trees of the same type.
    - An object is the list of its own enumerable properties in enumeration
      order; keys of a well-formed object are pairwise distinct.  A property
      read with a computed key ([bracket]) goes through the prototype chain;
      the names that the source writes after a dot are names that no
      prototype defines, and are read as own properties ([prop]).
    - Strings are sequences of 8-bit characters (the ASCII range of the
      UTF-16 strings of the source).
    - Numbers are binary64: a finite number is the rational it denotes, and
      the parsers, the product and the quotient round their exact result to
      the nearest binary64 value ([binary64]).  Zero has no sign: the source
      never divides by a computed zero and both zeros print alike.
    - [this.warnings] and [this.errors] are a state threaded through every
      method; an exception leaves the state as it was when it was thrown. *)

From Stdlib Require Import ZArith QArith Qround Qabs Qpower List String Ascii Bool Lia Lqa
  DecimalString.
From Stdlib Require Qcanon DecimalNat.
Import ListNotations.

Set Warnings "-register-all".

Local Open Scope string_scope.
Local Open Scope Z_scope.

(** ** Numbers *)

Inductive number : Type :=
| NaN
| Infinity (negative : bool)
| Fin (q : Q).

Definition num (z : Z) : number := Fin (inject_Z z).

Definition Q_is_zero (q : Q) : bool := Qnum q =? 0.
Definition Q_is_neg (q : Q) : bool := Qnum q <? 0.

(** [2^k], for an integer [k] of either sign. *)
Definition pow2 (k : Z) : Q := Qpower 2 k.

(** The binade of a positive rational: the [e] with [2^e <= q < 2^(e+1)]. *)
Definition binade (q : Q) : Z :=
  let e := Z.log2 (Qnum q) - Z.log2 (Zpos (Qden q)) in
  if Qle_bool (pow2 e) q then e else e - 1.

(** The integer nearest to [x], a tie going to the even one. *)
Definition nearest_even (x : Q) : Z :=
  let k := Qfloor x in
  match (x - inject_Z k ?= 1 # 2)%Q with
  | Lt => k
  | Gt => k + 1
  | Eq => if Z.even k then k else k + 1
  end.

(** The multiple of the unit in the last place that is nearest to a positive
    rational: 53 significant bits, the least exponent -1074. *)
Definition binary64_magnitude (a : Q) : Q :=
  let u := Z.max (binade a - 52) (-1074) in
  inject_Z (nearest_even (a / pow2 u)) * pow2 u.

(** The Number value of a rational: the binary64 value nearest to it, a tie
    going to the even significand, and an infinity from 2^1024 on. *)
Definition binary64 (q : Q) : number :=
  if Q_is_zero q then Fin 0
  else
    let y := binary64_magnitude (Qabs q) in
    if Qle_bool (pow2 1024) y then Infinity (Q_is_neg q)
    else Fin (Qred (if Q_is_neg q then - y else y)).

(** [a * b] on numbers. *)
Definition num_mul (a b : number) : number :=
  match a, b with
  | NaN, _ | _, NaN => NaN
  | Fin x, Fin y => binary64 (x * y)
  | Infinity s, Infinity t => Infinity (xorb s t)
  | Infinity s, Fin y | Fin y, Infinity s =>
      if Q_is_zero y then NaN else Infinity (xorb s (Q_is_neg y))
  end.

(** [a / b] on numbers. *)
Definition num_div (a b : number) : number :=
  match a, b with
  | NaN, _ | _, NaN => NaN
  | Fin x, Fin y =>
      if Q_is_zero y
      then (if Q_is_zero x then NaN else Infinity (Q_is_neg x))
      else binary64 (x / y)
  | Infinity _, Infinity _ => NaN
  | Infinity s, Fin y => Infinity (xorb s (Q_is_neg y))
  | Fin _, Infinity _ => Fin 0
  end.

(** [Math.round]: the nearest integer, ties towards +infinity.  On a
    binary64 value the result is a binary64 value again. *)
Definition Math_round (a : number) : number :=
  match a with
  | Fin x => num (Qfloor (x + (1 # 2)))
  | _ => a
  end.

(** [a <= b] for numbers that are not NaN. *)
Definition num_leb (a b : number) : bool :=
  match a, b with
  | Fin x, Fin y => Qle_bool x y
  | Infinity true, _ => true
  | _, Infinity false => true
  | _, _ => false
  end.

(** [Math.max(a, b)]. *)
Definition Math_max (a b : number) : number :=
  match a, b with
  | NaN, _ | _, NaN => NaN
  | _, _ => if num_leb a b then b else a
  end.

Definition num_truthy (a : number) : bool :=
  match a with
  | NaN => false
  | Infinity _ => true
  | Fin x => negb (Q_is_zero x)
  end.

Definition num_isNaN (a : number) : bool :=
  match a with NaN => true | _ => false end.

(** ** Characters and strings *)

Definition is_digit (c : ascii) : bool :=
  let n := nat_of_ascii c in ((48 <=? n) && (n <=? 57))%nat.

Definition digit_value (c : ascii) : Z := Z.of_nat (nat_of_ascii c) - 48.

(** The white space of [\s] and of [StrWhiteSpaceChar], in the ASCII range. *)
Definition is_space (c : ascii) : bool :=
  let n := nat_of_ascii c in (((9 <=? n) && (n <=? 13)) || (n =? 32))%nat.

Definition lower_char (c : ascii) : ascii :=
  let n := nat_of_ascii c in
  if ((65 <=? n) && (n <=? 90))%nat then ascii_of_nat (n + 32) else c.

(** [s.toLowerCase()]. *)
Fixpoint toLowerCase (s : string) : string :=
  match s with
  | EmptyString => EmptyString
  | String c r => String (lower_char c) (toLowerCase r)
  end.

(** [s.startsWith(p)]. *)
Definition startsWith (s p : string) : bool := String.prefix p s.

(** [s.includes(p)]: [p] occurs in [s]. *)
Fixpoint includes (s p : string) : bool :=
  String.prefix p s ||
  match s with
  | EmptyString => false
  | String _ r => includes r p
  end.

(** [s.split(sep)] for a separator of one character. *)
Fixpoint split (sep : ascii) (s : string) : list string :=
  match s with
  | EmptyString => [EmptyString]
  | String c r =>
      if Ascii.eqb c sep then EmptyString :: split sep r
      else match split sep r with
           | p :: ps => String c p :: ps
           | [] => [String c EmptyString]
           end
  end.

(** [l.join(sep)] on strings. *)
Definition join (sep : string) (l : list string) : string := String.concat sep l.

(** The longest prefix of characters satisfying [p], and the rest. *)
Fixpoint span (p : ascii -> bool) (s : string) : string * string :=
  match s with
  | EmptyString => (EmptyString, EmptyString)
  | String c r =>
      if p c then let '(a, b) := span p r in (String c a, b)
      else (EmptyString, s)
  end.

Definition dropWhile (p : ascii -> bool) (s : string) : string := snd (span p s).

Fixpoint rev_string (s : string) : string :=
  match s with
  | EmptyString => EmptyString
  | String c r => rev_string r ++ String c EmptyString
  end.

(** [s.trim()]. *)
Definition trim (s : string) : string :=
  rev_string (dropWhile is_space (rev_string (dropWhile is_space s))).

(** [s.split(/\s+/)]. *)
Fixpoint split_spaces_from (fuel : nat) (s : string) : list string :=
  match fuel with
  | O => [s]
  | S fuel' =>
      let '(word, rest) := span (fun c => negb (is_space c)) s in
      match rest with
      | EmptyString => [word]
      | _ => word :: split_spaces_from fuel' (dropWhile is_space rest)
      end
  end.

Definition split_spaces (s : string) : list string :=
  split_spaces_from (S (String.length s)) s.

Definition double_quote : string := String (ascii_of_nat 34) EmptyString.

(** The value of a string of decimal digits. *)
Fixpoint digits_from (acc : Z) (s : string) : Z :=
  match s with
  | EmptyString => acc
  | String c r => digits_from (10 * acc + digit_value c) r
  end.

Definition digits_value (s : string) : Z := digits_from 0 s.

(** The decimal numeral of an array index, as a template literal prints it. *)
Definition index_string (i : nat) : string :=
  NilEmpty.string_of_uint (Nat.to_uint i).

(** The decimal numeral of an integer. *)
Definition Z_string (z : Z) : string :=
  match z with
  | Zneg p => "-" ++ NilEmpty.string_of_uint (N.to_uint (Npos p))
  | _ => NilEmpty.string_of_uint (N.to_uint (Z.to_N z))
  end.

Definition is_hex_digit (c : ascii) : bool :=
  let n := nat_of_ascii c in
  (is_digit c || ((65 <=? n) && (n <=? 70)) || ((97 <=? n) && (n <=? 102)))%nat.

Definition hex_digit_value (c : ascii) : Z :=
  let n := Z.of_nat (nat_of_ascii c) in
  if is_digit c then n - 48 else if n <? 97 then n - 55 else n - 87.

Fixpoint hex_from (acc : Z) (s : string) : Z :=
  match s with
  | EmptyString => acc
  | String c r => hex_from (16 * acc + hex_digit_value c) r
  end.

(** A leading sign, as [parseInt] and [parseFloat] read it. *)
Definition read_sign (s : string) : bool * string :=
  match s with
  | String "-" r => (true, r)
  | String "+" r => (false, r)
  | _ => (false, s)
  end.

Definition signed (negative : bool) (z : Z) : Z := if negative then - z else z.

(** [parseInt(s)] on a string, no radix given: leading white space is
    skipped, then a sign, then the longest run of digits (hexadecimal after
    [0x]); [NaN] when there is no digit.  The result is the Number value of
    the integer read. *)
Definition parseInt_string (s : string) : number :=
  let '(neg, s1) := read_sign (dropWhile is_space s) in
  match s1 with
  | String "0" (String x r) =>
      if (Ascii.eqb x "x" || Ascii.eqb x "X")%bool then
        match fst (span is_hex_digit r) with
        | EmptyString => NaN
        | ds => binary64 (inject_Z (signed neg (hex_from 0 ds)))
        end
      else binary64 (inject_Z (signed neg (digits_value (fst (span is_digit s1)))))
  | _ =>
      match fst (span is_digit s1) with
      | EmptyString => NaN
      | ds => binary64 (inject_Z (signed neg (digits_value ds)))
      end
  end.

(** The exponent part of a decimal literal: [e], a sign and at least one digit. *)
Definition read_exponent (s : string) : Z :=
  match s with
  | String c r =>
      if (Ascii.eqb c "e" || Ascii.eqb c "E")%bool then
        let '(neg, r1) := read_sign r in
        match fst (span is_digit r1) with
        | EmptyString => 0
        | ds => signed neg (digits_value ds)
        end
      else 0
  | EmptyString => 0
  end.

(** [parseFloat(s)] on a string: leading white space is skipped and the
    longest prefix that is a decimal literal is read; [NaN] when there is
    none.  The result is the Number value of the decimal read. *)
Definition parseFloat_string (s : string) : number :=
  let '(neg, s1) := read_sign (dropWhile is_space s) in
  if String.prefix "Infinity" s1 then Infinity neg
  else
    let '(ip, r1) := span is_digit s1 in
    let '(fp, r2) :=
      match r1 with
      | String "." r => span is_digit r
      | _ => (EmptyString, r1)
      end in
    match (ip ++ fp)%string with
    | EmptyString => NaN
    | ds =>
        let mantissa := (signed neg (digits_value ds)) # 1 in
        let scale := read_exponent r2 - Z.of_nat (String.length fp) in
        binary64 (mantissa * Qpower (10 # 1) scale)
    end.

(** ** Values *)

(** What the YAML parser returns and what the converter builds, and the
    built-in functions that every value inherits from its prototype: a
    document contains none, but a computed key can reach one. *)
Inductive value : Type :=
| VUndefined
| VNull
| VBool (b : bool)
| VNum (n : number)
| VStr (s : string)
| VArr (items : list value)
| VObj (props : list (string * value))
| VFun (name : string) (length : Z).

(** The thrown values of the source are all [Error] objects; only their
    [message] is ever read. *)
Inductive exn : Type := Error (message : string).

Definition message_of (e : exn) : string := let 'Error m := e in m.

(** The texts of the errors that the engine raises are V8's; no property
    below depends on them. *)
Definition TypeError (text : string) : exn := Error text.

(** ** The diagnostics state and the monad of methods *)

Record diag : Type := Diag { warnings : list string; errors : list string }.

Definition no_diag : diag := Diag [] [].

Definition M (A : Type) : Type := diag -> (exn + A) * diag.

Definition ret {A} (a : A) : M A := fun st => (inr a, st).

Definition bind {A B} (m : M A) (k : A -> M B) : M B :=
  fun st =>
    match m st with
    | (inr a, st') => k a st'
    | (inl e, st') => (inl e, st')
    end.

Definition throw {A} (e : exn) : M A := fun st => (inl e, st).

(** [try { body } catch (error) { handler }]. *)
Definition try_catch {A} (body : M A) (handler : exn -> M A) : M A :=
  fun st =>
    match body st with
    | (inr a, st') => (inr a, st')
    | (inl e, st') => handler e st'
    end.

Definition push_warning (w : string) : M unit :=
  fun st => (inr tt, Diag (warnings st ++ [w]) (errors st)).

Definition push_error (e : string) : M unit :=
  fun st => (inr tt, Diag (warnings st) (errors st ++ [e])).

Declare Scope js_scope.
Delimit Scope js_scope with js.
Notation "x <- c ;; k" := (bind c (fun x => k))
  (at level 61, c at next level, right associativity) : js_scope.
Notation "' pat <- c ;; k" := (bind c (fun pat => k))
  (at level 61, pat pattern, c at next level, right associativity) : js_scope.
Notation "c ;;; k" := (bind c (fun _ => k))
  (at level 61, right associativity) : js_scope.
Local Open Scope js_scope.

(** [arr.forEach((x, index) => f(x, index))], from index [i]. *)
Fixpoint forEach_from {A} (i : nat) (f : A -> nat -> M unit) (l : list A) : M unit :=
  match l with
  | [] => ret tt
  | x :: r => f x i ;;; forEach_from (S i) f r
  end.

Definition forEach {A} (f : A -> nat -> M unit) (l : list A) : M unit :=
  forEach_from 0 f l.

(** A loop that carries the object it is building. *)
Fixpoint fold_from {A B} (i : nat) (f : B -> A -> nat -> M B) (l : list A) (acc : B) : M B :=
  match l with
  | [] => ret acc
  | x :: r => acc' <- f acc x i ;; fold_from (S i) f r acc'
  end.

(** [arr.map(f)] for a callback that may throw. *)
Fixpoint mapM {A B} (f : A -> M B) (l : list A) : M (list B) :=
  match l with
  | [] => ret []
  | x :: r => y <- f x ;; ys <- mapM f r ;; ret (y :: ys)
  end.

(** ** Truthiness, property reads and writes *)

Definition truthy (v : value) : bool :=
  match v with
  | VUndefined | VNull => false
  | VBool b => b
  | VNum n => num_truthy n
  | VStr s => negb (s =? "")%string
  | VArr _ | VObj _ | VFun _ _ => true
  end.

(** [a || b]. *)
Definition or_else (a b : value) : value := if truthy a then a else b.

Definition is_nullish (v : value) : bool :=
  match v with VUndefined | VNull => true | _ => false end.

Definition isArray (v : value) : bool :=
  match v with VArr _ => true | _ => false end.

Definition isString (v : value) : bool :=
  match v with VStr _ => true | _ => false end.

Fixpoint own (props : list (string * value)) (k : string) : value :=
  match props with
  | [] => VUndefined
  | (k', v) :: r => if (k' =? k)%string then v else own r k
  end.

Fixpoint has_own (props : list (string * value)) (k : string) : bool :=
  match props with
  | [] => false
  | (k', _) :: r => (k' =? k)%string || has_own r k
  end.

(** [obj[k] = v]: an existing property keeps its place, a new one goes last.
    The keys written are taken to be ordinary names: a key that is a
    canonical array index, which an engine enumerates before the others, and
    the key [__proto__], which an assignment does not store, are written here
    like any other key. *)
Fixpoint set_own (props : list (string * value)) (k : string) (v : value)
  : list (string * value) :=
  match props with
  | [] => [(k, v)]
  | (k', v') :: r =>
      if (k' =? k)%string then (k, v) :: r else (k', v') :: set_own r k v
  end.

(** The index a property key denotes, if it is a canonical array index. *)
Definition key_index (k : string) : option nat :=
  match k with
  | EmptyString => None
  | _ =>
      if forallb is_digit (list_ascii_of_string k) then
        let i := Z.to_nat (digits_value k) in
        if (index_string i =? k)%string then Some i else None
      else None
  end.

Definition chars (s : string) : list value :=
  map (fun c => VStr (String c EmptyString)) (list_ascii_of_string s).

Definition indexed (l : list value) (k : string) : value :=
  if (k =? "length")%string then VNum (num (Z.of_nat (List.length l)))
  else match key_index k with
       | Some i => nth i l VUndefined
       | None => VUndefined
       end.

(** [v.k] for a [v] that is neither [null] nor [undefined] and a name [k]
    that no prototype defines: the own property, [undefined] when there is
    none.  Every name that the source writes after a dot is such a name
    ([length] is an own property of arrays and strings). *)
Definition prop (v : value) (k : string) : value :=
  match v with
  | VObj props => own props k
  | VArr items => indexed items k
  | VStr s => indexed (chars s) k
  | VFun name length =>
      if (k =? "name")%string then VStr name
      else if (k =? "length")%string then VNum (num length)
      else VUndefined
  | _ => VUndefined
  end.

(** The built-in functions of a prototype, by name and number of parameters. *)
Definition methods (table : list (string * Z)) : list (string * value) :=
  map (fun '(name, length) => (name, VFun name length)) table.

(** The properties of [Object.prototype], [Array.prototype],
    [String.prototype], [Number.prototype], [Boolean.prototype] and
    [Function.prototype] (ECMAScript 2023 with its annex B), [__proto__]
    apart. *)
Definition Object_prototype : list (string * value) :=
  ("constructor", VFun "Object" 1)
  :: methods [("__defineGetter__", 2); ("__defineSetter__", 2); ("hasOwnProperty", 1);
              ("__lookupGetter__", 1); ("__lookupSetter__", 1); ("isPrototypeOf", 1);
              ("propertyIsEnumerable", 1); ("toString", 0); ("valueOf", 0);
              ("toLocaleString", 0)].

Definition Array_prototype : list (string * value) :=
  ("constructor", VFun "Array" 1)
  :: methods [("at", 1); ("concat", 1); ("copyWithin", 2); ("fill", 1); ("find", 1);
              ("findIndex", 1); ("findLast", 1); ("findLastIndex", 1); ("lastIndexOf", 1);
              ("pop", 0); ("push", 1); ("reverse", 0); ("shift", 0); ("unshift", 1);
              ("slice", 2); ("sort", 1); ("splice", 2); ("includes", 1); ("indexOf", 1);
              ("join", 1); ("keys", 0); ("entries", 0); ("values", 0); ("forEach", 1);
              ("filter", 1); ("flat", 0); ("flatMap", 1); ("map", 1); ("every", 1);
              ("some", 1); ("reduce", 1); ("reduceRight", 1); ("toLocaleString", 0);
              ("toString", 0); ("toReversed", 0); ("toSorted", 1); ("toSpliced", 2);
              ("with", 2)].

Definition String_prototype : list (string * value) :=
  ("constructor", VFun "String" 1)
  :: ("trimLeft", VFun "trimStart" 0) :: ("trimRight", VFun "trimEnd" 0)
  :: methods [("anchor", 1); ("at", 1); ("big", 0); ("blink", 0); ("bold", 0);
              ("charAt", 1); ("charCodeAt", 1); ("codePointAt", 1); ("concat", 1);
              ("endsWith", 1); ("fontcolor", 1); ("fontsize", 1); ("fixed", 0);
              ("includes", 1); ("indexOf", 1); ("isWellFormed", 0); ("italics", 0);
              ("lastIndexOf", 1); ("link", 1); ("localeCompare", 1); ("match", 1);
              ("matchAll", 1); ("normalize", 0); ("padEnd", 1); ("padStart", 1);
              ("repeat", 1); ("replace", 2); ("replaceAll", 2); ("search", 1);
              ("slice", 2); ("small", 0); ("split", 2); ("strike", 0); ("sub", 0);
              ("substr", 2); ("substring", 2); ("sup", 0); ("startsWith", 1);
              ("toString", 0); ("toWellFormed", 0); ("trim", 0); ("trimStart", 0);
              ("trimEnd", 0); ("toLocaleLowerCase", 0); ("toLocaleUpperCase", 0);
              ("toLowerCase", 0); ("toUpperCase", 0); ("valueOf", 0)].

Definition Number_prototype : list (string * value) :=
  ("constructor", VFun "Number" 1)
  :: methods [("toExponential", 1); ("toFixed", 1); ("toPrecision", 1); ("toString", 1);
              ("valueOf", 0); ("toLocaleString", 0)].

Definition Boolean_prototype : list (string * value) :=
  ("constructor", VFun "Boolean" 1) :: methods [("toString", 0); ("valueOf", 0)].

Definition Function_prototype : list (string * value) :=
  ("constructor", VFun "Function" 1)
  :: methods [("apply", 2); ("bind", 1); ("call", 1); ("toString", 0)].

(** The prototype chain of a value, as one table: a name is found in the
    nearest prototype that has it. *)
Definition prototype_chain (v : value) : list (string * value) :=
  match v with
  | VObj _ => Object_prototype
  | VArr _ => Array_prototype ++ Object_prototype
  | VStr _ => String_prototype ++ Object_prototype
  | VNum _ => Number_prototype ++ Object_prototype
  | VBool _ => Boolean_prototype ++ Object_prototype
  | VFun _ _ => Function_prototype ++ Object_prototype
  | VUndefined | VNull => []
  end.

(** What [v] inherits under the name [k].  [__proto__] is the prototype
    itself, an object without enumerable properties: it reads as an empty
    array for an array, as the function without name for a function and as
    an empty object otherwise. *)
Definition inherited (v : value) (k : string) : value :=
  if (k =? "__proto__")%string then
    match v with
    | VArr _ => VArr []
    | VFun _ _ => VFun "" 0
    | _ => VObj []
    end
  else own (prototype_chain v) k.

(** [v] has an own property [k]. *)
Definition has_own_property (v : value) (k : string) : bool :=
  match v with
  | VObj props => has_own props k
  | VArr items =>
      (k =? "length")%string
      || match key_index k with Some i => (i <? List.length items)%nat | None => false end
  | VStr s =>
      (k =? "length")%string
      || match key_index k with Some i => (i <? String.length s)%nat | None => false end
  | VFun _ _ => (k =? "name")%string || (k =? "length")%string
  | _ => false
  end.

(** [v[k]] for a computed key [k], on a [v] that is neither [null] nor
    [undefined]: the own property when there is one, what the prototype
    chain gives otherwise. *)
Definition bracket (v : value) (k : string) : value :=
  if has_own_property v k then prop v k else inherited v k.

Definition type_name (v : value) : string :=
  match v with VNull => "null" | _ => "undefined" end.

(** [v.k]: throws on [null] and [undefined]. *)
Definition get (v : value) (k : string) : M value :=
  if is_nullish v
  then throw (TypeError ("Cannot read properties of " ++ type_name v
                           ++ " (reading '" ++ k ++ "')"))
  else ret (prop v k).

(** [v?.k]. *)
Definition get_opt (v : value) (k : string) : value :=
  if is_nullish v then VUndefined else prop v k.

(** [v?.[k]] for a computed key [k]. *)
Definition bracket_opt (v : value) (k : string) : value :=
  if is_nullish v then VUndefined else bracket v k.

(** [obj[k] = v] on an object the converter built. *)
Definition set (obj : value) (k : string) (v : value) : value :=
  match obj with
  | VObj props => VObj (set_own props k v)
  | _ => obj
  end.

(** The own enumerable string-keyed properties, as [Object.entries],
    [Object.keys] and [Object.assign] enumerate them. *)
Definition own_entries (v : value) : list (string * value) :=
  match v with
  | VObj props => props
  | VArr items => combine (map index_string (seq 0 (List.length items))) items
  | VStr s => combine (map index_string (seq 0 (String.length s))) (chars s)
  | _ => []
  end.

(** [Object.entries(v)]. *)
Definition Object_entries (v : value) : M (list (string * value)) :=
  if is_nullish v
  then throw (TypeError "Cannot convert undefined or null to object")
  else ret (own_entries v).

(** [Object.keys(v)]. *)
Definition Object_keys (v : value) : M (list string) :=
  es <- Object_entries v ;; ret (map fst es).

(** The elements of [v] when the method [method] of [Array.prototype] is
    called on it: only arrays have one.  [receiver] is the text of the
    expression, which the engine quotes in its message. *)
Definition array_method (receiver method : string) (v : value) : M (list value) :=
  match v with
  | VArr items => ret items
  | VUndefined | VNull =>
      throw (TypeError ("Cannot read properties of " ++ type_name v
                          ++ " (reading '" ++ method ++ "')"))
  | _ => throw (TypeError (receiver ++ "." ++ method ++ " is not a function"))
  end.

(** [...v] inside an array literal: arrays and strings are iterable.
    [source] is the text of the expression. *)
Definition spread (source : string) (v : value) : M (list value) :=
  match v with
  | VArr items => ret items
  | VStr s => ret (chars s)
  | _ => throw (TypeError (source ++ " is not iterable"))
  end.

(** [if (b) { c }] for a statement [c]. *)
Definition when (b : bool) (c : M unit) : M unit := if b then c else ret tt.

(** ** Results and options *)

(** [interface ValidationResult] *)
Module Validation.
Record Result : Type := {
  isValid : bool;
  errors : list string;
  warnings : list string
}.
End Validation.

(** [interface ConversionResult] *)
Module Conversion.
Record Result : Type := {
  hcl : string;
  nomadJob : value;
  warnings : list string;
  errors : list string
}.
End Conversion.

Inductive NetworkMode : Type := bridge | host_mode | none.

Definition NetworkMode_text (m : NetworkMode) : string :=
  match m with bridge => "bridge" | host_mode => "host" | none => "none" end.

Record ResourceDefaults : Type := {
  cpu : option number;
  memory : option number
}.

(** [interface ConversionOptions]: what a caller passes; every field optional. *)
Record ConversionOptions : Type := {
  jobName : option string;
  namespace : option string;
  datacenters : option (list string);
  region : option string;
  priority : option number;
  skipValidation : option bool;
  includeComments : option bool;
  preserveLabels : option bool;
  networkMode : option NetworkMode;
  resourceDefaults : option ResourceDefaults
}.

(** [Required<ConversionOptions>]: the converter's [this.options]. *)
Module Required.
Record Options : Type := {
  jobName : string;
  namespace : string;
  datacenters : list string;
  region : string;
  priority : number;
  skipValidation : bool;
  includeComments : bool;
  preserveLabels : bool;
  networkMode : NetworkMode;
  cpu : number;
  memory : number
}.
End Required.

(** [supplied || fallback], per type of option. *)
Definition string_or (supplied : option string) (fallback : string) : string :=
  match supplied with
  | Some s => if (s =? "")%string then fallback else s
  | None => fallback
  end.

Definition number_or (supplied : option number) (fallback : number) : number :=
  match supplied with
  | Some n => if num_truthy n then n else fallback
  | None => fallback
  end.

Definition bool_or (supplied : option bool) (fallback : bool) : bool :=
  match supplied with
  | Some true => true
  | _ => fallback
  end.

(** Arrays and enumeration members are always truthy. *)
Definition always_or {A} (supplied : option A) (fallback : A) : A :=
  match supplied with
  | Some a => a
  | None => fallback
  end.

(** [options.resourceDefaults?.field] *)
Definition default_field (field : ResourceDefaults -> option number)
  (supplied : option ResourceDefaults) : option number :=
  match supplied with
  | Some d => field d
  | None => None
  end.

(** The constructor of [Compose2HCLConverter]. *)
Definition Compose2HCLConverter (options : ConversionOptions) : Required.Options :=
  {| Required.jobName := string_or (jobName options) "docker-compose";
     Required.namespace := string_or (namespace options) "default";
     Required.datacenters := always_or (datacenters options) ["dc1"];
     Required.region := string_or (region options) "global";
     Required.priority := number_or (priority options) (num 50);
     Required.skipValidation := bool_or (skipValidation options) false;
     Required.includeComments := bool_or (includeComments options) true;
     Required.preserveLabels := bool_or (preserveLabels options) true;
     Required.networkMode := always_or (networkMode options) bridge;
     Required.cpu := number_or (default_field cpu (resourceDefaults options)) (num 100);
     Required.memory := number_or (default_field memory (resourceDefaults options)) (num 128)
  |}.

(** [constructor(options: ConversionOptions = {})] called without an argument. *)
Definition no_options : ConversionOptions :=
  {| jobName := None; namespace := None; datacenters := None; region := None;
     priority := None; skipValidation := None; includeComments := None;
     preserveLabels := None; networkMode := None; resourceDefaults := None |}.

(** A promise that is settled when the function that made it returns. *)
Inductive Promise (A : Type) : Type :=
| Fulfilled (a : A)
| Rejected (reason : exn).
Arguments Fulfilled {A} a.
Arguments Rejected {A} reason.

(** What [convertComposeFile] of the deployment service returns: the
    properties of its object literal, [undefined] where the literal has none. *)
Module Deployment.
Record Converted : Type := {
  success : value;
  hcl : value;
  errors : value;
  warnings : value
}.
End Deployment.

(** ** What the host and the libraries provide

    The engine's number printing for numbers that are not integers of at
    most 53 bits, the YAML
    parser ([js-yaml]'s [load]), the schema library's verdict on the document
    ([composeSchema.validate] of Joi: the messages of [error.details], none
    when the document conforms) and the HCL generator of the repository
    ([generators/hcl-generator.ts], which may throw like any function). *)
Class Host : Type := {
  Number_toString_fraction : Q -> string;
  loadYAML : string -> exn + value;
  composeSchema_validate : value -> list string;
  generateHCL : value -> bool -> exn + string
}.

Section Engine.

Context `{host : Host}.

(** [Number::toString]: an integer of at most 53 bits prints as its decimal
    numeral; the shortest digits that the engine finds for any other number
    are the host's. *)
Definition Number_toString (n : number) : string :=
  match n with
  | NaN => "NaN"
  | Infinity true => "-Infinity"
  | Infinity false => "Infinity"
  | Fin q =>
      let r := Qred q in
      match Qden r with
      | xH => if Z.abs (Qnum r) <=? 2 ^ 53 then Z_string (Qnum r)
              else Number_toString_fraction q
      | _ => Number_toString_fraction q
      end
  end.

(** [String(v)], and [v] inside a template literal or as a property key. *)
Fixpoint ToString (v : value) : string :=
  match v with
  | VUndefined => "undefined"
  | VNull => "null"
  | VBool true => "true"
  | VBool false => "false"
  | VNum n => Number_toString n
  | VStr s => s
  | VArr items =>
      join "," (map (fun x => if is_nullish x then "" else ToString x) items)
  | VObj _ => "[object Object]"
  | VFun name _ => "function " ++ name ++ "() { [native code] }"
  end.

(** [parseInt(v)] and [parseFloat(v)]: the argument is first made a string. *)
Definition parseInt (v : value) : number := parseInt_string (ToString v).
Definition parseFloat (v : value) : number := parseFloat_string (ToString v).

(** [v === 'text']. *)
Definition is_str (v : value) (text : string) : bool :=
  match v with VStr s => (s =? text)%string | _ => false end.

(** * The validator: [src/validation/compose-validator.ts] *)

(** [/^\d+(?::\d+)?(?:\/(?:tcp|udp))?$/.test(s)] *)
Definition port_format (s : string) : bool :=
  let '(d1, r1) := span is_digit s in
  match d1 with
  | EmptyString => false
  | _ =>
      let r2 :=
        match r1 with
        | String ":" r =>
            match span is_digit r with
            | (EmptyString, _) => r1
            | (_, r') => r'
            end
        | _ => r1
        end in
      ((r2 =? "") || (r2 =? "/tcp") || (r2 =? "/udp"))%string
  end.

(** [isValidMemorySpec]: [/^\d+[bkmg]?$/i.test(memory)] *)
Definition isValidMemorySpec (memory : value) : bool :=
  let '(d, r) := span is_digit (ToString memory) in
  match d with
  | EmptyString => false
  | _ =>
      let r := toLowerCase r in
      ((r =? "") || (r =? "b") || (r =? "k") || (r =? "m") || (r =? "g"))%string
  end.

Definition validateResources (serviceName : string) (resources : value) : M unit :=
  let limits := prop resources "limits" in
  when (truthy limits) (
    let cpus_field := prop limits "cpus" in
    when (truthy cpus_field) (
      let cpus := parseFloat cpus_field in
      when (num_isNaN cpus || num_leb cpus (num 0))
        (push_error ("Service '" ++ serviceName ++ "' has invalid CPU limit: "
                       ++ ToString cpus_field))) ;;;
    when (truthy (prop limits "memory")) (
      when (negb (isValidMemorySpec (prop limits "memory")))
        (push_error ("Service '" ++ serviceName ++ "' has invalid memory limit: "
                       ++ ToString (prop limits "memory")))) ;;;
    when (truthy (prop limits "devices"))
      (push_warning ("Service '" ++ serviceName
         ++ "' uses device limits - ensure Nomad supports required devices"))) ;;;
  let reservations := prop resources "reservations" in
  when (truthy reservations) (
    when (truthy (prop reservations "devices"))
      (push_warning ("Service '" ++ serviceName
         ++ "' uses device reservations - ensure Nomad supports required devices")) ;;;
    when (truthy (prop reservations "generic_resources"))
      (push_warning ("Service '" ++ serviceName
         ++ "' uses generic resources - may need custom Nomad configuration"))).

(** [typeof ref === 'string' ? ref : ref.source] *)
Definition reference_name (ref : value) : M value :=
  if isString ref then ret ref else get ref "source".

(** [Array.isArray(v) ? v : Object.keys(v)] *)
Definition names_of (v : value) : M (list value) :=
  match v with
  | VArr items => ret items
  | _ => ks <- Object_keys v ;; ret (map VStr ks)
  end.

(** The body of the loop of [validateServices] for one service. *)
Definition validateService (compose : value) (serviceName : string) (service : value)
  : M unit :=
  image <- get service "image" ;;
  (if truthy image then ret tt
   else
     build <- get service "build" ;;
     when (negb (truthy build))
       (push_error ("Service '" ++ serviceName
          ++ "' must have either 'image' or 'build' specified"))) ;;;
  (* port formats *)
  when (truthy (prop service "ports")) (
    ports <- array_method "service.ports" "forEach" (prop service "ports") ;;
    forEach (fun port index =>
      match port with
      | VStr p =>
          when (negb (port_format p))
            (push_warning ("Service '" ++ serviceName ++ "' port "
               ++ index_string index ++ " has unusual format: " ++ p))
      | _ => ret tt
      end) ports) ;;;
  (* volume mounts *)
  when (truthy (prop service "volumes")) (
    volumes <- array_method "service.volumes" "forEach" (prop service "volumes") ;;
    forEach (fun volume index =>
      match volume with
      | VStr v =>
          when (3 <? List.length (split ":" v))%nat
            (push_warning ("Service '" ++ serviceName ++ "' volume "
               ++ index_string index
               ++ " has complex format that may not convert properly: " ++ v))
      | _ => ret tt
      end) volumes) ;;;
  (* depends_on references *)
  when (truthy (prop service "depends_on")) (
    dependencies <- names_of (prop service "depends_on") ;;
    services <- get compose "services" ;;
    forEach (fun dep _ =>
      when (negb (truthy (bracket services (ToString dep))))
        (push_error ("Service '" ++ serviceName
           ++ "' depends on undefined service '" ++ ToString dep ++ "'")))
      dependencies) ;;;
  (* network references *)
  when (truthy (prop service "networks")) (
    networks <- names_of (prop service "networks") ;;
    forEach (fun network _ =>
      when (negb (is_str network "default")
            && negb (truthy (bracket_opt (prop compose "networks") (ToString network))))
        (push_warning ("Service '" ++ serviceName
           ++ "' references undefined network '" ++ ToString network ++ "'")))
      networks) ;;;
  (* config references *)
  when (truthy (prop service "configs")) (
    configs <- array_method "service.configs" "forEach" (prop service "configs") ;;
    forEach (fun config _ =>
      configName <- reference_name config ;;
      when (negb (truthy (bracket_opt (prop compose "configs") (ToString configName))))
        (push_error ("Service '" ++ serviceName
           ++ "' references undefined config '" ++ ToString configName ++ "'")))
      configs) ;;;
  (* secret references *)
  when (truthy (prop service "secrets")) (
    secrets <- array_method "service.secrets" "forEach" (prop service "secrets") ;;
    forEach (fun secret _ =>
      secretName <- reference_name secret ;;
      when (negb (truthy (bracket_opt (prop compose "secrets") (ToString secretName))))
        (push_error ("Service '" ++ serviceName
           ++ "' references undefined secret '" ++ ToString secretName ++ "'")))
      secrets) ;;;
  (* potentially problematic configurations *)
  when (truthy (prop service "privileged"))
    (push_warning ("Service '" ++ serviceName
       ++ "' uses privileged mode - ensure Nomad client allows this")) ;;;
  when (is_str (prop service "pid") "host")
    (push_warning ("Service '" ++ serviceName
       ++ "' uses host PID namespace - may not be supported in Nomad")) ;;;
  when (is_str (prop service "network_mode") "host")
    (push_warning ("Service '" ++ serviceName
       ++ "' uses host networking - ensure Nomad configuration supports this")) ;;;
  (* resource specifications *)
  let resources := get_opt (prop service "deploy") "resources" in
  when (truthy resources) (validateResources serviceName resources).

Definition validateServices (compose : value) : M unit :=
  services <- get compose "services" ;;
  if negb (truthy services) then push_error "No services defined"
  else
    entries <- Object_entries services ;;
    forEach (fun '(serviceName, service) _ =>
               validateService compose serviceName service) entries.

Definition validateNetworks (compose : value) : M unit :=
  networks <- get compose "networks" ;;
  when (truthy networks) (
    entries <- Object_entries networks ;;
    forEach (fun '(networkName, network) _ =>
      driver <- get network "driver" ;;
      when (truthy driver
            && negb (is_str driver "bridge" || is_str driver "host"
                     || is_str driver "none" || is_str driver "overlay"))
        (push_warning ("Network '" ++ networkName ++ "' uses driver '"
           ++ ToString driver ++ "' which may not be supported")) ;;;
      when (truthy (prop network "external"))
        (push_warning ("Network '" ++ networkName
           ++ "' is external - ensure it exists in the Nomad environment")))
      entries).

Definition validateVolumes (compose : value) : M unit :=
  volumes <- get compose "volumes" ;;
  when (truthy volumes) (
    entries <- Object_entries volumes ;;
    forEach (fun '(volumeName, volume) _ =>
      driver <- get volume "driver" ;;
      when (truthy driver && negb (is_str driver "local"))
        (push_warning ("Volume '" ++ volumeName ++ "' uses driver '"
           ++ ToString driver ++ "' - may need CSI plugin in Nomad")) ;;;
      when (truthy (prop volume "external"))
        (push_warning ("Volume '" ++ volumeName
           ++ "' is external - ensure it exists in the Nomad environment")))
      entries).

Definition validateConfigs (compose : value) : M unit :=
  configs <- get compose "configs" ;;
  when (truthy configs) (
    entries <- Object_entries configs ;;
    forEach (fun '(configName, config) _ =>
      file <- get config "file" ;;
      when (negb (truthy file) && negb (truthy (prop config "content"))
            && negb (truthy (prop config "external")))
        (push_error ("Config '" ++ configName
           ++ "' must specify either 'file', 'content', or 'external'")) ;;;
      when (truthy (prop config "external"))
        (push_warning ("Config '" ++ configName
           ++ "' is external - will be converted to Vault template")))
      entries).

Definition validateSecrets (compose : value) : M unit :=
  secrets <- get compose "secrets" ;;
  when (truthy secrets) (
    entries <- Object_entries secrets ;;
    forEach (fun '(secretName, secret) _ =>
      file <- get secret "file" ;;
      when (negb (truthy file) && negb (truthy (prop secret "external")))
        (push_error ("Secret '" ++ secretName
           ++ "' must specify either 'file' or 'external'")) ;;;
      when (truthy (prop secret "external"))
        (push_warning ("Secret '" ++ secretName
           ++ "' is external - will be converted to Vault template")))
      entries).

(** The [try] block of [validateComposeFile]. *)
Definition validation_passes (compose : value) : M unit :=
  forEach (fun detail _ => push_error detail) (composeSchema_validate compose) ;;;
  validateServices compose ;;;
  validateNetworks compose ;;;
  validateVolumes compose ;;;
  validateConfigs compose ;;;
  validateSecrets compose.

(** [validateComposeFile]: its two arrays start empty and are returned. *)
Definition validateComposeFile (compose : value) : Validation.Result :=
  let '(_, st) :=
    try_catch (validation_passes compose)
      (fun err => push_error ("Validation error: " ++ message_of err)) no_diag in
  {| Validation.isValid := (List.length (errors st) =? 0)%nat;
     Validation.errors := errors st;
     Validation.warnings := warnings st |}.

(** [validateComposeVersion]: [version] is optional. *)
Definition validateComposeVersion (version : option string) : Validation.Result :=
  match version with
  | None | Some EmptyString =>
      {| Validation.isValid := true;
         Validation.errors := [];
         Validation.warnings := ["No version specified - assuming latest"] |}
  | Some version =>
      let supportedVersions :=
        ["3.0"; "3.1"; "3.2"; "3.3"; "3.4"; "3.5"; "3.6"; "3.7"; "3.8"; "3.9"] in
      let errors : list string := [] in
      let errors :=
        if negb (existsb (String.eqb version) supportedVersions)
           && negb (startsWith version "3.")
        then (errors ++ [("Compose version '" ++ version
                          ++ "' is not supported. Supported versions: "
                          ++ join ", " supportedVersions)%string])%list
        else errors in
      let errors :=
        if startsWith version "2." || startsWith version "1."
        then (errors ++ [("Compose version '" ++ version
                          ++ "' is deprecated and not supported")%string])%list
        else errors in
      {| Validation.isValid := (List.length errors =? 0)%nat;
         Validation.errors := errors;
         Validation.warnings := [] |}
  end.

(** * The converter: [src/converter.ts] *)

(** The string on which the method [method] of [String.prototype] is called:
    the other values have no such method. *)
Definition string_method (receiver method : string) (v : value) : M string :=
  match v with
  | VStr s => ret s
  | VUndefined | VNull =>
      throw (TypeError ("Cannot read properties of " ++ type_name v
                          ++ " (reading '" ++ method ++ "')"))
  | _ => throw (TypeError (receiver ++ "." ++ method ++ " is not a function"))
  end.

(** The same when the result of the call is destructured as an array:
    the engine then names both ways in which the statement can fail. *)
Definition destructured (receiver method : string) (v : value) : M string :=
  match v with
  | VStr s => ret s
  | VUndefined | VNull =>
      throw (TypeError ("Cannot read properties of " ++ type_name v
                          ++ " (reading '" ++ method ++ "')"))
  | _ => throw (TypeError (receiver ++ "." ++ method
                             ++ " is not a function or its return value is not iterable"))
  end.

Definition strings (l : list string) : value := VArr (map VStr l).

(** [parts[i]] on the result of a [split]. *)
Definition part (parts : list string) (i : nat) : value :=
  match nth_error parts i with
  | Some s => VStr s
  | None => VUndefined
  end.

(** [if (v) { obj[k] = v }], the shape of most of [convertDockerConfig]. *)
Definition set_if_truthy (obj : value) (k : string) (v : value) : value :=
  if truthy v then set obj k v else obj.

Definition getServiceReplicas (service : value) : M value :=
  deploy <- get service "deploy" ;;
  ret (or_else (get_opt deploy "replicas") (VNum (num 1))).

(** [service.devices.map(...)] of [convertDockerConfig], for one device. *)
Definition convertDevice (device : value) : M value :=
  match device with
  | VStr d =>
      let parts := split ":" d in
      ret (VObj [("host_path", part parts 0);
                 ("container_path", or_else (part parts 1) (part parts 0));
                 ("cgroup_permissions", or_else (part parts 2) (VStr "rwm"))])
  | _ =>
      source <- get device "source" ;;
      ret (VObj [("host_path", or_else source (VStr ""));
                 ("container_path", or_else (prop device "target") (VStr ""));
                 ("cgroup_permissions", or_else (prop device "permissions") (VStr "rwm"))])
  end.

(** The labels of [convertDockerConfig], array form: one [forEach] step. *)
Definition add_label (labels : value) (label : value) : M value :=
  text <- destructured "label" "split" label ;;
  match firstn 2 (split "=" text) with
  | [key; value] => ret (if (key =? "")%string then labels else set labels key (VStr value))
  | _ => ret labels
  end.

(** [Object.assign(target, source)] for a truthy [source]. *)
Definition Object_assign (target source : value) : value :=
  fold_left (fun acc '(k, v) => set acc k v) (own_entries source) target.

Definition convertDockerConfig (options : Required.Options) (service : value) : M value :=
  let config := VObj [] in
  image <- get service "image" ;;
  let config := set_if_truthy config "image" image in
  (* command and args *)
  let command := prop service "command" in
  let config :=
    if truthy command then
      match command with
      | VArr items =>
          set (set config "command" (nth 0 items VUndefined)) "args" (VArr (tl items))
      | _ => set config "command" command
      end
    else config in
  (* entrypoint *)
  let entrypoint := prop service "entrypoint" in
  let config :=
    if truthy entrypoint
    then set config "entrypoint" (if isArray entrypoint then entrypoint else VArr [entrypoint])
    else config in
  let config := set_if_truthy config "work_dir" (prop service "working_dir") in
  let config := set_if_truthy config "user" (prop service "user") in
  let config := set_if_truthy config "hostname" (prop service "hostname") in
  let config := set_if_truthy config "privileged" (prop service "privileged") in
  let config := set_if_truthy config "readonly_rootfs" (prop service "read_only") in
  let config := set_if_truthy config "security_opt" (prop service "security_opt") in
  (* capabilities *)
  let config :=
    if truthy (prop service "cap_add") || truthy (prop service "cap_drop")
    then set (set config "cap_add" (or_else (prop service "cap_add") (VArr [])))
             "cap_drop" (or_else (prop service "cap_drop") (VArr []))
    else config in
  (* devices *)
  config <-
    (if truthy (prop service "devices") then
       devices <- array_method "service.devices" "map" (prop service "devices") ;;
       converted <- mapM convertDevice devices ;;
       ret (set config "devices" (VArr converted))
     else ret config) ;;
  (* labels *)
  config <-
    (let labels := prop service "labels" in
     if truthy labels && Required.preserveLabels options then
       match labels with
       | VArr items =>
           collected <- fold_from 0 (fun acc label _ => add_label acc label) items (VObj []) ;;
           ret (set config "labels" collected)
       | _ => ret (set config "labels" (Object_assign (VObj []) labels))
       end
     else ret config) ;;
  (* DNS *)
  let dns := prop service "dns" in
  let config :=
    if truthy dns
    then set config "dns_servers" (if isArray dns then dns else VArr [dns])
    else config in
  let config := set_if_truthy config "dns_search" (prop service "dns_search") in
  (* extra hosts *)
  let extra_hosts := prop service "extra_hosts" in
  let config :=
    if truthy extra_hosts then
      if isArray extra_hosts then set config "extra_hosts" extra_hosts
      else set config "extra_hosts"
             (strings (map (fun '(h, ip) => h ++ ":" ++ ToString ip) (own_entries extra_hosts)))
    else config in
  (* logging *)
  let logging := prop service "logging" in
  let config :=
    if truthy logging then
      set config "logging"
        (VObj [("type", or_else (prop logging "driver") (VStr "json-file"));
               ("config", or_else (prop logging "options") (VObj []))])
    else config in
  (* network mode *)
  ret (set config "network_mode" (VStr (NetworkMode_text (Required.networkMode options)))).

(** One [forEach] step of the array form of [convertEnvironment]. *)
Definition add_env_entry (env : value) (envVar : value) : M value :=
  text <- destructured "envVar" "split" envVar ;;
  match split "=" text with
  | key :: valueParts =>
      ret (if (key =? "")%string then env else set env key (VStr (join "=" valueParts)))
  | [] => ret env
  end.

(** [String(value ?? '')] *)
Definition env_text (v : value) : string :=
  if is_nullish v then "" else ToString v.

Definition convertEnvironment (environment : value) : M value :=
  match environment with
  | VArr items => fold_from 0 (fun env envVar _ => add_env_entry env envVar) items (VObj [])
  | _ =>
      if truthy environment
      then ret (fold_left (fun env '(key, v) => set env key (VStr (env_text v)))
                          (own_entries environment) (VObj []))
      else ret (VObj [])
  end.

(** [parseCpuValue]: cores to MHz. *)
Definition parseCpuValue (cpu : value) : number :=
  match cpu with
  | VNum n => Math_round (num_mul n (num 1000))
  | _ => Math_round (num_mul (parseFloat cpu) (num 1000))
  end.

(** [memory.match(/^(\d+(?:\.\d+)?)\s*([kmg]?)b?$/)]: the two groups. *)
Definition memory_match (s : string) : option (string * string) :=
  let '(ip, r1) := span is_digit s in
  match ip with
  | EmptyString => None
  | _ =>
      let '(digits, r2) :=
        match r1 with
        | String "." r =>
            match span is_digit r with
            | (EmptyString, _) => (ip, r1)
            | (fp, r') => (ip ++ "." ++ fp, r')
            end
        | _ => (ip, r1)
        end in
      let r3 := dropWhile is_space r2 in
      let '(unit, r4) :=
        match r3 with
        | String c r =>
            if (Ascii.eqb c "k" || Ascii.eqb c "m" || Ascii.eqb c "g")%bool
            then (String c EmptyString, r) else (EmptyString, r3)
        | EmptyString => (EmptyString, r3)
        end in
      let r5 := match r4 with String "b" r => r | _ => r4 end in
      if (r5 =? "")%string then Some (digits, unit) else None
  end.

(** The table [units] of [parseMemoryValue]. *)
Definition units (unit : string) : number :=
  if (unit =? "b")%string then num 1
  else if (unit =? "k")%string then num 1024
  else if (unit =? "m")%string then num (1024 * 1024)
  else if (unit =? "g")%string then num (1024 * 1024 * 1024)
  else NaN.

Definition bytes_to_MB (bytes : number) : number :=
  Math_round (num_div (num_div bytes (num 1024)) (num 1024)).

(** [parseMemoryValue]: a memory size to MB. *)
Definition parseMemoryValue (options : Required.Options) (memory : value) : M number :=
  match memory with
  | VNum n => ret (bytes_to_MB n)
  | _ =>
      text <- string_method "memory" "toLowerCase" memory ;;
      match memory_match (toLowerCase text) with
      | None =>
          push_warning ("Unable to parse memory value: " ++ text) ;;;
          ret (if num_truthy (Required.memory options)
               then Required.memory options else num 128)
      | Some (digits, unit) =>
          let value := parseFloat_string digits in
          let unit := if (unit =? "")%string then "b" else unit in
          ret (bytes_to_MB (num_mul value (units unit)))
      end
  end.

(** The [resources] object of [convertResources], as a pair while it is built. *)
Definition resources_object (cpu memory : number) : value :=
  VObj [("cpu", VNum cpu); ("memory", VNum memory)].

Definition convertResources (options : Required.Options) (service : value) : M value :=
  let cpu := Required.cpu options in
  let memory := Required.memory options in
  deploy <- get service "deploy" ;;
  let resources := get_opt deploy "resources" in
  '(cpu, memory) <-
    (if truthy resources then
       let limits := prop resources "limits" in
       let reservations := prop resources "reservations" in
       let cpu :=
         if truthy (get_opt limits "cpus")
         then parseCpuValue (get_opt limits "cpus") else cpu in
       memory <-
         (if truthy (get_opt limits "memory")
          then parseMemoryValue options (get_opt limits "memory") else ret memory) ;;
       let cpu :=
         if truthy (get_opt reservations "cpus")
         then Math_max cpu (parseCpuValue (get_opt reservations "cpus")) else cpu in
       memory <-
         (if truthy (get_opt reservations "memory")
          then reserved <- parseMemoryValue options (get_opt reservations "memory") ;;
               ret (Math_max memory reserved)
          else ret memory) ;;
       ret (cpu, memory)
     else ret (cpu, memory)) ;;
  (* legacy resource fields *)
  memory <-
    (if truthy (prop service "mem_limit")
     then parseMemoryValue options (prop service "mem_limit") else ret memory) ;;
  let cpu :=
    if truthy (prop service "cpus") then parseCpuValue (prop service "cpus") else cpu in
  ret (resources_object cpu memory).

(** One step of the [service.ports.forEach] of [convertNetworking]. *)
Definition add_port (ports : value) (port : value) (index : nat) : M value :=
  let portName := "port_" ++ index_string index in
  match port with
  | VStr p =>
      let parts := split ":" p in
      ret (set ports portName
             (if (List.length parts =? 2)%nat
              then VObj [("static", VNum (parseInt (part parts 0)));
                         ("to", VNum (parseInt (part parts 1)))]
              else VObj [("to", VNum (parseInt port))]))
  | _ =>
      published <- get port "published" ;;
      ret (set ports portName
             (VObj [("static", if truthy published
                               then VNum (parseInt (VStr (ToString published)))
                               else VUndefined);
                    ("to", prop port "target")]))
  end.

Definition add_expose (ports : value) (port : value) (index : nat) : M value :=
  ret (set ports ("expose_" ++ index_string index) (VObj [("to", VNum (parseInt port))])).

Definition convertNetworking (options : Required.Options) (service : value) : M value :=
  let mode := VStr (NetworkMode_text (Required.networkMode options)) in
  declared <- get service "ports" ;;
  ports <-
    (if truthy declared
     then items <- array_method "service.ports" "forEach" declared ;;
          fold_from 0 add_port items (VObj [])
     else ret (VObj [])) ;;
  ports <-
    (if truthy (prop service "expose")
     then items <- array_method "service.expose" "forEach" (prop service "expose") ;;
          fold_from 0 add_expose items ports
     else ret ports) ;;
  ret (VObj [("mode", mode); ("port", ports)]).

(** [parts[2]?.includes('ro') || false] *)
Definition mode_read_only (parts : list string) : value :=
  match nth_error parts 2 with
  | Some m => VBool (includes m "ro")
  | None => VBool false
  end.

Definition add_volume (volumes : value) (volume : value) (index : nat) : M value :=
  let volumeName := "volume_" ++ index_string index in
  match volume with
  | VStr v =>
      let parts := split ":" v in
      let source := nth 0 parts "" in
      ret (set volumes volumeName
             (VObj [("type", VStr (if startsWith source "/" then "host" else "csi"));
                    ("source", VStr source);
                    ("read_only", mode_read_only parts)]))
  | _ =>
      type <- get volume "type" ;;
      ret (set volumes volumeName
             (VObj [("type", VStr (if is_str type "bind" then "host" else "csi"));
                    ("source", prop volume "source");
                    ("read_only", or_else (prop volume "read_only") (VBool false))]))
  end.

(** [composeVolumes] is received and not read. *)
Definition convertVolumes (service : value) (composeVolumes : value) : M value :=
  declared <- get service "volumes" ;;
  if truthy declared
  then items <- array_method "service.volumes" "forEach" declared ;;
       fold_from 0 add_volume items (VObj [])
  else ret (VObj []).

Definition add_mount (mounts : value) (volume : value) (index : nat) : M value :=
  let mountName := "mount_" ++ index_string index in
  match volume with
  | VStr v =>
      let parts := split ":" v in
      ret (if (2 <=? List.length parts)%nat
           then set mounts mountName
                  (VObj [("volume", VStr ("volume_" ++ index_string index));
                         ("destination", part parts 1);
                         ("read_only", mode_read_only parts)])
           else mounts)
  | _ =>
      target <- get volume "target" ;;
      ret (set mounts mountName
             (VObj [("volume", VStr ("volume_" ++ index_string index));
                    ("destination", target);
                    ("read_only", or_else (prop volume "read_only") (VBool false))]))
  end.

Definition convertVolumeMounts (volumes : value) : M value :=
  if negb (truthy volumes) then ret (VObj [])
  else items <- array_method "volumes" "forEach" volumes ;;
       fold_from 0 add_mount items (VObj []).

(** [arr.join(' ')] on arbitrary elements. *)
Definition join_values (sep : string) (l : list value) : string :=
  join sep (map (fun x => if is_nullish x then "" else ToString x) l).

Definition convertHealthCheck (healthcheck : value) : value :=
  if negb (truthy healthcheck) || truthy (prop healthcheck "disable") then VNull
  else
    let check :=
      VObj [("type", VStr "script");
            ("interval", or_else (prop healthcheck "interval") (VStr "30s"));
            ("timeout", or_else (prop healthcheck "timeout") (VStr "5s"))] in
    let test := prop healthcheck "test" in
    if truthy test then
      match test with
      | VArr items =>
          if is_str (nth 0 items VUndefined) "CMD" then
            set (set check "command" (nth 1 items VUndefined)) "args" (VArr (skipn 2 items))
          else if is_str (nth 0 items VUndefined) "CMD-SHELL" then
            set (set check "command" (VStr "/bin/sh"))
                "args" (VArr [VStr "-c"; VStr (join_values " " (tl items))])
          else check
      | _ =>
          set (set check "command" (VStr "/bin/sh")) "args" (VArr [VStr "-c"; test])
      end
    else check.

(** The discovery entry of [convertToNomadServices] with its health check. *)
Definition with_check (service : value) (nomadService : value) : value :=
  if truthy (prop service "healthcheck")
  then set nomadService "check" (VArr [convertHealthCheck (prop service "healthcheck")])
  else nomadService.

Definition port_service (service : value) (serviceName : string) (index : nat) : value :=
  with_check service
    (VObj [("name", VStr (serviceName ++ "-" ++ index_string index));
           ("port", VStr ("port_" ++ index_string index));
           ("tags", VArr [VStr "docker-compose"])]).

Definition convertToNomadServices (service : value) (serviceName : string)
  : M (list value) :=
  declared <- get service "ports" ;;
  if truthy declared || truthy (prop service "expose") then
    published <- spread "(service.ports || [])" (or_else declared (VArr [])) ;;
    exposed <- array_method "(service.expose || [])" "map"
                 (or_else (prop service "expose") (VArr [])) ;;
    let ports :=
      (published ++ map (fun port => VObj [("target", VNum (parseInt port))]) exposed)%list in
    ret (map (port_service service serviceName) (seq 0 (List.length ports)))
  else
    ret [with_check service
           (VObj [("name", VStr serviceName); ("tags", VArr [VStr "docker-compose"])])].

(** [arr.push(x)] on an array that is being built. *)
Definition push {A} (l : list A) (x : A) : list A := (l ++ [x])%list.

(** [typeof ref === 'string' ? ref : ref.target || ref.source] *)
Definition reference_target (ref : value) : value :=
  if isString ref then ref else or_else (prop ref "target") (prop ref "source").

Definition convertConfigsAndSecrets (service : value) (compose : value)
  : M (list value) :=
  configs <- get service "configs" ;;
  templates <-
    (if truthy configs then
       items <- array_method "service.configs" "forEach" configs ;;
       fold_from 0 (fun templates config _ =>
         configName <- reference_name config ;;
         declared <- get compose "configs" ;;
         let composeConfig := bracket_opt declared (ToString configName) in
         ret (if truthy composeConfig
              then push templates
                   (VObj [("destination", VStr ("local/" ++ ToString (reference_target config)));
                          ("embedded_tmpl",
                           or_else (prop composeConfig "content")
                                   (VStr ("# Config: " ++ ToString configName)));
                          ("change_mode", VStr "restart")])
              else templates)) items []
     else ret []) ;;
  if truthy (prop service "secrets") then
    items <- array_method "service.secrets" "forEach" (prop service "secrets") ;;
    fold_from 0 (fun templates secret _ =>
      secretName <- reference_name secret ;;
      ret (push templates
           (VObj [("destination", VStr ("secrets/" ++ ToString (reference_target secret)));
                  ("embedded_tmpl",
                   VStr ("{{ with secret " ++ double_quote ++ "secret/data/"
                         ++ ToString secretName ++ double_quote
                         ++ " }}{{ .Data.data.value }}{{ end }}"));
                  ("change_mode", VStr "restart")]))) items templates
  else ret templates.

Definition convertRestartPolicy (service : value) : M value :=
  let restart :=
    VObj [("attempts", VNum (num 3)); ("delay", VStr "15s");
          ("interval", VStr "5m"); ("mode", VStr "delay")] in
  declared <- get service "restart" ;;
  let restart :=
    if truthy declared then
      if is_str declared "always" then set restart "attempts" (VNum (num 0))
      else if is_str declared "on-failure" then set restart "mode" (VStr "fail")
      else if is_str declared "no" || is_str declared "unless-stopped"
      then set (set restart "attempts" (VNum (num 0))) "mode" (VStr "fail")
      else restart
    else restart in
  let policy := get_opt (prop service "deploy") "restart_policy" in
  if truthy policy then
    let restart :=
      if is_str (prop policy "condition") "none"
      then set (set restart "attempts" (VNum (num 0))) "mode" (VStr "fail")
      else if is_str (prop policy "condition") "on-failure"
      then set restart "mode" (VStr "fail")
      else restart in
    let restart :=
      match prop policy "max_attempts" with
      | VUndefined => restart
      | max_attempts => set restart "attempts" max_attempts
      end in
    let restart := set_if_truthy restart "delay" (prop policy "delay") in
    let restart := set_if_truthy restart "interval" (prop policy "window") in
    ret restart
  else ret restart.

(** The operators of [validOperators]. *)
Definition validOperators : list string :=
  ["="; "!="; ">"; ">="; "<"; "<="; "distinct_hosts"; "distinct_property"; "regexp";
   "set_contains"; "set_contains_all"; "set_contains_any"; "version"; "semver";
   "is_set"; "is_not_set"].

Definition convertConstraint (constraint : value) : M value :=
  text <- string_method "constraint" "split" constraint ;;
  let parts := split_spaces text in
  ret (if (3 <=? List.length parts)%nat then
         let operator := nth 1 parts "" in
         VObj [("attribute", part parts 0);
               ("operator", VStr (if existsb (String.eqb operator) validOperators
                                  then operator else "="));
               ("value", VStr (join " " (skipn 2 parts)))]
       else
         VObj [("attribute", constraint); ("operator", VStr "="); ("value", VStr "true")]).

Definition convertConstraints (constraints : value) : M value :=
  items <- array_method "constraints" "map" constraints ;;
  converted <- mapM convertConstraint items ;;
  ret (VArr converted).

Definition convertServiceToTask (options : Required.Options)
  (serviceName : string) (service : value) (compose : value) : M value :=
  config <- convertDockerConfig options service ;;
  let task := VObj [("driver", VStr "docker"); ("config", config)] in
  (* environment variables *)
  task <-
    (if truthy (prop service "environment")
     then env <- convertEnvironment (prop service "environment") ;; ret (set task "env" env)
     else ret task) ;;
  (* resources *)
  resources <- convertResources options service ;;
  let task := set task "resources" resources in
  (* health checks: the services are computed and the result is dropped *)
  when (truthy (prop service "healthcheck"))
    (convertToNomadServices service serviceName ;;; ret tt) ;;;
  (* templates for configs and secrets *)
  templates <- convertConfigsAndSecrets service compose ;;
  let task :=
    if (0 <? List.length templates)%nat then set task "template" (VArr templates) else task in
  (* constraints *)
  let constraints := get_opt (get_opt (prop service "deploy") "placement") "constraints" in
  task <-
    (if truthy constraints
     then converted <- convertConstraints constraints ;; ret (set task "constraint" converted)
     else ret task) ;;
  (* volume mounts *)
  task <-
    (if truthy (prop service "volumes")
     then mounts <- convertVolumeMounts (prop service "volumes") ;;
          ret (set task "volume_mount" mounts)
     else ret task) ;;
  (* lifecycle *)
  when (truthy (prop service "depends_on"))
    (push_warning ("Service dependencies for '" ++ serviceName
       ++ "' converted to constraints where possible")) ;;;
  ret task.

(** The [try] block of [convertServiceToTaskGroup]. *)
Definition taskGroup_of (options : Required.Options)
  (serviceName : string) (service : value) (compose : value) : M value :=
  count <- getServiceReplicas service ;;
  task <- convertServiceToTask options serviceName service compose ;;
  let tasks := if truthy task then VObj [(serviceName, task)] else VObj [] in
  let taskGroup := VObj [("count", count); ("task", tasks)] in
  (* network configuration *)
  taskGroup <-
    (if truthy (prop service "ports") || truthy (prop service "expose")
     then network <- convertNetworking options service ;;
          ret (set taskGroup "network" network)
     else ret taskGroup) ;;
  (* volumes *)
  composeVolumes <- get compose "volumes" ;;
  taskGroup <-
    (if truthy (prop service "volumes") || truthy composeVolumes
     then volumes <- convertVolumes service composeVolumes ;;
          ret (set taskGroup "volume" volumes)
     else ret taskGroup) ;;
  (* services, for service discovery *)
  nomadServices <- convertToNomadServices service serviceName ;;
  let taskGroup :=
    if (0 <? List.length nomadServices)%nat
    then set taskGroup "service" (VArr nomadServices) else taskGroup in
  (* restart policy *)
  if truthy (prop service "restart")
     || truthy (get_opt (prop service "deploy") "restart_policy")
  then restart <- convertRestartPolicy service ;; ret (set taskGroup "restart" restart)
  else ret taskGroup.

(** The message of the [catch] block of [convertServiceToTaskGroup]. *)
Definition service_failure (serviceName : string) (error : exn) : string :=
  "Failed to convert service '" ++ serviceName ++ "': " ++ message_of error.

(** [convertServiceToTaskGroup]: the task group, or [null] after a failure. *)
Definition convertServiceToTaskGroup (options : Required.Options)
  (serviceName : string) (service : value) (compose : value) : M value :=
  try_catch (taskGroup_of options serviceName service compose)
    (fun error => push_error (service_failure serviceName error) ;;; ret VNull).

(** The loop of [convertToNomadJob] over the services: it builds [jobSpec.group]. *)
Definition convertServices (options : Required.Options) (compose : value)
  (entries : list (string * value)) (group : value) : M value :=
  fold_from 0
    (fun group '(serviceName, service) _ =>
       taskGroup <- convertServiceToTaskGroup options serviceName service compose ;;
       ret (if truthy taskGroup then set group serviceName taskGroup else group))
    entries group.

(** One element of [compose.x.nomad.constraints], made a string. *)
Definition constraint_text (c : value) : M string :=
  match c with
  | VStr text => ret text
  | _ =>
      attribute <- get c "attribute" ;;
      ret (ToString (or_else attribute (VStr "")) ++ " "
           ++ ToString (or_else (prop c "operator") (VStr "=")) ++ " "
           ++ ToString (or_else (prop c "value") (VStr "")))
  end.

(** The global constraints of [convertToNomadJob], from the extension field. *)
Definition convertGlobalConstraints (compose : value) (jobSpec : value) : M value :=
  let constraints := get_opt (get_opt (prop compose "x") "nomad") "constraints" in
  if truthy constraints then
    match constraints with
    | VArr items =>
        texts <- mapM constraint_text items ;;
        let constraintStrings :=
          filter (fun c => negb (trim c =? "")%string) texts in
        converted <- convertConstraints (strings constraintStrings) ;;
        ret (set jobSpec "constraint" converted)
    | _ => ret jobSpec
    end
  else ret jobSpec.

Definition convertToNomadJob (options : Required.Options) (compose : value) : M value :=
  name <- get compose "name" ;;
  let jobName := or_else name (VStr (Required.jobName options)) in
  (* services to task groups *)
  group <-
    (if truthy (prop compose "services")
     then entries <- Object_entries (prop compose "services") ;;
          convertServices options compose entries (VObj [])
     else ret (VObj [])) ;;
  let jobSpec :=
    VObj [("id", jobName); ("name", jobName); ("type", VStr "service");
          ("region", VStr (Required.region options));
          ("namespace", VStr (Required.namespace options));
          ("datacenters", strings (Required.datacenters options));
          ("priority", VNum (Required.priority options));
          ("group", group)] in
  jobSpec <- convertGlobalConstraints compose jobSpec ;;
  ret (VObj [("job", VObj [(ToString jobName, jobSpec)])]).

Definition supportedVersions : list string :=
  ["3"; "3.0"; "3.1"; "3.2"; "3.3"; "3.4"; "3.5"; "3.6"; "3.7"; "3.8"; "3.9"].

Definition isSupportedVersion (version : value) : M bool :=
  match version with
  | VStr v =>
      ret (existsb (String.eqb v) supportedVersions || startsWith v "3.")
  | _ => text <- string_method "version" "startsWith" version ;; ret (startsWith text "3.")
  end.

(** [typeof v === 'object'] for a truthy [v]. *)
Definition is_object (v : value) : bool :=
  match v with VArr _ | VObj _ => true | _ => false end.

(** A function of a library, called where it may throw. *)
Definition call {A} (outcome : exn + A) : M A :=
  match outcome with
  | inl e => throw e
  | inr a => ret a
  end.

Definition parseCompose (content : string) : M value :=
  try_catch
    (parsed <- call (loadYAML content) ;;
     if negb (truthy parsed) || negb (is_object parsed)
     then throw (Error "Invalid YAML structure")
     else
       (if truthy (prop parsed "version") then
          supported <- isSupportedVersion (prop parsed "version") ;;
          when (negb supported)
            (push_warning ("Docker Compose version '" ++ ToString (prop parsed "version")
               ++ "' may not be fully supported"))
        else ret tt) ;;;
       ret parsed)
    (fun error => throw (Error ("Failed to parse YAML: " ++ message_of error))).

(** [this.warnings = []; this.errors = []] *)
Definition reset : M unit := fun _ => (inr tt, no_diag).

(** The two arrays as they are at this point. *)
Definition current : M diag := fun st => (inr st, st).

(** [this.warnings.push(...ws); this.errors.push(...es)] *)
Definition push_all (ws es : list string) : M unit :=
  fun st => (inr tt, Diag (warnings st ++ ws) (errors st ++ es)).

(** The validation block of [convert]: skipped on request, fatal on errors. *)
Definition validation_gate (options : Required.Options) (composeData : value) : M unit :=
  when (negb (Required.skipValidation options)) (
    let validationResult := validateComposeFile composeData in
    push_all (Validation.warnings validationResult) (Validation.errors validationResult) ;;;
    st <- current ;;
    when (0 <? List.length (errors st))%nat
      (throw (Error ("Validation failed: " ++ join ", " (errors st))))).

(** The [try] block of [convert]. *)
Definition conversion (options : Required.Options) (composeContent : string)
  : M Conversion.Result :=
  composeData <- parseCompose composeContent ;;
  validation_gate options composeData ;;;
  nomadJob <- convertToNomadJob options composeData ;;
  hcl <- call (generateHCL nomadJob (Required.includeComments options)) ;;
  st <- current ;;
  ret {| Conversion.hcl := hcl; Conversion.nomadJob := nomadJob;
         Conversion.warnings := warnings st; Conversion.errors := errors st |}.

(** The [catch] block of [convert]. *)
Definition conversion_failed (error : exn) : M Conversion.Result :=
  let errorMessage := message_of error in
  push_error errorMessage ;;;
  st <- current ;;
  ret {| Conversion.hcl := "# ERROR: " ++ errorMessage;
         Conversion.nomadJob := VObj [("job", VObj [])];
         Conversion.warnings := warnings st; Conversion.errors := errors st |}.

(** The body of the method [convert]. *)
Definition convert (options : Required.Options) (composeContent : string)
  : M Conversion.Result :=
  reset ;;;
  try_catch (conversion options composeContent) conversion_failed.

(** * The entry points: [src/index.ts] *)

(** An [async] method without [await]: its body runs to its end when it is
    called, and the promise it returns is settled with the outcome. *)
Definition async {A} (body : M A) (st : diag) : Promise A :=
  match fst (body st) with
  | inr a => Fulfilled a
  | inl e => Rejected e
  end.

(** [convertCompose]: a new converter, then [convert] on it. *)
Definition convertCompose (composeContent : string) (options : ConversionOptions)
  : Promise Conversion.Result :=
  async (convert (Compose2HCLConverter options) composeContent) no_diag.

(** A promise job: what a reaction does to the local variable [result] of
    [convertComposeSync] ([None] while it is unassigned) when the job runs. *)
Definition Job : Type := option Conversion.Result -> option Conversion.Result.

(** [promise.then(onFulfilled)] on a settled promise: the reaction is queued
    as a job; it does not run inside [then].  A rejected promise has no
    reaction for [onFulfilled]. *)
Definition then_ {A} (promise : Promise A) (onFulfilled : A -> Job) (queue : list Job)
  : list Job :=
  match promise with
  | Fulfilled a => (queue ++ [onFulfilled a])%list
  | Rejected _ => queue
  end.

(** What a call of [convertComposeSync] leaves behind: the value it returned
    ([None] is [undefined]) and the job queue at that moment. *)
Record SyncOutcome : Type := {
  returned : option Conversion.Result;
  queued : list Job
}.

Definition convertComposeSync (composeContent : string) (options : ConversionOptions)
  : SyncOutcome :=
  let converter := Compose2HCLConverter options in
  let result : option Conversion.Result := None in
  let queue :=
    then_ (async (convert converter composeContent) no_diag) (fun r _ => Some r) [] in
  {| returned := result; queued := queue |}.

(** The job queue is drained once the running code has returned. *)
Definition run_jobs (jobs : list Job) (result : option Conversion.Result)
  : option Conversion.Result :=
  fold_left (fun r job => job r) jobs result.

(** * A caller: [nomad-compose/src/deployment-service.ts] *)

(** [convertComposeFile], from the outcome of reading the file.  The text
    that was read is what the validator and [convertCompose] receive;
    [conversion] is the promise of [convertCompose], which has none of the
    four properties that are read from it. *)
Definition convertComposeFile (read : exn + string) : Deployment.Converted :=
  match read with
  | inl error =>
      {| Deployment.success := VBool false;
         Deployment.hcl := VUndefined;
         Deployment.errors := strings [message_of error];
         Deployment.warnings := strings [] |}
  | inr composeContent =>
      let validation := validateComposeFile (VStr composeContent) in
      if negb (Validation.isValid validation) then
        {| Deployment.success := VBool false;
           Deployment.hcl := VUndefined;
           Deployment.errors := strings (Validation.errors validation);
           Deployment.warnings := strings (Validation.warnings validation) |}
      else
        let conversion := convertCompose composeContent no_options in
        {| Deployment.success := VUndefined;
           Deployment.hcl := VUndefined;
           Deployment.errors := VUndefined;
           Deployment.warnings := VUndefined |}
  end.

End Engine.

(** * What the specification says, as definitions *)

(** An option as the constructor sees it: a falsy value counts as absent. *)
Definition forget_falsy (o : ConversionOptions) : ConversionOptions :=
  {| jobName := match jobName o with Some "" => None | s => s end;
     namespace := match namespace o with Some "" => None | s => s end;
     datacenters := datacenters o;
     region := match region o with Some "" => None | s => s end;
     priority :=
       match priority o with
       | Some n => if num_truthy n then Some n else None
       | None => None
       end;
     skipValidation := match skipValidation o with Some false => None | b => b end;
     includeComments := match includeComments o with Some false => None | b => b end;
     preserveLabels := match preserveLabels o with Some false => None | b => b end;
     networkMode := networkMode o;
     resourceDefaults :=
       match resourceDefaults o with
       | Some d =>
           Some {| cpu := match cpu d with
                          | Some n => if num_truthy n then Some n else None
                          | None => None
                          end;
                   memory := match memory d with
                             | Some n => if num_truthy n then Some n else None
                             | None => None
                             end |}
       | None => None
       end |}.

(** The number of bytes of a unit letter, 1024-based. *)
Definition multiplier (unit : ascii) : Z :=
  match lower_char unit with
  | "b"%char => 1
  | "k"%char => 1024
  | "m"%char => 1024 * 1024
  | "g"%char => 1024 * 1024 * 1024
  | _ => 0
  end.

(** The integer nearest to [a / b], a tie going up. *)
Definition round_div (a b : Z) : Z := (2 * a + b) / (2 * b).

(** A size of [n] units, in MB. *)
Definition megabytes (n : Z) (unit : ascii) : Z :=
  round_div (n * multiplier unit) (1024 * 1024).

Definition all_digits (s : string) : bool := forallb is_digit (list_ascii_of_string s).

Definition unit_letters : list ascii :=
  ["b"; "k"; "m"; "g"; "B"; "K"; "M"; "G"]%char.

(** A method is oblivious when it never reads the diagnostics: its outcome
    is fixed and it only appends to the two arrays. *)
Definition oblivious {A} (m : M A) : Prop :=
  exists (r : exn + A) (ws es : list string),
    forall st, m st = (r, Diag (warnings st ++ ws) (errors st ++ es)).

(** The outcome of an oblivious method. *)
Definition outcome {A} (m : M A) : exn + A := fst (m no_diag).

(** [st'] is [st] with entries appended. *)
Definition extends (st st' : diag) : Prop :=
  exists ws es, st' = Diag (warnings st ++ ws) (errors st ++ es).

(** The task groups that the loop of [convertToNomadJob] leaves in
    [jobSpec.group]: one for each service whose conversion returns. *)
Definition collected `{Host} (options : Required.Options) (compose : value)
  (entries : list (string * value)) (props : list (string * value))
  : list (string * value) :=
  fold_left
    (fun props '(serviceName, service) =>
       match outcome (taskGroup_of options serviceName service compose) with
       | inr taskGroup => set_own props serviceName taskGroup
       | inl _ => props
       end)
    entries props.

(** The result of [convert] after a top-level failure with message [text]. *)
Definition empty_job : value := VObj [("job", VObj [])].

(** The task group called [name] in a job model: [job.<jobName>.group.<name>]. *)
Definition task_group (nomadJob : value) (name : string) : value :=
  match prop nomadJob "job" with
  | VObj [(_, jobSpec)] => prop (prop jobSpec "group") name
  | _ => VUndefined
  end.

(** The message of the validator for a service without [image] and [build]. *)
Definition missing_image (serviceName : string) : string :=
  "Service '" ++ serviceName ++ "' must have either 'image' or 'build' specified".

(** The message of the validator for a dependency that is not a service. *)
Definition undefined_dependency (serviceName dep : string) : string :=
  "Service '" ++ serviceName ++ "' depends on undefined service '" ++ dep ++ "'".

(** However [m] ends, [entry] is among the errors afterwards. *)
Definition logs {A} (m : M A) (entry : string) : Prop :=
  forall st r st', m st = (r, st') -> In entry (errors st').

(** A restart policy, field by field. *)
Definition restart_policy (attempts delay interval mode : value) : value :=
  VObj [("attempts", attempts); ("delay", delay); ("interval", interval); ("mode", mode)].

(** The specification's mapping of the Compose [restart] field: the
    attempts and the mode that replace the defaults 3 and "delay". *)
Definition restart_mapping (restart : value) : value * value :=
  if is_str restart "always" then (VNum (num 0), VStr "delay")
  else if is_str restart "on-failure" then (VNum (num 3), VStr "fail")
  else if is_str restart "no" then (VNum (num 0), VStr "fail")
  else if is_str restart "unless-stopped" then (VNum (num 0), VStr "fail")
  else (VNum (num 3), VStr "delay").

(** The restart policy the specification describes: the defaults, the
    mapping of [restart], then the fields of [deploy.restart_policy] that are
    present ([max_attempts] is present when it is not [undefined], [delay] and
    [window] when they are set to a truthy value). *)
Definition specified_restart (service : value) : value :=
  let '(attempts, mode) := restart_mapping (prop service "restart") in
  let policy := get_opt (prop service "deploy") "restart_policy" in
  if truthy policy then
    let condition := prop policy "condition" in
    let attempts := if is_str condition "none" then VNum (num 0) else attempts in
    let mode :=
      if is_str condition "none" || is_str condition "on-failure"
      then VStr "fail" else mode in
    let attempts :=
      match prop policy "max_attempts" with
      | VUndefined => attempts
      | max_attempts => max_attempts
      end in
    restart_policy attempts
      (if truthy (prop policy "delay") then prop policy "delay" else VStr "15s")
      (if truthy (prop policy "window") then prop policy "window" else VStr "5m")
      mode
  else restart_policy attempts (VStr "15s") (VStr "5m") mode.











(** A memory size in MB, to the nearest MB: a number of bytes, or digits
    followed by at most one unit letter of the 1024-based table. *)
Definition mebibytes (memory : value) : option Z :=
  match memory with
  | VStr text =>
      let '(digits, rest) := span is_digit text in
      match digits, rest with
      | EmptyString, _ => None
      | _, EmptyString => Some (megabytes (digits_value digits) "b")
      | _, String unit EmptyString =>
          if existsb (Ascii.eqb unit) unit_letters
          then Some (megabytes (digits_value digits) unit) else None
      | _, _ => None
      end
  | VNum (Fin bytes) =>
      match Qden bytes with
      | xH => Some (round_div (Qnum bytes) (1024 * 1024))
      | _ => None
      end
  | _ => None
  end.




Definition MB (memory : value) : number :=
  match mebibytes memory with Some n => num n | None => NaN end.








(** The check of a health check that has no command: its type and timing. *)
Definition script_check (healthcheck : value) : value :=
  VObj [("type", VStr "script");
        ("interval", or_else (prop healthcheck "interval") (VStr "30s"));
        ("timeout", or_else (prop healthcheck "timeout") (VStr "5s"))].


(** The key and the value of an entry [KEY=VALUE]: what is before the first
    '=' and what is after it. *)
Fixpoint key_value (entry : string) : string * string :=
  match entry with
  | EmptyString => (EmptyString, EmptyString)
  | String c r =>
      if Ascii.eqb c "=" then (EmptyString, r)
      else let '(k, v) := key_value r in (String c k, v)
  end.

(** The value the entries give to [key]: that of the last entry with this
    key, when [found] is what earlier entries gave.  An entry with an empty
    key binds nothing. *)
Definition final_from (found : option string) (entries : list string) (key : string)
  : option string :=
  fold_left
    (fun found entry =>
       let '(k, v) := key_value entry in
       if (k =? key)%string && negb (k =? "")%string then Some v else found)
    entries found.

Definition final_value (entries : list string) (key : string) : option string :=
  final_from None entries key.

(** The value a mapping binds to [key]. *)
Fixpoint lookup (props : list (string * value)) (key : string) : option value :=
  match props with
  | [] => None
  | (k, v) :: r => if (k =? key)%string then Some v else lookup r key
  end.

Definition no_equals (key : string) : bool :=
  forallb (fun c => negb (Ascii.eqb c "=")) (list_ascii_of_string key).

(** The environment the array form builds, entry after entry. *)
Definition env_of_entries (entries : list string) (props : list (string * value))
  : list (string * value) :=
  fold_left
    (fun props entry =>
       let '(k, v) := key_value entry in
       if (k =? "")%string then props else set_own props k (VStr v))
    entries props.

(** The environment the mapping form builds, key after key. *)
Definition env_of_mapping `{Host} (mapping props : list (string * value))
  : list (string * value) :=
  fold_left (fun props '(k, v) => set_own props k (VStr (env_text v))) mapping props.

(** What the validation of one service appends to the errors and to the warnings. *)
Definition service_errors `{Host} (compose : value) (entry : string * value) : list string :=
  errors (snd (validateService compose (fst entry) (snd entry) no_diag)).

Definition service_warnings `{Host} (compose : value) (entry : string * value)
  : list string :=
  warnings (snd (validateService compose (fst entry) (snd entry) no_diag)).

(** The names that every object inherits from [Object.prototype]:
    [constructor], [toString] and the like. *)
Definition inherited_name (k : string) : bool :=
  existsb (fun name => (name =? k)%string) ("__proto__" :: map fst Object_prototype).

(** A document with two defects and nothing else: the service [a] has
    neither [image] nor [build], the service [b] depends on [dep], which is
    not a service.  The dependency is given in the array form or as the key
    of a mapping, and the two services come in either order. *)
Definition two_defects (a b dep image : string) (as_mapping a_first : bool) : value :=
  let depends_on := if as_mapping then VObj [(dep, VObj [])] else VArr [VStr dep] in
  let service_a := (a, VObj []) in
  let service_b := (b, VObj [("image", VStr image); ("depends_on", depends_on)]) in
  VObj [("services", VObj (if a_first then [service_a; service_b]
                           else [service_b; service_a]))].

(** * Further notions for the properties of the code *)

(** [sep] does not occur in [s]. *)
Definition free_of (sep : ascii) (s : string) : bool :=
  forallb (fun c => negb (Ascii.eqb c sep)) (list_ascii_of_string s).

(** A word: a string that is not empty and has no white space. *)
Definition is_word (s : string) : bool :=
  negb (s =? "")%string && forallb (fun c => negb (is_space c)) (list_ascii_of_string s).

(** The labels of the published and of the exposed ports in a network block,
    and the names of the volumes and of the mounts of a task group. *)
(** The Number value of an integer: the integer itself up to 2^53, the
    nearest binary64 value beyond. *)
Definition Number_value (z : Z) : number := binary64 (inject_Z z).

Definition port_label (i : nat) : string := "port_" ++ index_string i.
Definition volume_name (i : nat) : string := "volume_" ++ index_string i.
Definition mount_name (i : nat) : string := "mount_" ++ index_string i.

(** The protocol suffixes of the short port syntax. *)
Definition protocol_suffixes : list string := [""; "/tcp"; "/udp"].

(** The unit letters that may be followed by a [b]. *)
Definition scale_letters : list ascii := ["k"; "m"; "g"; "K"; "M"; "G"]%char.

(** However it is run, [m] throws. *)
Definition fails {A} (m : M A) : Prop :=
  forall st, exists e st', m st = (inl e, st').

(** The sections of a document whose entries the validator reads. *)
Definition declared_sections : list string := ["networks"; "volumes"; "configs"; "secrets"].

(** A method is quiet when it is oblivious and pushes warnings only. *)
Definition quiet {A} (m : M A) : Prop :=
  exists (r : exn + A) (ws : list string),
    forall st, m st = (r, Diag (warnings st ++ ws) (errors st)).

(** The entries that the failing services leave in [this.errors], in the
    order of the services. *)
Definition failures `{Host} (options : Required.Options) (compose : value)
  (entries : list (string * value)) : list string :=
  flat_map
    (fun '(serviceName, service) =>
       match outcome (taskGroup_of options serviceName service compose) with
       | inl error => [service_failure serviceName error]
       | inr _ => []
       end)
    entries.

(** The result of [convert] when its [try] block throws [text] before
    anything was pushed. *)
Definition failed_conversion (text : string) : Conversion.Result :=
  {| Conversion.hcl := "# ERROR: " ++ text;
     Conversion.nomadJob := empty_job;
     Conversion.warnings := [];
     Conversion.errors := [text] |}.


(** Two property lists that agree on every key but [k]. *)
Definition same_but (k : string) (a b : list (string * value)) : Prop :=
  forall k', k' <> k -> own a k' = own b k'.

(** Two methods that do the same apart from one warning: they have the same
    outcome and append the same errors and the same warnings, except that
    the first pushes [w] at one point when [b] holds and the second when
    [b'] holds.  That point is reached whenever the methods return. *)
Definition apart_from {A} (w : string) (b b' : bool) (m m' : M A) : Prop :=
  exists (r : exn + A) (before after es : list string) (reached : bool),
    (forall st,
       m st = (r, Diag (warnings st ++ before
                        ++ (if reached && b then [w] else []) ++ after)
                       (errors st ++ es)) /\
       m' st = (r, Diag (warnings st ++ before
                         ++ (if reached && b' then [w] else []) ++ after)
                        (errors st ++ es))) /\
    (forall a, r = inr a -> reached = true).

(** The warning of [convertServiceToTask] for a service with [depends_on]. *)
Definition dependencies_warning (serviceName : string) : string :=
  "Service dependencies for '" ++ serviceName ++ "' converted to constraints where possible".

(** The options [o] with [skipValidation] set to [b]. *)
Definition with_skipValidation (b : bool) (o : Required.Options) : Required.Options :=
  {| Required.jobName := Required.jobName o;
     Required.namespace := Required.namespace o;
     Required.datacenters := Required.datacenters o;
     Required.region := Required.region o;
     Required.priority := Required.priority o;
     Required.skipValidation := b;
     Required.includeComments := Required.includeComments o;
     Required.preserveLabels := Required.preserveLabels o;
     Required.networkMode := Required.networkMode o;
     Required.cpu := Required.cpu o;
     Required.memory := Required.memory o |}.

(** A healthcheck with the test [test] and the other fields [rest]. *)
Definition tested (test : value) (rest : list (string * value)) : value :=
  VObj (("test", test) :: rest).

(** * A host and documents for the examples *)

(** The digits after the point of [n / d], for [0 <= n < d]. *)
Fixpoint fraction_digits (fuel : nat) (n d : Z) : string :=
  match fuel with
  | O => EmptyString
  | S fuel' =>
      if n =? 0 then EmptyString
      else String (ascii_of_nat (Z.to_nat (10 * n / d) + 48))
                  (fraction_digits fuel' (10 * n mod d) d)
  end.

(** The decimal expansion of a number that is not an integer: what the
    engine prints for the short decimals of the examples. *)
Definition decimal_expansion (q : Q) : string :=
  let r := Qred q in
  let n := Z.abs (Qnum r) in
  let d := Zpos (Qden r) in
  (if Qnum r <? 0 then "-" else "") ++ Z_string (n / d) ++ "."
  ++ fraction_digits 20 (n mod d) d.

(** Three services; the environment of the first holds a number, so its
    conversion throws. *)
Definition partial_yaml : string :=
"services:
  a:
    image: x
    environment: [1]
  b:
    image: y
  c:
    image: z".

Definition partial_document : value :=
  VObj [("services",
         VObj [("a", VObj [("image", VStr "x"); ("environment", VArr [VNum (num 1)])]);
               ("b", VObj [("image", VStr "y")]);
               ("c", VObj [("image", VStr "z")])])].

(** Two services, the first as above, and a job-level constraint that is [null]. *)
Definition aborted_yaml : string :=
"services:
  a:
    image: x
    environment: [1]
  b:
    image: y
x:
  nomad:
    constraints: [null]".

Definition aborted_document : value :=
  VObj [("services",
         VObj [("a", VObj [("image", VStr "x"); ("environment", VArr [VNum (num 1)])]);
               ("b", VObj [("image", VStr "y")])]);
        ("x", VObj [("nomad", VObj [("constraints", VArr [VNull])])])].

(** A service [web] with neither [image] nor [build]. *)
Definition web_without_image_yaml : string :=
"version: '3.8'
services:
  web:
    ports: ['80:80']".

Definition web_without_image : value :=
  VObj [("version", VStr "3.8");
        ("services", VObj [("web", VObj [("ports", VArr [VStr "80:80"])])])].

(** The parser on the texts of the examples. *)
Definition example_loadYAML (content : string) : exn + value :=
  if (content =? partial_yaml)%string then inr partial_document
  else if (content =? aborted_yaml)%string then inr aborted_document
  else if (content =? web_without_image_yaml)%string then inr web_without_image
  else inl (Error "end of the stream or a document separator is expected").

Definition quoted (label : string) : string := double_quote ++ label ++ double_quote.

(** One rule of a schema: a key that is present must satisfy [ok]. *)
Definition schema_rule (label : string) (ok : value -> bool) (what : string) (v : value)
  : list string :=
  match v with
  | VUndefined => []
  | _ => if ok v then [] else [quoted label ++ " must be " ++ what]
  end.

(** The rule of a string: a string that is present is not empty. *)
Definition string_rule (label : string) (v : value) : list string :=
  match v with
  | VStr EmptyString => [quoted label ++ " is not allowed to be empty"]
  | _ => schema_rule label isString "a string" v
  end.

Definition is_record (v : value) : bool :=
  match v with VObj _ => true | _ => false end.

(** The checks of [composeSchema], with the wording of the schema library. *)
Definition example_schema (compose : value) : list string :=
  match compose with
  | VUndefined => []
  | VObj _ =>
      List.concat
        [string_rule "version" (prop compose "version");
         string_rule "name" (prop compose "name");
         schema_rule "services" is_record "of type object" (prop compose "services");
         flat_map (fun '(name, service) =>
                     schema_rule ("services." ++ name) is_record "of type object" service)
                  (match prop compose "services" with VObj props => props | _ => [] end);
         schema_rule "networks" is_record "of type object" (prop compose "networks");
         schema_rule "volumes" is_record "of type object" (prop compose "volumes");
         schema_rule "configs" is_record "of type object" (prop compose "configs");
         schema_rule "secrets" is_record "of type object" (prop compose "secrets");
         schema_rule "include" isArray "an array" (prop compose "include");
         schema_rule "x" is_record "of type object" (prop compose "x")]
  | _ => [quoted "value" ++ " must be of type object"]
  end.

(** A rendering that stands for the generator's: the header of the job block. *)
Definition example_generateHCL (nomadJob : value) (includeComments : bool)
  : exn + string :=
  match prop nomadJob "job" with
  | VObj [(name, _)] => inr ("job " ++ quoted name ++ " {}")
  | _ => inr EmptyString
  end.

Definition example_host : Host :=
  {| Number_toString_fraction := decimal_expansion;
     loadYAML := example_loadYAML;
     composeSchema_validate := example_schema;
     generateHCL := example_generateHCL |}.

(** The converter of a caller that passes no option. *)
Definition default_options : Required.Options := Compose2HCLConverter no_options.



(** A service whose healthcheck is disabled. *)
Definition disabled_service : value :=
  VObj [("image", VStr "nginx"); ("healthcheck", VObj [("disable", VBool true)])].

(** ** More documents, and a host that parses them *)

(** A document whose [version] is not quoted: the parser returns a number. *)
Definition numeric_version_yaml : string :=
"version: 3.8
services:
  web:
    image: nginx".

Definition numeric_version_document : value :=
  VObj [("version", VNum (Fin (38 # 10)));
        ("services", VObj [("web", VObj [("image", VStr "nginx")])])].

(** A document of the second generation of the format. *)
Definition legacy_yaml : string :=
"version: '2.4'
services:
  web:
    image: nginx".

Definition legacy_document : value :=
  VObj [("version", VStr "2.4");
        ("services", VObj [("web", VObj [("image", VStr "nginx")])])].

(** The parser on these texts and on the empty text, for which it returns
    [undefined]. *)
Definition second_loadYAML (content : string) : exn + value :=
  if (content =? numeric_version_yaml)%string then inr numeric_version_document
  else if (content =? legacy_yaml)%string then inr legacy_document
  else if (content =? "")%string then inr VUndefined
  else example_loadYAML content.

Definition second_host : Host :=
  {| Number_toString_fraction := decimal_expansion;
     loadYAML := second_loadYAML;
     composeSchema_validate := example_schema;
     generateHCL := example_generateHCL |}.

(** A named volume declared without a body, as the short form of YAML has it. *)
Definition named_volume_document : value :=
  VObj [("version", VStr "3.8");
        ("services",
         VObj [("db", VObj [("image", VStr "postgres");
                            ("volumes", VArr [VStr "db_data:/var/lib/postgresql/data"])])]);
        ("volumes", VObj [("db_data", VNull)])].

(** Three services, the second one without a body, the third without image. *)
Definition bodiless_service_document : value :=
  VObj [("services",
         VObj [("web", VObj [("image", VStr "nginx")]);
               ("worker", VNull);
               ("db", VObj [])])].


Definition published_service : value :=
  VObj [("image", VStr "nginx");
        ("ports", VArr [VStr "8080:80"; VStr "443"; VStr "127.0.0.1:8443:443"])].

(** A service with volumes in the short syntax. *)
Definition stateful_service : value :=
  VObj [("image", VStr "postgres");
        ("volumes", VArr [VStr "db_data:/var/lib/postgresql/data";
                          VStr "./config:/etc/postgresql:ro";
                          VStr "/data"])].

(** A service with configs and secrets, and a document that declares one
    of the configs; another config bears an inherited name. *)
Definition configured_service : value :=
  VObj [("image", VStr "app");
        ("configs", VArr [VStr "app_conf"; VStr "missing"; VStr "toString"]);
        ("secrets", VArr [VStr "db_password"])].

Definition configured_document : value :=
  VObj [("services", VObj [("app", configured_service)]);
        ("configs", VObj [("app_conf", VObj [("file", VStr "./app.conf")])])].

(** A document in which the service web depends on the service db. *)
Definition dependent_document : value :=
  VObj [("services",
         VObj [("web", VObj [("image", VStr "nginx"); ("depends_on", VArr [VStr "db"])]);
               ("db", VObj [("image", VStr "postgres")])])].

(** A service scaled to zero. *)
Definition idle_service : value :=
  VObj [("image", VStr "nginx"); ("deploy", VObj [("replicas", VNum (num 0))])].


(** * Properties *)

Section Properties.

Context `{host : Host}.

(** ** Strings and numbers *)

Lemma span_digits (ds rest : string) :
  all_digits ds = true ->
  match rest with String c _ => is_digit c = false | EmptyString => True end ->
  span is_digit (ds ++ rest) = (ds, rest).
Proof.
  unfold all_digits. induction ds as [|c ds IH]; simpl; intros Hd Hr.
  - destruct rest as [|c r]; simpl; [reflexivity | now rewrite Hr].
  - apply andb_true_iff in Hd as [Hc Hd]. rewrite Hc, IH; auto.
Qed.

Lemma span_digits_all (ds : string) :
  all_digits ds = true -> span is_digit ds = (ds, EmptyString).
Proof.
  unfold all_digits. induction ds as [|c ds IH]; simpl; intros H; [reflexivity|].
  apply andb_true_iff in H as [Hc Hd]. now rewrite Hc, IH.
Qed.

Lemma lower_digit (c : ascii) : is_digit c = true -> lower_char c = c.
Proof.
  unfold is_digit, lower_char. intros H.
  apply andb_true_iff in H as [_ H]. apply Nat.leb_le in H.
  destruct (65 <=? nat_of_ascii c)%nat eqn:E; simpl; [|reflexivity].
  apply Nat.leb_le in E. lia.
Qed.

Lemma toLowerCase_app (a b : string) :
  toLowerCase (a ++ b) = (toLowerCase a ++ toLowerCase b)%string.
Proof. induction a; simpl; congruence. Qed.

Lemma toLowerCase_digits (ds : string) : all_digits ds = true -> toLowerCase ds = ds.
Proof.
  unfold all_digits. induction ds as [|c ds IH]; simpl; intros H; [reflexivity|].
  apply andb_true_iff in H as [Hc Hd]. now rewrite lower_digit, IH.
Qed.

(** *** Binary64 rounding *)

Lemma pow2_pos k : (0 < pow2 k)%Q.
Proof. unfold pow2. apply Qpower_0_lt. reflexivity. Qed.

Lemma pow2_plus a b : (pow2 (a + b) == pow2 a * pow2 b)%Q.
Proof. unfold pow2. apply Qpower_plus. discriminate. Qed.

Lemma pow2_0 : (pow2 0 == 1)%Q.
Proof. reflexivity. Qed.

Lemma pow2_succ a : (pow2 (a + 1) == 2 * pow2 a)%Q.
Proof. rewrite pow2_plus. change (pow2 1) with 2%Q. ring. Qed.

Lemma pow2_nonneg_Z a : 0 <= a -> (pow2 a == inject_Z (2 ^ a))%Q.
Proof.
  intros Ha. unfold pow2. change 2%Q with (inject_Z 2).
  symmetry. apply Zpower_Qpower. exact Ha.
Qed.

Lemma pow2_le a b : a <= b -> (pow2 a <= pow2 b)%Q.
Proof.
  intros Hab. replace b with (a + (b - a)) by lia. rewrite pow2_plus.
  assert (H1 : (1 <= pow2 (b - a))%Q).
  { rewrite pow2_nonneg_Z by lia. change 1%Q with (inject_Z 1). rewrite <- Zle_Qle.
    assert (0 < 2 ^ (b - a)) by (apply Z.pow_pos_nonneg; lia). lia. }
  pose proof (pow2_pos a). nra.
Qed.

Lemma pow2_lt a b : a < b -> (pow2 a < pow2 b)%Q.
Proof.
  intros Hab. apply Qlt_le_trans with (pow2 (a + 1)).
  - rewrite pow2_succ. pose proof (pow2_pos a). lra.
  - apply pow2_le. lia.
Qed.

Lemma pow2_lt_inv a b : (pow2 a < pow2 b)%Q -> a < b.
Proof.
  intros H. destruct (Z_lt_le_dec a b) as [|Hle]; [assumption|].
  apply pow2_le in Hle. lra.
Qed.

Lemma binade_spec q :
  (0 < q)%Q -> (pow2 (binade q) <= q /\ q < pow2 (binade q + 1))%Q.
Proof.
  intros Hq. destruct q as [n d]. unfold binade. cbn [Qnum Qden].
  assert (Hn : 0 < n) by (unfold Qlt in Hq; simpl in Hq; lia).
  set (a := Z.log2 n). set (b := Z.log2 (Zpos d)).
  assert (Ha : 2 ^ a <= n < 2 ^ (a + 1)).
  { pose proof (Z.log2_spec n Hn). unfold a. now rewrite <- Z.add_1_r in H. }
  assert (Hb : 2 ^ b <= Zpos d < 2 ^ (b + 1)).
  { pose proof (Z.log2_spec (Zpos d) eq_refl). unfold b. now rewrite <- Z.add_1_r in H. }
  assert (Ha0 : 0 <= a) by apply Z.log2_nonneg.
  assert (Hb0 : 0 <= b) by apply Z.log2_nonneg.
  assert (Hq' : (n # d == inject_Z n / inject_Z (Zpos d))%Q) by apply Qmake_Qdiv.
  assert (Hd : (0 < inject_Z (Zpos d))%Q) by reflexivity.
  assert (HA1 : (pow2 a <= inject_Z n)%Q) by (rewrite pow2_nonneg_Z, <- Zle_Qle; lia).
  assert (HA2 : (inject_Z n < pow2 (a + 1))%Q) by (rewrite pow2_nonneg_Z, <- Zlt_Qlt; lia).
  assert (HB1 : (pow2 b <= inject_Z (Zpos d))%Q) by (rewrite pow2_nonneg_Z, <- Zle_Qle; lia).
  assert (HB2 : (inject_Z (Zpos d) < pow2 (b + 1))%Q) by (rewrite pow2_nonneg_Z, <- Zlt_Qlt; lia).
  assert (Hmul : (inject_Z n == (n # d) * inject_Z (Zpos d))%Q).
  { rewrite Hq'. field. lra. }
  set (q := n # d) in *. set (N := inject_Z n) in *. set (D := inject_Z (Zpos d)) in *.
  assert (Hup : (q < pow2 (a - b + 1))%Q).
  { assert (E : (pow2 (a + 1) == pow2 (a - b + 1) * pow2 b)%Q)
      by (rewrite <- pow2_plus; f_equiv; lia).
    pose proof (pow2_pos (a - b + 1)) as Hp. pose proof (pow2_pos b) as Hpb.
    apply Qnot_le_lt. intros Hc.
    assert (H1 : (pow2 (a - b + 1) * D <= q * D)%Q) by (apply Qmult_le_compat_r; lra).
    assert (H2 : (pow2 (a - b + 1) * pow2 b <= pow2 (a - b + 1) * D)%Q)
      by (rewrite !(Qmult_comm (pow2 (a - b + 1))); apply Qmult_le_compat_r; lra).
    lra. }
  assert (Hlow : (pow2 (a - b - 1) <= q)%Q).
  { assert (E : (pow2 a == pow2 (a - b - 1) * pow2 (b + 1))%Q)
      by (rewrite <- pow2_plus; f_equiv; lia).
    pose proof (pow2_pos (a - b - 1)) as Hp. pose proof (pow2_pos (b + 1)) as Hpb.
    apply Qnot_lt_le. intros Hc.
    assert (H1 : (q * D <= pow2 (a - b - 1) * D)%Q) by (apply Qmult_le_compat_r; lra).
    assert (H2 : (pow2 (a - b - 1) * D < pow2 (a - b - 1) * pow2 (b + 1))%Q)
      by (rewrite !(Qmult_comm (pow2 (a - b - 1))); apply Qmult_lt_compat_r; lra).
    lra. }
  destruct (Qle_bool (pow2 (a - b)) q) eqn:E.
  - apply Qle_bool_iff in E. split; assumption.
  - split; [exact Hlow|]. replace (a - b - 1 + 1) with (a - b) by lia.
    apply Qnot_le_lt. intros H. apply Qle_bool_iff in H. congruence.
Qed.

Lemma nearest_even_comp x x' : (x == x')%Q -> nearest_even x = nearest_even x'.
Proof.
  intros E. unfold nearest_even. rewrite (Qfloor_comp _ _ E).
  assert (E' : ((x - inject_Z (Qfloor x') ?= 1 # 2) = (x' - inject_Z (Qfloor x') ?= 1 # 2))%Q)
    by (now rewrite E).
  now rewrite E'.
Qed.

Lemma nearest_even_Z z : nearest_even (inject_Z z) = z.
Proof.
  unfold nearest_even. rewrite Qfloor_Z.
  assert (E : ((inject_Z z - inject_Z z ?= 1 # 2) = Lt)%Q).
  { apply Qlt_alt. unfold Qminus. rewrite Qplus_opp_r. reflexivity. }
  now rewrite E.
Qed.


Lemma Qred_integer (z : Z) : Qred (z # 1) = z # 1.
Proof. apply Qcanon.Qred_identity. simpl. apply Z.gcd_1_r. Qed.

Lemma inject_Z_pos m : 0 < m -> (0 < inject_Z m)%Q.
Proof. intros H. change 0%Q with (inject_Z 0). now rewrite <- Zlt_Qlt. Qed.

Lemma inject_Z_below m k : 0 <= k -> m < 2 ^ k -> (inject_Z m < pow2 k)%Q.
Proof. intros Hk H. rewrite pow2_nonneg_Z by exact Hk. now rewrite <- Zlt_Qlt. Qed.


(** A positive rational with at most 53 significant bits and an exponent of
    at least -1074 is a multiple of its unit in the last place. *)
Lemma binary64_magnitude_exact (m k : Z) (a : Q) :
  0 < m < 2 ^ 53 -> -1074 <= k -> (a == inject_Z m * pow2 k)%Q ->
  (binary64_magnitude a == a)%Q.
Proof.
  intros Hm Hk Ha.
  assert (Hm1 : (0 < inject_Z m)%Q) by (apply inject_Z_pos; lia).
  assert (Hm2 : (inject_Z m < pow2 53)%Q) by (apply inject_Z_below; lia).
  assert (Hpos : (0 < a)%Q).
  { rewrite Ha. apply Qmult_lt_0_compat; [exact Hm1 | apply pow2_pos]. }
  unfold binary64_magnitude.
  destruct (binade_spec a Hpos) as (Hlow & _).
  set (e := binade a) in *. set (u := Z.max (e - 52) (-1074)).
  assert (Hu : u <= k).
  { assert (e < 53 + k); [|unfold u; lia].
    apply pow2_lt_inv. eapply Qle_lt_trans; [exact Hlow|].
    rewrite Ha, pow2_plus. apply Qmult_lt_compat_r; [apply pow2_pos | exact Hm2]. }
  assert (Hx : (a / pow2 u == inject_Z (m * 2 ^ (k - u)))%Q).
  { rewrite Ha, inject_Z_mult, <- pow2_nonneg_Z by lia.
    replace k with ((k - u) + u) at 1 by lia. rewrite pow2_plus.
    pose proof (pow2_pos u). field. lra. }
  rewrite (nearest_even_comp _ _ Hx), nearest_even_Z.
  rewrite <- Hx. pose proof (pow2_pos u). field. lra.
Qed.

(** Such a rational, of either sign and below 2^1024, is its own Number value. *)
Lemma binary64_exact (m k : Z) (q : Q) :
  Z.abs m < 2 ^ 53 -> -1074 <= k -> (q == inject_Z m * pow2 k)%Q ->
  (Qabs q < pow2 1024)%Q ->
  binary64 q = Fin (Qred q).
Proof.
  intros Hm Hk Hq Hmax. unfold binary64.
  destruct (Z.eq_dec m 0) as [->|Hm0].
  - assert (Hz : (q == 0)%Q) by (rewrite Hq; ring).
    assert (E : Q_is_zero q = true).
    { unfold Q_is_zero. unfold Qeq in Hz. simpl in Hz. apply Z.eqb_eq. lia. }
    rewrite E. f_equal. symmetry. apply (Qred_complete q 0 Hz).
  - assert (Habs : (Qabs q == inject_Z (Z.abs m) * pow2 k)%Q).
    { rewrite Hq, Qabs_Qmult. change (Qabs (inject_Z m)) with (inject_Z (Z.abs m)).
      rewrite (Qabs_pos (pow2 k)) by apply Qlt_le_weak, pow2_pos. reflexivity. }
    assert (Hy : (binary64_magnitude (Qabs q) == Qabs q)%Q)
      by (apply (binary64_magnitude_exact (Z.abs m) k); [lia | exact Hk | exact Habs]).
    assert (Hapos : (0 < Qabs q)%Q).
    { rewrite Habs. apply Qmult_lt_0_compat; [apply inject_Z_pos; lia | apply pow2_pos]. }
    assert (Hnz : Q_is_zero q = false).
    { unfold Q_is_zero. apply Z.eqb_neq. intros E.
      assert (Hz : (q == 0)%Q) by (unfold Qeq; simpl; lia).
      rewrite Hz in Hapos. discriminate Hapos. }
    rewrite Hnz. cbv zeta.
    destruct (Qle_bool (pow2 1024) _) eqn:E.
    { apply Qle_bool_iff in E. rewrite Hy in E. lra. }
    f_equal. apply Qred_complete. unfold Q_is_neg.
    destruct (Qnum q <? 0) eqn:En.
    + apply Z.ltb_lt in En. rewrite Hy, Qabs_neg; [ring|].
      unfold Qle; simpl. lia.
    + apply Z.ltb_ge in En. rewrite Hy, Qabs_pos; [reflexivity|].
      unfold Qle; simpl. lia.
Qed.

(** An integer of at most 53 bits scaled by a power of two. *)
Lemma binary64_scaled (n j : Z) (q : Q) :
  Z.abs n <= 2 ^ 53 -> -1000 <= j <= 960 -> (q == inject_Z n * pow2 j)%Q ->
  binary64 q = Fin (Qred q).
Proof.
  intros Hn Hj Hq.
  assert (Hmax : (Qabs q < pow2 1024)%Q).
  { rewrite Hq, Qabs_Qmult. change (Qabs (inject_Z n)) with (inject_Z (Z.abs n)).
    rewrite (Qabs_pos (pow2 j)) by apply Qlt_le_weak, pow2_pos.
    apply Qle_lt_trans with (pow2 53 * pow2 j)%Q.
    - apply Qmult_le_compat_r; [|apply Qlt_le_weak, pow2_pos].
      rewrite pow2_nonneg_Z by lia. now rewrite <- Zle_Qle.
    - rewrite <- pow2_plus. apply pow2_lt. lia. }
  destruct (Z.eq_dec (Z.abs n) (2 ^ 53)) as [E|E].
  - apply (binary64_exact (n / 2) (j + 1)); [ | lia | | exact Hmax].
    + assert (Z.abs (n / 2) = 2 ^ 52); [|lia].
      destruct (Z.abs_eq_or_opp n) as [H|H]; rewrite H in E.
      * rewrite E. reflexivity.
      * assert (En : n = - 2 ^ 53) by lia. rewrite En. reflexivity.
    + rewrite Hq, pow2_succ.
      assert (En : n = 2 * (n / 2)).
      { destruct (Z.abs_eq_or_opp n) as [H|H]; rewrite H in E.
        - rewrite E. reflexivity.
        - assert (En : n = - 2 ^ 53) by lia. rewrite En. reflexivity. }
      rewrite En at 1. rewrite inject_Z_mult. change (inject_Z 2) with 2%Q. ring.
  - apply (binary64_exact n j); [lia | lia | exact Hq | exact Hmax].
Qed.

Lemma binary64_integer (n : Z) : Z.abs n <= 2 ^ 53 -> binary64 (inject_Z n) = num n.
Proof.
  intros Hn. rewrite (binary64_scaled n 0); [|exact Hn|lia|rewrite pow2_0; ring].
  unfold num. f_equal. apply Qred_integer.
Qed.

(** The product of an integer of at most 53 bits and a power of two is exact. *)
Lemma num_mul_pow2 (n j : Z) :
  Z.abs n <= 2 ^ 53 -> 0 <= j <= 960 ->
  num_mul (num n) (num (2 ^ j)) = num (n * 2 ^ j).
Proof.
  intros Hn Hj. unfold num_mul, num.
  rewrite (binary64_scaled n j); [|exact Hn|lia|].
  - f_equal. transitivity (Qred (inject_Z (n * 2 ^ j))); [|apply Qred_integer].
    apply Qred_complete. rewrite <- inject_Z_mult. reflexivity.
  - rewrite pow2_nonneg_Z by lia. reflexivity.
Qed.

Lemma num_mul_integers (a b : Z) :
  Z.abs (a * b) <= 2 ^ 53 -> num_mul (num a) (num b) = num (a * b).
Proof.
  intros H. unfold num_mul, num. rewrite <- inject_Z_mult. now apply binary64_integer.
Qed.

(** The two divisions by 1024 are exact on an integer of at most 53 bits
    scaled by a power of two, so that only [Math.round] rounds. *)
Lemma bytes_to_MB_scaled (n j : Z) :
  0 <= n <= 2 ^ 53 -> 0 <= j <= 900 ->
  bytes_to_MB (num (n * 2 ^ j)) = num (round_div (n * 2 ^ j) (1024 * 1024)).
Proof.
  intros Hn Hj. unfold bytes_to_MB, num_div, num.
  change (Q_is_zero (inject_Z 1024)) with false. cbv iota.
  assert (H1 : (inject_Z (n * 2 ^ j) / inject_Z 1024 == inject_Z n * pow2 (j - 10))%Q).
  { rewrite inject_Z_mult, <- pow2_nonneg_Z by lia.
    replace j with ((j - 10) + 10) at 1 by lia. rewrite pow2_plus.
    change (pow2 10) with (inject_Z 1024). field. }
  rewrite (binary64_scaled n (j - 10) _); [|lia|lia|exact H1].
  change (Q_is_zero (inject_Z 1024)) with false. cbv iota.
  assert (H2 : (Qred (inject_Z (n * 2 ^ j) / inject_Z 1024) / inject_Z 1024
                == inject_Z n * pow2 (j - 20))%Q).
  { rewrite Qred_correct, H1. replace (j - 10) with ((j - 20) + 10) by lia.
    rewrite pow2_plus. change (pow2 10) with (inject_Z 1024). field. }
  rewrite (binary64_scaled n (j - 20) _); [|lia|lia|exact H2].
  unfold Math_round, num. do 2 f_equal.
  assert (E : (Qred (Qred (inject_Z (n * 2 ^ j) / inject_Z 1024) / inject_Z 1024) + (1 # 2)
               == (2 * (n * 2 ^ j) + 1024 * 1024) # (2 * (1024 * 1024)))%Q).
  { rewrite !Qred_correct. unfold Qeq, Qdiv, Qmult, Qplus, Qinv, inject_Z; cbn -[Z.mul Z.add Z.pow]. lia. }
  rewrite E. reflexivity.
Qed.






(** A size of at most 53 bits in a power-of-two unit, in MB. *)
Lemma scaled_MB (n j : Z) :
  0 <= n <= 2 ^ 53 -> 0 <= j <= 30 ->
  bytes_to_MB (num_mul (num n) (num (2 ^ j))) = num (round_div (n * 2 ^ j) (1024 * 1024)).
Proof.
  intros Hn Hj. rewrite num_mul_pow2 by lia. apply bytes_to_MB_scaled; lia.
Qed.

(** The table of units is the 1024-based one. *)
Lemma units_MB (n : Z) (unit : ascii) :
  0 <= n <= 2 ^ 53 -> In unit unit_letters ->
  bytes_to_MB (num_mul (num n) (units (String (lower_char unit) EmptyString)))
  = num (megabytes n unit).
Proof.
  intros Hn Hu. unfold megabytes.
  simpl in Hu. decompose [or] Hu; subst; try contradiction.
  - exact (scaled_MB n 0 Hn ltac:(lia)).
  - exact (scaled_MB n 10 Hn ltac:(lia)).
  - exact (scaled_MB n 20 Hn ltac:(lia)).
  - exact (scaled_MB n 30 Hn ltac:(lia)).
  - exact (scaled_MB n 0 Hn ltac:(lia)).
  - exact (scaled_MB n 10 Hn ltac:(lia)).
  - exact (scaled_MB n 20 Hn ltac:(lia)).
  - exact (scaled_MB n 30 Hn ltac:(lia)).
Qed.

(** The second group of the pattern is empty for the unit b, which the
    code then restores. *)
Lemma unit_or_b (unit : ascii) :
  In unit unit_letters ->
  (let matched := if Ascii.eqb (lower_char unit) "b" then EmptyString
                  else String (lower_char unit) EmptyString in
   if (matched =? "")%string then "b" else matched)
  = String (lower_char unit) EmptyString.
Proof.
  intros Hu. simpl in Hu. decompose [or] Hu; subst; try contradiction; reflexivity.
Qed.

Lemma digits_from_nonneg (s : string) (acc : Z) :
  all_digits s = true -> 0 <= acc -> 0 <= digits_from acc s.
Proof.
  unfold all_digits. revert acc.
  induction s as [|c s IH]; cbn [digits_from list_ascii_of_string forallb];
    intros acc Hd Hacc; [exact Hacc|].
  apply andb_true_iff in Hd as [Hc Hd]. apply IH; [exact Hd|].
  unfold is_digit in Hc. cbv zeta in Hc.
  apply andb_true_iff in Hc as [Hc _]. apply Nat.leb_le in Hc.
  unfold digit_value. lia.
Qed.

Lemma digits_value_nonneg (s : string) : all_digits s = true -> 0 <= digits_value s.
Proof. intros H. apply digits_from_nonneg; [exact H | lia]. Qed.

(** The facts about one digit that the parsers use. *)
Lemma digit_facts (c : ascii) (rest : string) :
  is_digit c = true ->
  is_space c = false /\
  read_sign (String c rest) = (false, String c rest) /\
  String.prefix "Infinity" (String c rest) = false /\
  lower_char c = c.
Proof.
  intros Hc.
  destruct c as [[] [] [] [] [] [] [] []];
    try (vm_compute in Hc; discriminate); repeat split; reflexivity.
Qed.

(** [parseFloat] on a run of digits is its value, up to 2^53. *)
Lemma parseFloat_digits (ds : string) :
  ds <> EmptyString -> all_digits ds = true -> digits_value ds <= 2 ^ 53 ->
  parseFloat_string ds = num (digits_value ds).
Proof.
  intros Hne Hd Hmax. unfold parseFloat_string.
  pose proof (digits_value_nonneg ds Hd) as Hmin.
  destruct ds as [|c ds]; [congruence|].
  assert (Hc : is_digit c = true).
  { unfold all_digits in Hd. simpl in Hd. now apply andb_true_iff in Hd. }
  destruct (digit_facts c ds Hc) as (Hs & Hsign & Hinf & _).
  unfold dropWhile. simpl span at 1. rewrite Hs. simpl snd.
  rewrite Hsign, Hinf, (span_digits_all _ Hd).
  assert (Hnil : (String c ds ++ "")%string = String c ds).
  { generalize (String c ds). intros s. induction s; simpl; congruence. }
  rewrite Hnil.
  change (read_exponent "" - Z.of_nat (String.length "")) with 0.
  change (signed false (digits_value (String c ds))) with (digits_value (String c ds)).
  rewrite (binary64_scaled (digits_value (String c ds)) 0); [|lia|lia|].
  - unfold num. f_equal. transitivity (Qred (inject_Z (digits_value (String c ds))));
      [|apply Qred_integer].
    apply Qred_complete. unfold Qeq; simpl. lia.
  - rewrite pow2_0. unfold Qeq; simpl. lia.
Qed.

Lemma memory_match_unit (ds : string) (unit : ascii) :
  ds <> EmptyString -> all_digits ds = true -> In unit unit_letters ->
  memory_match (toLowerCase (ds ++ String unit EmptyString))
  = Some (ds, if Ascii.eqb (lower_char unit) "b" then EmptyString
              else String (lower_char unit) EmptyString).
Proof.
  intros Hne Hd Hu. rewrite toLowerCase_app, (toLowerCase_digits _ Hd).
  unfold memory_match.
  assert (Hspan : span is_digit (ds ++ toLowerCase (String unit EmptyString))
                  = (ds, toLowerCase (String unit EmptyString))).
  { apply span_digits; [assumption|].
    simpl in Hu. decompose [or] Hu; subst; try reflexivity; contradiction. }
  rewrite Hspan. destruct ds as [|c ds]; [congruence|].
  simpl in Hu. decompose [or] Hu; subst; try reflexivity; contradiction.
Qed.

Lemma append_nil_r (s : string) : (s ++ "")%string = s.
Proof. induction s; simpl; congruence. Qed.

Lemma span_spec (p : ascii -> bool) (s a b : string) :
  span p s = (a, b) ->
  s = (a ++ b)%string /\ forallb p (list_ascii_of_string a) = true /\
  match b with String c _ => p c = false | EmptyString => True end.
Proof.
  revert a b. induction s as [|c s IH]; simpl; intros a b.
  - intros [= <- <-]. repeat split.
  - destruct (p c) eqn:Hc.
    + destruct (span p s) as [a' b'] eqn:E. intros [= <- <-].
      destruct (IH a' b' eq_refl) as (-> & Ha & Hb). simpl. rewrite Hc. now repeat split.
    + intros [= <- <-]. simpl. now repeat split.
Qed.

Lemma memory_match_digits (ds : string) :
  ds <> EmptyString -> all_digits ds = true ->
  memory_match (toLowerCase ds) = Some (ds, EmptyString).
Proof.
  intros Hne Hd. rewrite (toLowerCase_digits _ Hd). unfold memory_match.
  rewrite (span_digits_all _ Hd). destruct ds; [congruence | reflexivity].
Qed.

(** Beyond 2^53 the digits are first rounded to the nearest binary64 value,
    as every number of the source is: 9007199255265279 bytes are read as
    9007199255265280, which is 8192 TB and one half MB. *)
Lemma parseMemoryValue_beyond_53_bits (options : Required.Options) (st : diag) :
  parseMemoryValue options (VStr "9007199255265279b") st = (inr (num 8589934593), st) /\
  megabytes 9007199255265279 "b" = 8589934592.
Proof. split; vm_compute; reflexivity. Qed.

(** C6. [parseMemoryValue] maps the string "512M" to 512 MB, the string "1G"
    to 1024 MB and the number 2147483648 (bytes) to 2048 MB; a string of
    digits followed by a unit letter among b, k, m, g, in either case, is
    converted to MB with the 1024-based multipliers and rounded to the
    nearest integer, for digits up to 2^53, within which the arithmetic of
    the source is exact.  No warning is pushed on the way. *)
Theorem C6_memory_values_in_MB (options : Required.Options) (st : diag) :
  parseMemoryValue options (VStr "512M") st = (inr (num 512), st) /\
  parseMemoryValue options (VStr "1G") st = (inr (num 1024), st) /\
  parseMemoryValue options (VNum (num 2147483648)) st = (inr (num 2048), st) /\
  forall (digits : string) (unit : ascii),
    digits <> EmptyString -> all_digits digits = true -> In unit unit_letters ->
    digits_value digits <= 2 ^ 53 ->
    parseMemoryValue options (VStr (digits ++ String unit EmptyString)) st
    = (inr (num (megabytes (digits_value digits) unit)), st).
Proof.
  split; [vm_compute; reflexivity|].
  split; [vm_compute; reflexivity|].
  split; [vm_compute; reflexivity|].
  intros ds unit Hne Hd Hu Hmax.
  pose proof (digits_value_nonneg ds Hd) as Hmin.
  unfold parseMemoryValue, string_method, bind, ret.
  rewrite (memory_match_unit ds unit Hne Hd Hu).
  rewrite (parseFloat_digits ds Hne Hd Hmax).
  pose proof (unit_or_b unit Hu) as Eu. cbv zeta in Eu. rewrite Eu.
  rewrite units_MB; [reflexivity | split; assumption | assumption].
Qed.

(** ** Option defaulting *)

(** C10. The constructor discards explicit falsy values: whatever the other
    options are, [priority: 0] gives the effective priority 50,
    [includeComments: false] gives [true] and [preserveLabels: false] gives
    [true]; and no supplied falsy value is observable: the effective
    configuration is the one obtained with every falsy option left out. *)
Theorem C10_falsy_options_are_discarded :
  forall (j ns : option string) (dcs : option (list string)) (r : option string)
         (p : option number) (sv ic pl : option bool) (nm : option NetworkMode)
         (rd : option ResourceDefaults),
    let supplied p ic pl :=
      {| jobName := j; namespace := ns; datacenters := dcs; region := r;
         priority := p; skipValidation := sv; includeComments := ic;
         preserveLabels := pl; networkMode := nm; resourceDefaults := rd |} in
    Required.priority (Compose2HCLConverter (supplied (Some (num 0)) ic pl)) = num 50 /\
    Required.includeComments (Compose2HCLConverter (supplied p (Some false) pl)) = true /\
    Required.preserveLabels (Compose2HCLConverter (supplied p ic (Some false))) = true /\
    Compose2HCLConverter (supplied p ic pl)
    = Compose2HCLConverter (forget_falsy (supplied p ic pl)).
Proof.
  intros. split; [reflexivity|]. split; [reflexivity|]. split; [reflexivity|].
  unfold Compose2HCLConverter, forget_falsy, supplied; simpl. f_equal.
  - destruct j as [[|]|]; reflexivity.
  - destruct ns as [[|]|]; reflexivity.
  - destruct r as [[|]|]; reflexivity.
  - destruct p as [n|]; simpl; [destruct (num_truthy n) eqn:E; simpl; now rewrite ?E|reflexivity].
  - destruct sv as [[|]|]; reflexivity.
  - destruct ic as [[|]|]; reflexivity.
  - destruct pl as [[|]|]; reflexivity.
  - destruct rd as [[[c|] m]|]; simpl; try reflexivity;
      destruct (num_truthy c) eqn:E; simpl; now rewrite ?E.
  - destruct rd as [[c [m|]]|]; simpl; try reflexivity;
      destruct (num_truthy m) eqn:E; simpl; now rewrite ?E.
Qed.

(** ** The monad: methods only append to the diagnostics *)

Lemma diag_nil (st : diag) : st = Diag (warnings st ++ []) (errors st ++ []).
Proof. destruct st; simpl; now rewrite !app_nil_r. Qed.

Lemma obl_ret {A} (a : A) : oblivious (ret a).
Proof. exists (inr a), [], []. intros st. unfold ret. now rewrite <- diag_nil. Qed.

Lemma obl_throw {A} (e : exn) : oblivious (@throw A e).
Proof. exists (inl e), [], []. intros st. unfold throw. now rewrite <- diag_nil. Qed.

Lemma obl_push_warning (w : string) : oblivious (push_warning w).
Proof. exists (inr tt), [w], []. intros st. unfold push_warning. now rewrite app_nil_r. Qed.

Lemma obl_push_error (e : string) : oblivious (push_error e).
Proof. exists (inr tt), [], [e]. intros st. unfold push_error. now rewrite app_nil_r. Qed.

Lemma obl_bind {A B} (m : M A) (k : A -> M B) :
  oblivious m -> (forall a, oblivious (k a)) -> oblivious (bind m k).
Proof.
  intros (r & ws & es & Hm) Hk. destruct r as [e|a].
  - exists (inl e), ws, es. intros st. unfold bind. now rewrite Hm.
  - destruct (Hk a) as (r' & ws' & es' & Hk').
    exists r', (ws ++ ws')%list, (es ++ es')%list. intros st. unfold bind.
    rewrite Hm, Hk'. simpl. now rewrite !app_assoc.
Qed.

Lemma obl_try_catch {A} (body : M A) (handler : exn -> M A) :
  oblivious body -> (forall e, oblivious (handler e)) -> oblivious (try_catch body handler).
Proof.
  intros (r & ws & es & Hm) Hk. destruct r as [e|a].
  - destruct (Hk e) as (r' & ws' & es' & Hk').
    exists r', (ws ++ ws')%list, (es ++ es')%list. intros st. unfold try_catch.
    rewrite Hm, Hk'. simpl. now rewrite !app_assoc.
  - exists (inr a), ws, es. intros st. unfold try_catch. now rewrite Hm.
Qed.

Lemma obl_when (b : bool) (c : M unit) : oblivious c -> oblivious (when b c).
Proof. destruct b; simpl; auto using obl_ret. Qed.

Lemma obl_forEach_from {A} (f : A -> nat -> M unit) (l : list A) :
  (forall x i, oblivious (f x i)) -> forall i, oblivious (forEach_from i f l).
Proof.
  intros Hf. induction l as [|x l IH]; intros i; simpl.
  - apply obl_ret.
  - apply obl_bind; auto.
Qed.

Lemma obl_forEach {A} (f : A -> nat -> M unit) (l : list A) :
  (forall x i, oblivious (f x i)) -> oblivious (forEach f l).
Proof. intros Hf. now apply obl_forEach_from. Qed.

Lemma obl_fold_from {A B} (f : B -> A -> nat -> M B) (l : list A) :
  (forall acc x i, oblivious (f acc x i)) ->
  forall i acc, oblivious (fold_from i f l acc).
Proof.
  intros Hf. induction l as [|x l IH]; intros i acc; simpl.
  - apply obl_ret.
  - apply obl_bind; auto.
Qed.

Lemma obl_mapM {A B} (f : A -> M B) (l : list A) :
  (forall x, oblivious (f x)) -> oblivious (mapM f l).
Proof.
  intros Hf. induction l as [|x l IH]; simpl.
  - apply obl_ret.
  - apply obl_bind; [auto|]. intros y. apply obl_bind; [auto|]. intros ys. apply obl_ret.
Qed.

(** An oblivious method run from any state: its outcome, and what it appended. *)
Lemma obl_run {A} (m : M A) :
  oblivious m -> forall st, exists st', m st = (outcome m, st') /\ extends st st'.
Proof.
  intros (r & ws & es & Hm) st. unfold outcome. rewrite (Hm no_diag), Hm. simpl.
  eexists; split; [reflexivity|]. now exists ws, es.
Qed.

Create HintDb obl discriminated.
#[local] Hint Resolve obl_ret obl_throw obl_push_warning obl_push_error obl_when
  obl_forEach obl_mapM : obl.

(** One step of a proof that a method is oblivious, by the shape of its body. *)
Ltac obl_step :=
  lazymatch goal with
  | |- oblivious (bind _ _) => apply obl_bind; [|intros]
  | |- oblivious (try_catch _ _) => apply obl_try_catch; [|intros]
  | |- oblivious (when _ _) => apply obl_when
  | |- oblivious (forEach _ _) => apply obl_forEach; intros
  | |- oblivious (fold_from _ _ _ _) => apply obl_fold_from; intros
  | |- oblivious (mapM _ _) => apply obl_mapM; intros
  | |- oblivious (ret _) => apply obl_ret
  | |- oblivious (throw _) => apply obl_throw
  | |- oblivious (push_warning _) => apply obl_push_warning
  | |- oblivious (push_error _) => apply obl_push_error
  | |- oblivious (let _ := _ in _) => cbv zeta
  | |- oblivious (match ?x with _ => _ end) => destruct x
  | |- oblivious ((match ?x with _ => _ end) _) => destruct x
  | |- oblivious ((fun _ => _) _) => cbv beta
  | |- _ => solve [eauto with obl]
  end.

Ltac obl := repeat obl_step.

Lemma obl_get v k : oblivious (get v k).
Proof. unfold get. obl. Qed.

Lemma obl_Object_entries v : oblivious (Object_entries v).
Proof. unfold Object_entries. obl. Qed.

Lemma obl_array_method r m v : oblivious (array_method r m v).
Proof. unfold array_method. obl. Qed.

Lemma obl_string_method r m v : oblivious (string_method r m v).
Proof. unfold string_method. obl. Qed.

Lemma obl_destructured r m v : oblivious (destructured r m v).
Proof. unfold destructured. obl. Qed.

Lemma obl_spread source v : oblivious (spread source v).
Proof. unfold spread. obl. Qed.

Lemma obl_call {A} (o : exn + A) : oblivious (call o).
Proof. unfold call. obl. Qed.

#[local] Hint Resolve obl_get obl_Object_entries obl_array_method obl_string_method
  obl_destructured obl_spread obl_call : obl.

Lemma obl_Object_keys v : oblivious (Object_keys v).
Proof. unfold Object_keys. obl. Qed.

#[local] Hint Resolve obl_Object_keys : obl.

Lemma obl_getServiceReplicas service : oblivious (getServiceReplicas service).
Proof. unfold getServiceReplicas. obl. Qed.

Lemma obl_convertDevice device : oblivious (convertDevice device).
Proof. unfold convertDevice. obl. Qed.

Lemma obl_add_label labels label : oblivious (add_label labels label).
Proof. unfold add_label. obl. Qed.

#[local] Hint Resolve obl_getServiceReplicas obl_convertDevice obl_add_label : obl.

Lemma obl_convertDockerConfig options service :
  oblivious (convertDockerConfig options service).
Proof. unfold convertDockerConfig. obl. Qed.

Lemma obl_add_env_entry env envVar : oblivious (add_env_entry env envVar).
Proof. unfold add_env_entry. obl. Qed.

#[local] Hint Resolve obl_convertDockerConfig obl_add_env_entry : obl.

Lemma obl_convertEnvironment environment : oblivious (convertEnvironment environment).
Proof. unfold convertEnvironment. obl. Qed.

Lemma obl_parseMemoryValue options memory : oblivious (parseMemoryValue options memory).
Proof. unfold parseMemoryValue. obl. Qed.

#[local] Hint Resolve obl_convertEnvironment obl_parseMemoryValue : obl.

Lemma obl_convertResources options service : oblivious (convertResources options service).
Proof. unfold convertResources. obl. Qed.

Lemma obl_add_port ports port index : oblivious (add_port ports port index).
Proof. unfold add_port. obl. Qed.

Lemma obl_add_expose ports port index : oblivious (add_expose ports port index).
Proof. unfold add_expose. obl. Qed.

#[local] Hint Resolve obl_convertResources obl_add_port obl_add_expose : obl.

Lemma obl_convertNetworking options service : oblivious (convertNetworking options service).
Proof. unfold convertNetworking. obl. Qed.

Lemma obl_add_volume volumes volume index : oblivious (add_volume volumes volume index).
Proof. unfold add_volume. obl. Qed.

#[local] Hint Resolve obl_convertNetworking obl_add_volume : obl.

Lemma obl_convertVolumes service composeVolumes :
  oblivious (convertVolumes service composeVolumes).
Proof. unfold convertVolumes. obl. Qed.

Lemma obl_add_mount mounts volume index : oblivious (add_mount mounts volume index).
Proof. unfold add_mount. obl. Qed.

#[local] Hint Resolve obl_convertVolumes obl_add_mount : obl.

Lemma obl_convertVolumeMounts volumes : oblivious (convertVolumeMounts volumes).
Proof. unfold convertVolumeMounts. obl. Qed.

Lemma obl_convertToNomadServices service serviceName :
  oblivious (convertToNomadServices service serviceName).
Proof. unfold convertToNomadServices. obl. Qed.

Lemma obl_reference_name ref : oblivious (reference_name ref).
Proof. unfold reference_name. obl. Qed.

#[local] Hint Resolve obl_convertVolumeMounts obl_convertToNomadServices
  obl_reference_name : obl.

Lemma obl_convertConfigsAndSecrets service compose :
  oblivious (convertConfigsAndSecrets service compose).
Proof. unfold convertConfigsAndSecrets. obl. Qed.

Lemma obl_convertRestartPolicy service : oblivious (convertRestartPolicy service).
Proof. unfold convertRestartPolicy. obl. Qed.

Lemma obl_convertConstraint constraint : oblivious (convertConstraint constraint).
Proof. unfold convertConstraint. obl. Qed.

#[local] Hint Resolve obl_convertConfigsAndSecrets obl_convertRestartPolicy
  obl_convertConstraint : obl.

Lemma obl_convertConstraints constraints : oblivious (convertConstraints constraints).
Proof. unfold convertConstraints. obl. Qed.

#[local] Hint Resolve obl_convertConstraints : obl.

Lemma obl_convertServiceToTask options serviceName service compose :
  oblivious (convertServiceToTask options serviceName service compose).
Proof. unfold convertServiceToTask. obl. Qed.

#[local] Hint Resolve obl_convertServiceToTask : obl.

Lemma obl_taskGroup_of options serviceName service compose :
  oblivious (taskGroup_of options serviceName service compose).
Proof. unfold taskGroup_of. obl. Qed.

(** ** Objects as property lists *)

Lemma own_set_own_eq props k v : own (set_own props k v) k = v.
Proof.
  induction props as [|[k' v'] props IH]; simpl.
  - now rewrite String.eqb_refl.
  - destruct (k' =? k)%string eqn:E; simpl; [now rewrite String.eqb_refl | now rewrite E].
Qed.

Lemma own_set_own_neq props k k' v : k <> k' -> own (set_own props k v) k' = own props k'.
Proof.
  intros Hne. induction props as [|[k0 v0] props IH]; simpl.
  - apply String.eqb_neq in Hne. now rewrite Hne.
  - destruct (k0 =? k)%string eqn:E; simpl.
    + apply String.eqb_eq in E. subst k0. apply String.eqb_neq in Hne. now rewrite Hne.
    + destruct (k0 =? k')%string; auto.
Qed.

Lemma has_own_set_own_neq props k k' v :
  k <> k' -> has_own (set_own props k v) k' = has_own props k'.
Proof.
  intros Hne. induction props as [|[k0 v0] props IH]; simpl.
  - apply String.eqb_neq in Hne. now rewrite Hne.
  - destruct (k0 =? k)%string eqn:E; simpl.
    + apply String.eqb_eq in E. subst k0. apply String.eqb_neq in Hne. now rewrite Hne.
    + now rewrite IH.
Qed.

Lemma own_absent props k : has_own props k = false -> own props k = VUndefined.
Proof.
  induction props as [|[k0 v0] props IH]; simpl; [reflexivity|].
  destruct (k0 =? k)%string; simpl; [discriminate | assumption].
Qed.

(** ** Substrings *)

Lemma prefix_app (p s : string) : String.prefix p (p ++ s) = true.
Proof.
  induction p as [|c p IH]; simpl; [now destruct s|].
  destruct (ascii_dec c c); [assumption | congruence].
Qed.

Lemma includes_prefix (p s : string) : includes (p ++ s) p = true.
Proof.
  assert (H : forall t, includes t p = true <-> String.prefix p t = true
                        \/ match t with
                           | EmptyString => False
                           | String _ r => includes r p = true
                           end).
  { intros t. destruct t; simpl; rewrite orb_true_iff; intuition discriminate. }
  apply H. left. apply prefix_app.
Qed.

Lemma includes_app_r (a s p : string) : includes s p = true -> includes (a ++ s) p = true.
Proof.
  intros H. induction a as [|c a IH]; simpl; [assumption|].
  rewrite IH. apply orb_true_r.
Qed.

Lemma service_failure_names serviceName e :
  includes (service_failure serviceName e) serviceName = true.
Proof.
  unfold service_failure. apply includes_app_r. apply includes_prefix.
Qed.

(** ** Service failures are caught at the service boundary *)

Lemma extends_refl st : extends st st.
Proof. exists [], []. apply diag_nil. Qed.

Lemma extends_trans st1 st2 st3 : extends st1 st2 -> extends st2 st3 -> extends st1 st3.
Proof.
  intros (ws & es & ->) (ws' & es' & ->). simpl.
  exists (ws ++ ws')%list, (es ++ es')%list. now rewrite !app_assoc.
Qed.

Lemma extends_errors st st' e : extends st st' -> In e (errors st) -> In e (errors st').
Proof. intros (ws & es & ->) H. simpl. apply in_or_app. now left. Qed.

Lemma extends_push_error st e : extends st (Diag (warnings st) (errors st ++ [e])).
Proof. exists [], [e]. now rewrite app_nil_r. Qed.

Lemma truthy_set obj k v : truthy obj = true -> truthy (set obj k v) = true.
Proof. destruct obj; simpl; auto. Qed.

(** [if (c) { taskGroup.k = m() }] keeps [taskGroup] an object. *)
Lemma truthy_update (c : bool) (m : M value) k taskGroup st a st' :
  truthy taskGroup = true ->
  (if c then bind m (fun x => ret (set taskGroup k x)) else ret taskGroup) st = (inr a, st') ->
  truthy a = true.
Proof.
  intros Ht. destruct c; unfold bind, ret.
  - destruct (m st) as [[e|x] st1]; intros [= <- <-]. now apply truthy_set.
  - now intros [= <- <-].
Qed.

Lemma taskGroup_of_truthy options serviceName service compose taskGroup :
  outcome (taskGroup_of options serviceName service compose) = inr taskGroup ->
  truthy taskGroup = true.
Proof.
  unfold outcome, taskGroup_of. unfold bind at 1.
  destruct (getServiceReplicas service no_diag) as [[e|count] st1]; [discriminate|].
  unfold bind at 1.
  destruct (convertServiceToTask options serviceName service compose st1)
    as [[e|task] st2]; [discriminate|].
  cbv zeta. unfold bind at 1.
  match goal with
  | |- context [ (if ?c then bind ?m ?k else ret ?tg) st2 ] =>
      destruct ((if c then bind m k else ret tg) st2) as [[e|tg1] st3] eqn:E1;
      [discriminate | apply truthy_update in E1; [|reflexivity]]
  end.
  unfold bind at 1.
  destruct (get compose "volumes" st3) as [[e|composeVolumes] st4]; [discriminate|].
  unfold bind at 1.
  match goal with
  | |- context [ (if ?c then bind ?m ?k else ret ?tg) st4 ] =>
      destruct ((if c then bind m k else ret tg) st4) as [[e|tg2] st5] eqn:E2;
      [discriminate | apply truthy_update in E2; [|assumption]]
  end.
  unfold bind at 1.
  destruct (convertToNomadServices service serviceName st5) as [[e|nomadServices] st6];
    [discriminate|].
  set (tg3 := if (0 <? List.length nomadServices)%nat
              then set tg2 "service" (VArr nomadServices) else tg2).
  assert (Ht3 : truthy tg3 = true).
  { unfold tg3. destruct (0 <? List.length nomadServices)%nat; auto using truthy_set. }
  intros H.
  match type of H with
  | fst (?run) = _ => destruct run as [[e|a] st7] eqn:E3; simpl in H; [discriminate|]
  end.
  injection H as <-. eapply truthy_update; eassumption.
Qed.

Lemma convertServiceToTaskGroup_run options serviceName service compose st :
  exists st',
    extends st st' /\
    match outcome (taskGroup_of options serviceName service compose) with
    | inr taskGroup =>
        convertServiceToTaskGroup options serviceName service compose st
        = (inr taskGroup, st')
    | inl e =>
        convertServiceToTaskGroup options serviceName service compose st
        = (inr VNull, st') /\
        In (service_failure serviceName e) (errors st')
    end.
Proof.
  destruct (obl_run _ (obl_taskGroup_of options serviceName service compose) st)
    as (st1 & Hrun & Hext).
  unfold convertServiceToTaskGroup, try_catch. rewrite Hrun.
  destruct (outcome (taskGroup_of options serviceName service compose)) as [e|taskGroup].
  - eexists. split; [|split; [reflexivity|]].
    + eapply extends_trans; [eassumption | apply extends_push_error].
    + simpl. apply in_or_app. right. now left.
  - exists st1. now split.
Qed.

(** The loop over the services never throws: it returns the task groups of
    the services that converted and has logged every failure. *)
Lemma convertServices_run options compose entries :
  forall props st, exists st',
    convertServices options compose entries (VObj props) st
    = (inr (VObj (collected options compose entries props)), st') /\
    extends st st' /\
    forall serviceName service e,
      In (serviceName, service) entries ->
      outcome (taskGroup_of options serviceName service compose) = inl e ->
      In (service_failure serviceName e) (errors st').
Proof.
  unfold convertServices. generalize 0%nat.
  induction entries as [|[serviceName service] entries IH]; intros i props st.
  - exists st. simpl. repeat split; [apply extends_refl | contradiction].
  - destruct (convertServiceToTaskGroup_run options serviceName service compose st)
      as (st1 & Hext1 & Hrun).
    simpl fold_from. unfold bind at 1. unfold bind at 1.
    simpl collected.
    destruct (outcome (taskGroup_of options serviceName service compose))
      as [e|taskGroup] eqn:Eo.
    + destruct Hrun as [Hrun Hin]. rewrite Hrun. unfold ret at 1. simpl truthy. cbv iota.
      destruct (IH (S i) props st1) as (st' & Hloop & Hext & Herr).
      exists st'. split; [exact Hloop|]. split; [eapply extends_trans; eassumption|].
      intros n s e' [[= <- <-]|Hin'] Ho.
      * rewrite Eo in Ho. injection Ho as <-. eapply extends_errors; eassumption.
      * eapply Herr; eassumption.
    + rewrite Hrun. unfold ret at 1.
      rewrite (taskGroup_of_truthy _ _ _ _ _ Eo). simpl set.
      destruct (IH (S i) (set_own props serviceName taskGroup) st1)
        as (st' & Hloop & Hext & Herr).
      exists st'. split; [exact Hloop|]. split; [eapply extends_trans; eassumption|].
      intros n s e' [[= <- <-]|Hin'] Ho.
      * rewrite Eo in Ho. discriminate.
      * eapply Herr; eassumption.
Qed.

Lemma collected_other options compose entries :
  forall props name,
    ~ In name (map fst entries) ->
    own (collected options compose entries props) name = own props name /\
    has_own (collected options compose entries props) name = has_own props name.
Proof.
  induction entries as [|[n s] entries IH]; intros props name Hn; simpl; [now split|].
  simpl in Hn. apply Decidable.not_or in Hn as [Hne Hn].
  destruct (outcome (taskGroup_of options n s compose)) as [e|tg].
  - now apply IH.
  - destruct (IH (set_own props n tg) name Hn) as [-> ->].
    now rewrite own_set_own_neq, has_own_set_own_neq.
Qed.

(** A service whose conversion threw has no task group. *)
Lemma collected_failed options compose entries :
  forall props name service e,
    NoDup (map fst entries) ->
    In (name, service) entries ->
    outcome (taskGroup_of options name service compose) = inl e ->
    has_own props name = false ->
    has_own (collected options compose entries props) name = false.
Proof.
  induction entries as [|[n s] entries IH]; intros props name service e Hnd Hin Ho Hp;
    [contradiction|].
  simpl in Hnd. inversion Hnd as [|? ? Hn Hnd']; subst. simpl.
  destruct Hin as [[= -> ->]|Hin].
  - rewrite Ho. now rewrite (proj2 (collected_other options compose entries props name Hn)).
  - assert (Hne : n <> name).
    { intros ->. apply Hn. apply (in_map fst) in Hin. exact Hin. }
    destruct (outcome (taskGroup_of options n s compose)) as [e'|tg].
    + eapply IH; eassumption.
    + eapply IH; try eassumption. now rewrite has_own_set_own_neq.
Qed.

(** A service whose conversion returned has exactly that task group. *)
Lemma collected_converted options compose entries :
  forall props name service taskGroup,
    NoDup (map fst entries) ->
    In (name, service) entries ->
    outcome (taskGroup_of options name service compose) = inr taskGroup ->
    own (collected options compose entries props) name = taskGroup.
Proof.
  induction entries as [|[n s] entries IH]; intros props name service tg Hnd Hin Ho;
    [contradiction|].
  simpl in Hnd. inversion Hnd as [|? ? Hn Hnd']; subst. simpl.
  destruct Hin as [[= -> ->]|Hin].
  - rewrite Ho.
    rewrite (proj1 (collected_other options compose entries _ name Hn)).
    apply own_set_own_eq.
  - eapply IH; eassumption.
Qed.

(** ** [parseCompose] and the job-level steps *)

Lemma parseCompose_returns content st compose st1 :
  parseCompose content st = (inr compose, st1) ->
  loadYAML content = inr compose /\ is_nullish compose = false /\
  errors st1 = errors st.
Proof.
  unfold parseCompose, try_catch, bind at 1, call.
  destruct (loadYAML content) as [e|parsed]; [discriminate|]. unfold ret at 1.
  destruct (negb (truthy parsed) || negb (is_object parsed)) eqn:Eobj;
    [discriminate|].
  apply orb_false_iff in Eobj as [Et Eo]. apply negb_false_iff in Eo.
  assert (Hnn : is_nullish parsed = false) by (destruct parsed; auto; discriminate).
  unfold bind at 1.
  destruct (truthy (prop parsed "version")).
  - unfold bind at 1.
    destruct (isSupportedVersion (prop parsed "version") st) as [[e|supported] st2] eqn:Ev.
    + discriminate.
    + assert (Hst : st2 = st).
      { revert Ev. unfold isSupportedVersion.
        destruct (prop parsed "version"); unfold string_method, throw, bind, ret;
          congruence. }
      subst st2. destruct supported; simpl; unfold ret; intros [= <- <-]; auto.
  - unfold ret. intros [= <- <-]. auto.
Qed.

Lemma parseCompose_throws content st e st1 :
  parseCompose content st = (inl e, st1) ->
  exists e0, e = Error ("Failed to parse YAML: " ++ message_of e0) /\
             (forall e', loadYAML content = inl e' -> e0 = e').
Proof.
  unfold parseCompose, try_catch.
  match goal with
  | |- context [ match ?body st with _ => _ end ] =>
      destruct (body st) as [[e0|a] st2] eqn:Eb
  end.
  - unfold throw. intros [= <- <-]. exists e0. split; [reflexivity|].
    intros e' He'. revert Eb. unfold bind at 1, call. rewrite He'. unfold throw. congruence.
  - discriminate.
Qed.

(** [parseCompose] pushes warnings only. *)
Lemma parseCompose_errors content st r st1 :
  parseCompose content st = (r, st1) -> errors st1 = errors st.
Proof.
  unfold parseCompose, try_catch, bind at 1, call.
  destruct (loadYAML content) as [e|parsed]; [unfold throw; now intros [= <- <-]|].
  unfold ret at 1.
  destruct (negb (truthy parsed) || negb (is_object parsed));
    [unfold throw; now intros [= <- <-]|].
  unfold bind at 1.
  destruct (truthy (prop parsed "version")); [|unfold ret; now intros [= <- <-]].
  unfold bind at 1.
  destruct (isSupportedVersion (prop parsed "version") st) as [[e|supported] st2] eqn:Ev.
  - assert (Hst : st2 = st).
    { revert Ev. unfold isSupportedVersion.
      destruct (prop parsed "version"); unfold string_method, throw, bind, ret; congruence. }
    subst st2. unfold throw. now intros [= <- <-].
  - assert (Hst : st2 = st).
    { revert Ev. unfold isSupportedVersion.
      destruct (prop parsed "version"); unfold string_method, throw, bind, ret; congruence. }
    subst st2. destruct supported; simpl; unfold ret; now intros [= <- <-].
Qed.

Lemma obl_constraint_text c : oblivious (constraint_text c).
Proof. unfold constraint_text. obl. Qed.

#[local] Hint Resolve obl_constraint_text : obl.

Lemma obl_convertGlobalConstraints compose jobSpec :
  oblivious (convertGlobalConstraints compose jobSpec).
Proof. unfold convertGlobalConstraints. obl. Qed.

(** The job-level constraints leave the task groups as they are. *)
Lemma convertGlobalConstraints_group compose props st jobSpec st' :
  convertGlobalConstraints compose (VObj props) st = (inr jobSpec, st') ->
  prop jobSpec "group" = own props "group".
Proof.
  unfold convertGlobalConstraints.
  destruct (truthy _); [|unfold ret; now intros [= <- <-]].
  destruct (get_opt _ "constraints"); try (unfold ret; now intros [= <- <-]).
  unfold bind at 1. destruct (mapM constraint_text items st) as [[e|texts] st1];
    [discriminate|].
  unfold bind at 1. destruct (convertConstraints _ st1) as [[e|converted] st2];
    [discriminate|].
  unfold ret. intros [= <- <-]. simpl. now apply own_set_own_neq.
Qed.

Lemma own_entries_falsy v : truthy v = false -> own_entries v = [].
Proof.
  destruct v as [| |b|n|t|items|props|name arity]; simpl; try reflexivity; try discriminate.
  destruct t; [reflexivity | discriminate].
Qed.

Lemma task_group_empty_job name : task_group empty_job name = VUndefined.
Proof. reflexivity. Qed.

(** [convertToNomadJob] on a document: every service failure is logged, and
    if the job is returned its groups are the collected task groups. *)
Lemma convertToNomadJob_run options compose st :
  is_nullish compose = false ->
  exists r st',
    convertToNomadJob options compose st = (r, st') /\
    extends st st' /\
    (forall name service e,
       In (name, service) (own_entries (prop compose "services")) ->
       outcome (taskGroup_of options name service compose) = inl e ->
       In (service_failure name e) (errors st')) /\
    match r with
    | inl _ => True
    | inr nomadJob =>
        forall name,
          task_group nomadJob name
          = own (collected options compose (own_entries (prop compose "services")) []) name
    end.
Proof.
  intros Hnn. unfold convertToNomadJob. unfold bind at 1, get. rewrite Hnn. unfold ret at 1.
  set (entries := own_entries (prop compose "services")).
  assert (Hloop : exists st1,
             (if truthy (prop compose "services")
              then bind (Object_entries (prop compose "services"))
                     (fun entries => convertServices options compose entries (VObj []))
              else ret (VObj [])) st
             = (inr (VObj (collected options compose entries [])), st1) /\
             extends st st1 /\
             forall name service e,
               In (name, service) entries ->
               outcome (taskGroup_of options name service compose) = inl e ->
               In (service_failure name e) (errors st1)).
  { destruct (truthy (prop compose "services")) eqn:Et.
    - unfold bind, Object_entries.
      assert (Hs : is_nullish (prop compose "services") = false)
        by (destruct (prop compose "services"); auto; discriminate).
      rewrite Hs. unfold ret at 1. apply convertServices_run.
    - exists st. unfold entries. rewrite (own_entries_falsy _ Et). simpl.
      repeat split; [apply extends_refl | contradiction]. }
  destruct Hloop as (st1 & Hloop & Hext1 & Herr1).
  unfold bind at 1. rewrite Hloop.
  unfold bind at 1.
  match goal with
  | |- context [ convertGlobalConstraints compose ?js st1 ] =>
      destruct (obl_run _ (obl_convertGlobalConstraints compose js) st1)
        as (st2 & Hrun & Hext2);
      destruct (convertGlobalConstraints compose js st1) as [[e|jobSpec] st2'] eqn:Eg
  end.
  - injection Hrun as _ <-. eexists _, _. split; [reflexivity|].
    split; [eapply extends_trans; eassumption|].
    split; [|exact I]. intros. eapply extends_errors; [eassumption|]. eapply Herr1; eassumption.
  - injection Hrun as _ <-. eexists _, _. split; [reflexivity|].
    split; [eapply extends_trans; eassumption|].
    split.
    + intros. eapply extends_errors; [eassumption|]. eapply Herr1; eassumption.
    + intros name. apply convertGlobalConstraints_group in Eg.
      unfold task_group. cbn [prop own String.eqb Ascii.eqb Bool.eqb]. rewrite Eg. reflexivity.
Qed.

(** [convert] is its [try] block, or the placeholder built from what was thrown. *)
Lemma convert_run options content st :
  convert options content st
  = match conversion options content no_diag with
    | (inr result, st1) => (inr result, st1)
    | (inl e, st1) =>
        (inr {| Conversion.hcl := "# ERROR: " ++ message_of e;
                Conversion.nomadJob := empty_job;
                Conversion.warnings := warnings st1;
                Conversion.errors := errors st1 ++ [message_of e] |},
         Diag (warnings st1) (errors st1 ++ [message_of e]))
    end.
Proof.
  unfold convert, bind, reset, try_catch.
  destruct (conversion options content no_diag) as [[e|result] st1]; reflexivity.
Qed.

Lemma obl_convertServiceToTaskGroup options serviceName service compose :
  oblivious (convertServiceToTaskGroup options serviceName service compose).
Proof.
  unfold convertServiceToTaskGroup. apply obl_try_catch;
    [apply obl_taskGroup_of | intros; obl].
Qed.

#[local] Hint Resolve obl_convertServiceToTaskGroup obl_convertGlobalConstraints : obl.

Lemma obl_convertToNomadJob options compose : oblivious (convertToNomadJob options compose).
Proof. unfold convertToNomadJob, convertServices. obl. Qed.

(** The validation block lets a document through when validation is skipped
    or reports no error. *)
Lemma validation_gate_passes options compose st :
  errors st = [] ->
  Required.skipValidation options = true \/
  Validation.errors (validateComposeFile compose) = [] ->
  exists st', validation_gate options compose st = (inr tt, st') /\ extends st st'.
Proof.
  intros Hst Hpass. unfold validation_gate.
  destruct (Required.skipValidation options) eqn:Eskip; simpl.
  - exists st. split; [reflexivity | apply extends_refl].
  - destruct Hpass as [|Hv]; [discriminate|].
    unfold bind, push_all, current. rewrite Hv, Hst. simpl.
    eexists. split; [reflexivity|].
    exists (Validation.warnings (validateComposeFile compose)), []. now rewrite Hst.
Qed.

(** The validation block stops a document with validation errors: what is
    thrown is built from them, and they are all in [this.errors]. *)
Lemma validation_gate_fails options compose st :
  errors st = [] ->
  Required.skipValidation options = false ->
  Validation.errors (validateComposeFile compose) <> [] ->
  exists e st',
    validation_gate options compose st = (inl e, st') /\
    errors st' = Validation.errors (validateComposeFile compose).
Proof.
  intros Hst Eskip Hv. unfold validation_gate. rewrite Eskip. simpl.
  unfold bind, push_all, current. rewrite Hst. simpl.
  destruct (Validation.errors (validateComposeFile compose)) as [|d ds]; [congruence|].
  simpl. eexists _, _. split; reflexivity.
Qed.

(** C1 (amended). For every Compose document that reaches translation
    (it parsed, and validation is skipped or reports no error), a service
    whose conversion throws is caught at its own boundary: the entry
    "Failed to convert service '<name>': ..." is in the result's errors and
    the job has no task group of that name.  The loop goes on: every service
    whose conversion returns has its task group in the result's job, unless
    a top-level step after the loop throws (the job-level constraints of
    [x.nomad.constraints], or the HCL generator), in which case the result
    carries the empty job. *)
Theorem C1_service_failures_are_isolated :
  forall (options : Required.Options) (content : string) (compose : value)
         (st0 st1 : diag),
    parseCompose content no_diag = (inr compose, st1) ->
    Required.skipValidation options = true \/
    Validation.errors (validateComposeFile compose) = [] ->
    NoDup (map fst (own_entries (prop compose "services"))) ->
    exists result st',
      convert options content st0 = (inr result, st') /\
      forall name service,
        In (name, service) (own_entries (prop compose "services")) ->
        match outcome (taskGroup_of options name service compose) with
        | inl e =>
            In (service_failure name e) (Conversion.errors result) /\
            includes (service_failure name e) name = true /\
            task_group (Conversion.nomadJob result) name = VUndefined
        | inr taskGroup =>
            match outcome (convertToNomadJob options compose) with
            | inr nomadJob =>
                match generateHCL nomadJob (Required.includeComments options) with
                | inr _ => task_group (Conversion.nomadJob result) name = taskGroup
                | inl _ => Conversion.nomadJob result = empty_job
                end
            | inl _ => Conversion.nomadJob result = empty_job
            end
        end.
Proof.
  intros options content compose st0 st1 Hparse Hpass Hnd.
  destruct (parseCompose_returns _ _ _ _ Hparse) as (_ & Hnn & Herrs).
  destruct (validation_gate_passes options compose st1 Herrs Hpass) as (st2 & Hgate & _).
  destruct (convertToNomadJob_run options compose st2 Hnn)
    as (r & st3 & Hjob & _ & Hlogged & Hgroups).
  destruct (obl_run _ (obl_convertToNomadJob options compose) st2) as (st3' & Hjob' & _).
  rewrite Hjob in Hjob'. injection Hjob' as Hr _.
  rewrite convert_run. unfold conversion.
  unfold bind at 1. rewrite Hparse.
  unfold bind at 1. rewrite Hgate.
  unfold bind at 1. rewrite Hjob. rewrite <- Hr.
  destruct r as [e|nomadJob].
  - (* the job-level constraints threw *)
    eexists _, _. split; [reflexivity|]. intros name service Hin. simpl.
    destruct (outcome (taskGroup_of options name service compose)) as [e'|tg] eqn:Eo.
    + split; [|split; [apply service_failure_names | reflexivity]].
      apply in_or_app. left. eapply Hlogged; eassumption.
    + reflexivity.
  - unfold bind at 1, call.
    destruct (generateHCL nomadJob (Required.includeComments options)) as [e|text].
    + (* the generator threw *)
      unfold throw. eexists _, _. split; [reflexivity|]. intros name service Hin. simpl.
      destruct (outcome (taskGroup_of options name service compose)) as [e'|tg] eqn:Eo.
      * split; [|split; [apply service_failure_names | reflexivity]].
        apply in_or_app. left. eapply Hlogged; eassumption.
      * reflexivity.
    + unfold ret at 1. unfold bind, current, ret.
      eexists _, _. split; [reflexivity|]. intros name service Hin. simpl.
      destruct (outcome (taskGroup_of options name service compose)) as [e'|tg] eqn:Eo.
      * split; [eapply Hlogged; eassumption|].
        split; [apply service_failure_names|].
        rewrite Hgroups. apply own_absent.
        eapply collected_failed; try eassumption. reflexivity.
      * rewrite Hgroups. eapply collected_converted; eassumption.
Qed.

(** ** The validator *)

Lemma obl_validateResources serviceName resources :
  oblivious (validateResources serviceName resources).
Proof. unfold validateResources. obl. Qed.

Lemma obl_names_of v : oblivious (names_of v).
Proof. unfold names_of. obl. Qed.

#[local] Hint Resolve obl_validateResources obl_names_of : obl.

Lemma obl_validateService compose serviceName service :
  oblivious (validateService compose serviceName service).
Proof. unfold validateService. obl. Qed.

#[local] Hint Resolve obl_validateService : obl.

Lemma obl_validateServices compose : oblivious (validateServices compose).
Proof. unfold validateServices. obl. Qed.

Lemma obl_validateNetworks compose : oblivious (validateNetworks compose).
Proof. unfold validateNetworks. obl. Qed.

Lemma obl_validateVolumes compose : oblivious (validateVolumes compose).
Proof. unfold validateVolumes. obl. Qed.

Lemma obl_validateConfigs compose : oblivious (validateConfigs compose).
Proof. unfold validateConfigs. obl. Qed.

Lemma obl_validateSecrets compose : oblivious (validateSecrets compose).
Proof. unfold validateSecrets. obl. Qed.

#[local] Hint Resolve obl_validateServices obl_validateNetworks obl_validateVolumes
  obl_validateConfigs obl_validateSecrets : obl.

(** What an oblivious method is run from is still there afterwards. *)
Lemma obl_keeps {A} (m : M A) st r st' entry :
  oblivious m -> m st = (r, st') -> In entry (errors st) -> In entry (errors st').
Proof.
  intros Hm Hrun Hin. destruct (obl_run m Hm st) as (st1 & Hrun1 & Hext).
  rewrite Hrun in Hrun1. injection Hrun1 as _ ->. eapply extends_errors; eassumption.
Qed.

Lemma logs_then {A B} (m : M A) (k : A -> M B) entry :
  logs m entry -> (forall a, oblivious (k a)) -> logs (bind m k) entry.
Proof.
  intros Hm Hk st r st'. unfold bind.
  destruct (m st) as [[e|a] st1] eqn:Em.
  - intros [= <- <-]. eapply Hm; eassumption.
  - intros Hrun. eapply obl_keeps; [apply Hk | eassumption | eapply Hm; eassumption].
Qed.

Lemma logs_get {B} (v : value) (k : string) (K : value -> M B) entry :
  is_nullish v = false -> logs (K (prop v k)) entry -> logs (bind (get v k) K) entry.
Proof.
  intros Hnn HK st r st'. unfold bind, get. rewrite Hnn. unfold ret. apply HK.
Qed.

Lemma logs_push_error entry : logs (push_error entry) entry.
Proof.
  intros st r st'. unfold push_error. intros [= <- <-]. simpl.
  apply in_or_app. right. now left.
Qed.

(** A service without [image] and [build] is reported, whatever else the
    validator meets in it. *)
Lemma validateService_missing_image compose serviceName props :
  truthy (own props "image") = false ->
  truthy (own props "build") = false ->
  logs (validateService compose serviceName (VObj props)) (missing_image serviceName).
Proof.
  intros Himage Hbuild. unfold validateService.
  apply logs_get; [reflexivity|]. simpl prop at 1. rewrite Himage.
  apply logs_then; [|intros; obl].
  apply logs_get; [reflexivity|]. simpl prop at 1. rewrite Hbuild.
  apply logs_push_error.
Qed.

Lemma forEach_push_error details :
  forall i st, forEach_from i (fun detail _ => push_error detail) details st
               = (inr tt, Diag (warnings st) (errors st ++ details)).
Proof.
  induction details as [|d details IH]; intros i st; simpl.
  - unfold ret. destruct st; simpl. now rewrite app_nil_r.
  - unfold bind, push_error. rewrite IH. simpl. now rewrite <- app_assoc.
Qed.

(** The report of a first service without [image] and [build] reaches the
    result of [validateComposeFile]. *)
Lemma validateComposeFile_missing_image compose serviceName props others :
  is_nullish compose = false ->
  prop compose "services" = VObj ((serviceName, VObj props) :: others) ->
  truthy (own props "image") = false ->
  truthy (own props "build") = false ->
  In (missing_image serviceName) (Validation.errors (validateComposeFile compose)).
Proof.
  intros Hnn Hservices Himage Hbuild.
  assert (Hlogs : logs (validation_passes compose) (missing_image serviceName)).
  { unfold validation_passes. intros st r st'. unfold bind at 1, forEach.
    rewrite forEach_push_error. revert r st'.
    apply logs_then; [|intros; obl].
    unfold validateServices.
    apply logs_get; [assumption|]. rewrite Hservices. simpl truthy. simpl negb. cbv iota.
    intros st1 r st'. unfold bind at 1, Object_entries. simpl is_nullish. cbv iota.
    unfold ret at 1. simpl own_entries. unfold forEach. simpl forEach_from. revert r st'.
    apply logs_then; [|intros; apply obl_forEach_from; intros; obl].
    now apply validateService_missing_image. }
  unfold validateComposeFile, try_catch.
  destruct (validation_passes compose no_diag) as [[e|[]] st1] eqn:Erun.
  - simpl. apply in_or_app. left. eapply Hlogs; eassumption.
  - simpl. eapply Hlogs; eassumption.
Qed.

Lemma missing_image_names serviceName :
  includes (missing_image serviceName) serviceName = true.
Proof. unfold missing_image. apply includes_app_r. apply includes_prefix. Qed.

(** ** [convert] always returns *)

(** C2. [convert] never throws: for every input string and options it returns
    a result.  Whenever its [try] block throws, the returned [hcl] is the
    placeholder "# ERROR: " followed by the message, the returned job is
    [{job: {}}] and the message is the last of the errors.  So it is when the
    YAML does not parse (the message carries the parser's) and when
    validation, not skipped, reports errors (every validation error is in the
    result's errors); and for a first service [web] without [image] and
    [build] the errors have an entry that contains "web". *)
Theorem C2_convert_never_throws :
  forall (options : Required.Options) (content : string) (st : diag),
    exists result st',
      convert options content st = (inr result, st') /\
      (forall e st1,
         conversion options content no_diag = (inl e, st1) ->
         Conversion.hcl result = "# ERROR: " ++ message_of e /\
         Conversion.nomadJob result = empty_job /\
         Conversion.errors result = (errors st1 ++ [message_of e])%list) /\
      (forall e,
         loadYAML content = inl e ->
         String.prefix "# ERROR:" (Conversion.hcl result) = true /\
         Conversion.nomadJob result = empty_job /\
         Conversion.errors result = ["Failed to parse YAML: " ++ message_of e]) /\
      (forall compose st1,
         parseCompose content no_diag = (inr compose, st1) ->
         Required.skipValidation options = false ->
         Validation.errors (validateComposeFile compose) <> [] ->
         String.prefix "# ERROR:" (Conversion.hcl result) = true /\
         Conversion.nomadJob result = empty_job /\
         Conversion.errors result <> [] /\
         forall defect,
           In defect (Validation.errors (validateComposeFile compose)) ->
           In defect (Conversion.errors result)) /\
      (forall compose st1 props others,
         parseCompose content no_diag = (inr compose, st1) ->
         Required.skipValidation options = false ->
         prop compose "services" = VObj (("web", VObj props) :: others) ->
         truthy (own props "image") = false ->
         truthy (own props "build") = false ->
         exists defect,
           In defect (Conversion.errors result) /\ includes defect "web" = true).
Proof.
  intros options content st.
  assert (Hfail : forall compose st1,
             parseCompose content no_diag = (inr compose, st1) ->
             Required.skipValidation options = false ->
             Validation.errors (validateComposeFile compose) <> [] ->
             exists e, conversion options content no_diag
                       = (inl e, Diag (warnings st1
                                         ++ Validation.warnings (validateComposeFile compose))
                                      (Validation.errors (validateComposeFile compose)))).
  { intros compose st1 Hparse Hskip Hv.
    pose proof (parseCompose_errors _ _ _ _ Hparse) as Herrs. simpl in Herrs.
    unfold conversion. unfold bind at 1. rewrite Hparse. unfold bind at 1.
    unfold validation_gate. rewrite Hskip. simpl when.
    unfold bind at 1, push_all. unfold bind at 1, current. rewrite Herrs. simpl.
    destruct (Validation.errors (validateComposeFile compose)) as [|d ds]; [congruence|].
    simpl. eexists. reflexivity. }
  rewrite convert_run.
  destruct (conversion options content no_diag) as [[e|result] st1] eqn:Erun.
  - eexists _, _. split; [reflexivity|]. simpl.
    split; [|split; [|split]].
    + intros e' st1' [= <- <-]. repeat split.
    + intros e' Hyaml. split; [reflexivity|]. split; [reflexivity|].
      revert Erun. unfold conversion. unfold bind at 1.
      destruct (parseCompose content no_diag) as [[e0|compose] st2] eqn:Eparse.
      * intros [= <- <-].
        pose proof (parseCompose_errors _ _ _ _ Eparse) as Herrs. simpl in Herrs.
        destruct (parseCompose_throws _ _ _ _ Eparse) as (e1 & -> & He1).
        rewrite Herrs, (He1 e' Hyaml). reflexivity.
      * apply parseCompose_returns in Eparse as (Hy & _). congruence.
    + intros compose st1' Hparse Hskip Hv.
      destruct (Hfail compose st1' Hparse Hskip Hv) as (e' & He').
      injection He' as -> ->. simpl.
      split; [reflexivity|]. split; [reflexivity|].
      split; [now destruct (Validation.errors (validateComposeFile compose))|].
      intros defect Hin. apply in_or_app. now left.
    + intros compose st1' props others Hparse Hskip Hservices Himage Hbuild.
      destruct (parseCompose_returns _ _ _ _ Hparse) as (_ & Hnn & _).
      pose proof (validateComposeFile_missing_image compose "web" props others
                    Hnn Hservices Himage Hbuild) as Hin.
      assert (Hv : Validation.errors (validateComposeFile compose) <> [])
        by (intros Heq; rewrite Heq in Hin; contradiction).
      destruct (Hfail compose st1' Hparse Hskip Hv) as (e' & He').
      injection He' as -> ->. simpl.
      exists (missing_image "web"). split; [apply in_or_app; now left|].
      apply missing_image_names.
  - eexists _, _. split; [reflexivity|].
    split; [|split; [|split]].
    + intros e' st1' [=].
    + intros e' Hyaml. exfalso. revert Erun. unfold conversion. unfold bind at 1.
      destruct (parseCompose content no_diag) as [[e0|compose] st2] eqn:Eparse;
        [discriminate|].
      apply parseCompose_returns in Eparse as (Hy & _). congruence.
    + intros compose st1' Hparse Hskip Hv.
      destruct (Hfail compose st1' Hparse Hskip Hv) as (e' & He'). discriminate.
    + intros compose st1' props others Hparse Hskip Hservices Himage Hbuild.
      destruct (parseCompose_returns _ _ _ _ Hparse) as (_ & Hnn & _).
      pose proof (validateComposeFile_missing_image compose "web" props others
                    Hnn Hservices Himage Hbuild) as Hin.
      assert (Hv : Validation.errors (validateComposeFile compose) <> [])
        by (intros Heq; rewrite Heq in Hin; contradiction).
      destruct (Hfail compose st1' Hparse Hskip Hv) as (e' & He'). discriminate.
Qed.

(** ** The synchronous wrapper *)

Lemma convert_fulfils options content st :
  exists result, async (convert options content) st = Fulfilled result.
Proof.
  unfold async. rewrite convert_run.
  destruct (conversion options content no_diag) as [[e|result] st1]; simpl; eauto.
Qed.

(** C9. For every input string and options, the result that
    [convertComposeSync] unwraps is unset when the function returns: the
    continuation registered with [then] is only queued, so the function
    returns [undefined]; the continuation runs afterwards, from the job
    queue, and only then assigns the conversion result. *)
Theorem C9_convertComposeSync_returns_undefined :
  forall (content : string) (options : ConversionOptions),
    returned (convertComposeSync content options) = None /\
    exists result,
      convertCompose content options = Fulfilled result /\
      List.length (queued (convertComposeSync content options)) = 1%nat /\
      run_jobs (queued (convertComposeSync content options))
               (returned (convertComposeSync content options)) = Some result.
Proof.
  intros content options. split; [reflexivity|].
  unfold convertComposeSync, convertCompose. simpl returned. simpl queued.
  destruct (convert_fulfils (Compose2HCLConverter options) content no_diag)
    as (result & ->).
  exists result. repeat split.
Qed.

(** ** Restart policy *)

(** The first half of [convertRestartPolicy]: the [switch] on [service.restart]. *)
Lemma restart_switch (restart : value) :
  (if truthy restart then
     if is_str restart "always"
     then set (restart_policy (VNum (num 3)) (VStr "15s") (VStr "5m") (VStr "delay"))
              "attempts" (VNum (num 0))
     else if is_str restart "on-failure"
     then set (restart_policy (VNum (num 3)) (VStr "15s") (VStr "5m") (VStr "delay"))
              "mode" (VStr "fail")
     else if is_str restart "no" || is_str restart "unless-stopped"
     then set (set (restart_policy (VNum (num 3)) (VStr "15s") (VStr "5m") (VStr "delay"))
                   "attempts" (VNum (num 0))) "mode" (VStr "fail")
     else restart_policy (VNum (num 3)) (VStr "15s") (VStr "5m") (VStr "delay")
   else restart_policy (VNum (num 3)) (VStr "15s") (VStr "5m") (VStr "delay"))
  = restart_policy (fst (restart_mapping restart)) (VStr "15s") (VStr "5m")
                   (snd (restart_mapping restart)).
Proof.
  unfold restart_mapping.
  destruct (truthy restart) eqn:Et.
  - destruct (is_str restart "always"), (is_str restart "on-failure"),
      (is_str restart "no"), (is_str restart "unless-stopped"); reflexivity.
  - assert (Hs : forall t, t <> EmptyString -> is_str restart t = false).
    { intros t Ht. destruct restart as [| |b|n|t'|items|props|name arity]; simpl in *; auto.
      destruct t'; [destruct t; [congruence | reflexivity] | discriminate]. }
    rewrite !Hs by discriminate. reflexivity.
Qed.

(** The second half: the overrides of [deploy.restart_policy]. *)
Lemma restart_overrides (policy attempts mode : value) :
  set_if_truthy
    (set_if_truthy
       (match prop policy "max_attempts" with
        | VUndefined =>
            if is_str (prop policy "condition") "none"
            then set (set (restart_policy attempts (VStr "15s") (VStr "5m") mode)
                          "attempts" (VNum (num 0))) "mode" (VStr "fail")
            else if is_str (prop policy "condition") "on-failure"
            then set (restart_policy attempts (VStr "15s") (VStr "5m") mode)
                     "mode" (VStr "fail")
            else restart_policy attempts (VStr "15s") (VStr "5m") mode
        | max_attempts =>
            set (if is_str (prop policy "condition") "none"
                 then set (set (restart_policy attempts (VStr "15s") (VStr "5m") mode)
                               "attempts" (VNum (num 0))) "mode" (VStr "fail")
                 else if is_str (prop policy "condition") "on-failure"
                 then set (restart_policy attempts (VStr "15s") (VStr "5m") mode)
                          "mode" (VStr "fail")
                 else restart_policy attempts (VStr "15s") (VStr "5m") mode)
                "attempts" max_attempts
        end)
       "delay" (prop policy "delay"))
    "interval" (prop policy "window")
  = restart_policy
      (match prop policy "max_attempts" with
       | VUndefined =>
           if is_str (prop policy "condition") "none" then VNum (num 0) else attempts
       | max_attempts => max_attempts
       end)
      (if truthy (prop policy "delay") then prop policy "delay" else VStr "15s")
      (if truthy (prop policy "window") then prop policy "window" else VStr "5m")
      (if is_str (prop policy "condition") "none"
          || is_str (prop policy "condition") "on-failure"
       then VStr "fail" else mode).
Proof.
  unfold set_if_truthy.
  destruct (is_str (prop policy "condition") "none"),
    (is_str (prop policy "condition") "on-failure");
    destruct (prop policy "max_attempts");
    destruct (truthy (prop policy "delay")), (truthy (prop policy "window"));
    reflexivity.
Qed.

Lemma convertRestartPolicy_specified service st :
  is_nullish service = false ->
  convertRestartPolicy service st = (inr (specified_restart service), st).
Proof.
  intros Hnn. unfold convertRestartPolicy, specified_restart.
  unfold bind, get. rewrite Hnn. unfold ret at 1.
  fold (restart_policy (VNum (num 3)) (VStr "15s") (VStr "5m") (VStr "delay")).
  rewrite restart_switch.
  destruct (restart_mapping (prop service "restart")) as [attempts mode]. simpl fst. simpl snd.
  destruct (truthy (get_opt (prop service "deploy") "restart_policy")); [|reflexivity].
  unfold ret. do 2 f_equal.
  rewrite <- restart_overrides. reflexivity.
Qed.

(** C5. The converted restart policy is the one the specification describes:
    it starts from [{attempts: 3, delay: "15s", interval: "5m", mode: "delay"}];
    without a [deploy.restart_policy], [restart: always] gives attempts 0 with
    the mode unchanged, [on-failure] gives mode "fail" with attempts 3, [no]
    and [unless-stopped] give attempts 0 and mode "fail"; the fields
    [condition], [max_attempts], [delay] and [window] of
    [deploy.restart_policy] then override when present, and the condition
    "none" forces attempts 0 and mode "fail". *)
Theorem C5_restart_policy :
  forall (service : value) (st : diag),
    is_nullish service = false ->
    let policy := get_opt (prop service "deploy") "restart_policy" in
    let converted_to r := convertRestartPolicy service st = (inr r, st) in
    converted_to (specified_restart service) /\
    (truthy policy = false ->
     (truthy (prop service "restart") = false ->
      converted_to (restart_policy (VNum (num 3)) (VStr "15s") (VStr "5m") (VStr "delay"))) /\
     (prop service "restart" = VStr "always" ->
      converted_to (restart_policy (VNum (num 0)) (VStr "15s") (VStr "5m") (VStr "delay"))) /\
     (prop service "restart" = VStr "on-failure" ->
      converted_to (restart_policy (VNum (num 3)) (VStr "15s") (VStr "5m") (VStr "fail"))) /\
     (prop service "restart" = VStr "no" ->
      converted_to (restart_policy (VNum (num 0)) (VStr "15s") (VStr "5m") (VStr "fail"))) /\
     (prop service "restart" = VStr "unless-stopped" ->
      converted_to (restart_policy (VNum (num 0)) (VStr "15s") (VStr "5m") (VStr "fail")))) /\
    (truthy policy = true ->
     forall converted, converted_to converted ->
       (prop policy "max_attempts" <> VUndefined ->
        prop converted "attempts" = prop policy "max_attempts") /\
       (truthy (prop policy "delay") = true ->
        prop converted "delay" = prop policy "delay") /\
       (truthy (prop policy "window") = true ->
        prop converted "interval" = prop policy "window") /\
       (prop policy "condition" = VStr "none" ->
        prop converted "mode" = VStr "fail" /\
        (prop policy "max_attempts" = VUndefined ->
         prop converted "attempts" = VNum (num 0))) /\
       (prop policy "condition" = VStr "on-failure" ->
        prop converted "mode" = VStr "fail")).
Proof.
  intros service st Hnn policy converted_to. unfold converted_to.
  rewrite (convertRestartPolicy_specified service st Hnn).
  split; [reflexivity|]. split.
  - intros Hp. unfold specified_restart, restart_mapping. fold policy. rewrite Hp.
    split; [|split; [|split; [|split]]]; intros Hr.
    + assert (Hs : forall t, t <> EmptyString -> is_str (prop service "restart") t = false).
      { intros t Ht. destruct (prop service "restart") as [| |b|n|t'|items|props|name arity];
          simpl in *; auto. destruct t'; [destruct t; [congruence | reflexivity] | discriminate]. }
      rewrite !Hs by discriminate. reflexivity.
    + rewrite Hr. reflexivity.
    + rewrite Hr. reflexivity.
    + rewrite Hr. reflexivity.
    + rewrite Hr. reflexivity.
  - intros Hp converted [= <-]. unfold specified_restart. fold policy. rewrite Hp.
    destruct (restart_mapping (prop service "restart")) as [attempts mode].
    cbv zeta. unfold restart_policy.
    split; [|split; [|split; [|split]]].
    + intros Hm. simpl. destruct (prop policy "max_attempts"); congruence.
    + intros Hd. simpl. now rewrite Hd.
    + intros Hw. simpl. now rewrite Hw.
    + intros Hc. rewrite Hc. simpl. split; [reflexivity|]. now intros ->.
    + intros Hc. rewrite Hc. simpl. reflexivity.
Qed.

(** ** Resources *)























(** ** Health checks *)





(** ** Environment *)

Lemma split_cons sep s : exists p ps, split sep s = p :: ps.
Proof.
  induction s as [|c s (p & ps & IH)]; simpl; eauto.
  destruct (Ascii.eqb c sep); eauto. rewrite IH. eauto.
Qed.

Lemma join_cons sep p q ps :
  join sep (p :: q :: ps) = (p ++ sep ++ join sep (q :: ps))%string.
Proof. reflexivity. Qed.

Lemma join_split (s : string) : join "=" (split "=" s) = s.
Proof.
  induction s as [|c s IH]; [reflexivity|]. simpl split.
  destruct (split_cons "=" s) as (p & ps & Hs). rewrite Hs in *.
  destruct (Ascii.eqb c "=") eqn:Ec.
  - apply Ascii.eqb_eq in Ec. subst c. rewrite join_cons, IH. reflexivity.
  - destruct ps as [|q ps].
    + simpl in *. now rewrite IH.
    + rewrite join_cons. rewrite join_cons in IH. rewrite <- IH. reflexivity.
Qed.

(** [split('=')] cuts an entry at its first '=': the head is the key, and
    joining the rest gives the value back, later '=' included. *)
Lemma split_key_value (entry : string) :
  exists parts,
    split "=" entry = fst (key_value entry) :: parts /\
    join "=" parts = snd (key_value entry).
Proof.
  induction entry as [|c entry (parts & IH & IHj)]; simpl.
  - exists []. now split.
  - destruct (Ascii.eqb c "=") eqn:Ec.
    + exists (split "=" entry). split; [reflexivity | apply join_split].
    + rewrite IH. destruct (key_value entry) as [k v]. simpl in *.
      exists parts. now split.
Qed.

Lemma key_value_first_equals (key value : string) :
  no_equals key = true -> key_value (key ++ "=" ++ value) = (key, value).
Proof.
  change ("=" ++ value)%string with (String "=" value).
  unfold no_equals. induction key as [|c key IH]; simpl; intros H; [reflexivity|].
  apply andb_true_iff in H as [Hc Hk]. apply negb_true_iff in Hc.
  now rewrite Hc, IH.
Qed.

Lemma add_env_entry_run props entry st :
  add_env_entry (VObj props) (VStr entry) st
  = (inr (VObj (let '(k, v) := key_value entry in
                if (k =? "")%string then props else set_own props k (VStr v))), st).
Proof.
  unfold add_env_entry, destructured, bind, ret.
  destruct (split_key_value entry) as (parts & -> & Hj).
  destruct (key_value entry) as [k v]. simpl in *. rewrite Hj.
  now destruct (k =? "")%string.
Qed.

Lemma convertEnvironment_array entries st :
  convertEnvironment (strings entries) st
  = (inr (VObj (env_of_entries entries [])), st).
Proof.
  unfold convertEnvironment, strings, env_of_entries.
  generalize (@nil (string * value)) as props. generalize 0%nat as i.
  induction entries as [|entry entries IH]; intros i props; simpl; [reflexivity|].
  unfold bind at 1. rewrite add_env_entry_run. apply IH.
Qed.

Lemma convertEnvironment_mapping mapping st :
  convertEnvironment (VObj mapping) st = (inr (VObj (env_of_mapping mapping [])), st).
Proof.
  unfold convertEnvironment, env_of_mapping. simpl. unfold ret. do 2 f_equal.
  generalize (@nil (string * value)) as props.
  induction mapping as [|[k v] mapping IH]; intros props; simpl; [reflexivity|].
  apply IH.
Qed.

Lemma final_from_found found entries key :
  final_from found entries key
  = match final_from None entries key with
    | Some v => Some v
    | None => found
    end.
Proof.
  unfold final_from. revert found.
  induction entries as [|entry entries IH]; intros found; simpl; [reflexivity|].
  destruct (key_value entry) as [k v].
  destruct ((k =? key)%string && negb (k =? "")%string).
  - rewrite (IH (Some v)).
    now destruct (fold_left _ entries None).
  - apply IH.
Qed.

(** In the array form the last entry of a key wins. *)
Lemma own_env_of_entries entries :
  forall props key,
    own (env_of_entries entries props) key
    = match final_value entries key with
      | Some v => VStr v
      | None => own props key
      end.
Proof.
  unfold final_value.
  induction entries as [|entry entries IH]; intros props key; [reflexivity|].
  unfold env_of_entries, final_from in *. simpl.
  destruct (key_value entry) as [k v].
  fold (final_from (if (k =? key)%string && negb (k =? "")%string then Some v else None)
          entries key).
  rewrite final_from_found. unfold final_from. rewrite IH.
  destruct (fold_left _ entries None); [reflexivity|].
  destruct (k =? "")%string eqn:Ek; simpl.
  - now rewrite andb_false_r.
  - rewrite andb_true_r. destruct (k =? key)%string eqn:Ekey.
    + apply String.eqb_eq in Ekey. subst. apply own_set_own_eq.
    + apply String.eqb_neq in Ekey. now apply own_set_own_neq.
Qed.

Lemma own_env_of_mapping mapping :
  forall props key,
    NoDup (map fst mapping) ->
    own (env_of_mapping mapping props) key
    = match lookup mapping key with
      | Some v => VStr (env_text v)
      | None => own props key
      end.
Proof.
  unfold env_of_mapping.
  induction mapping as [|[k v] mapping IH]; intros props key Hnd; [reflexivity|].
  simpl in Hnd. inversion Hnd as [|? ? Hk Hnd']; subst. simpl.
  rewrite IH by assumption.
  destruct (k =? key)%string eqn:Ekey.
  - apply String.eqb_eq in Ekey. subst key.
    assert (Hnone : lookup mapping k = None).
    { clear -Hk. induction mapping as [|[k' v'] mapping IH]; simpl; [reflexivity|].
      simpl in Hk. apply Decidable.not_or in Hk as [Hne Hk].
      apply String.eqb_neq in Hne. rewrite Hne. now apply IH. }
    rewrite Hnone. apply own_set_own_eq.
  - apply String.eqb_neq in Ekey.
    destruct (lookup mapping key); [reflexivity | now apply own_set_own_neq].
Qed.

(** C7. Environment normalization is shape-independent: an array entry is cut
    at its first '=' (later '=' stay in the value) and the last entry of a
    key wins; and for every list of entries and the mapping that binds the
    same keys to values whose strings are the final values of the entries,
    [convertEnvironment] produces the same string-to-string map. *)
Theorem C7_environment_shape_independent :
  (forall key value, no_equals key = true ->
     key_value (key ++ "=" ++ value) = (key, value)) /\
  forall (entries : list string) (mapping : list (string * value)) (st : diag),
    NoDup (map fst mapping) ->
    (forall key, option_map env_text (lookup mapping key) = final_value entries key) ->
    exists from_array from_mapping,
      convertEnvironment (strings entries) st = (inr from_array, st) /\
      convertEnvironment (VObj mapping) st = (inr from_mapping, st) /\
      (forall key, prop from_array key = prop from_mapping key) /\
      (forall key,
         prop from_array key
         = match final_value entries key with
           | Some v => VStr v
           | None => VUndefined
           end).
Proof.
  split; [apply key_value_first_equals|].
  intros entries mapping st Hnd Hsame.
  exists (VObj (env_of_entries entries [])), (VObj (env_of_mapping mapping [])).
  split; [apply convertEnvironment_array|].
  split; [apply convertEnvironment_mapping|].
  split; intros key; simpl.
  - rewrite own_env_of_entries, own_env_of_mapping by assumption.
    rewrite <- Hsame. now destruct (lookup mapping key).
  - rewrite own_env_of_entries. reflexivity.
Qed.

(** ** Validation is exhaustive *)

Lemma validateService_without_image compose serviceName st :
  validateService compose serviceName (VObj []) st
  = (inr tt, Diag (warnings st) (errors st ++ [missing_image serviceName])%list).
Proof. reflexivity. Qed.

(** A computed key that is not an own property of an object finds what
    the object inherits: something truthy, for an inherited name. *)
Lemma bracket_absent (props : list (string * value)) (k : string) :
  has_own props k = false ->
  truthy (bracket (VObj props) k) = inherited_name k.
Proof.
  intros Hown. unfold bracket, inherited, inherited_name.
  cbn [has_own_property prototype_chain]. rewrite Hown.
  cbn [existsb]. rewrite (String.eqb_sym k).
  destruct ("__proto__" =? k)%string; [reflexivity|].
  cbn [Object_prototype methods map fst existsb own orb].
  repeat match goal with
         | |- context [(?name =? k)%string] =>
             destruct (name =? k)%string; [reflexivity|]
         end.
  reflexivity.
Qed.

Lemma bracket_present (props : list (string * value)) (k : string) :
  has_own props k = true -> bracket (VObj props) k = own props k.
Proof. intros Hown. unfold bracket. cbn [has_own_property prop]. now rewrite Hown. Qed.

Lemma validateService_dependency compose serviceName dep image
  (as_mapping : bool) st :
  image <> EmptyString ->
  is_nullish compose = false ->
  validateService compose serviceName
    (VObj [("image", VStr image);
           ("depends_on", if as_mapping then VObj [(dep, VObj [])] else VArr [VStr dep])]) st
  = (inr tt,
     Diag (warnings st)
          (errors st ++ (if truthy (bracket (prop compose "services") dep) then []
                         else [undefined_dependency serviceName dep]))%list).
Proof.
  intros Himage Hnn. apply String.eqb_neq in Himage.
  unfold validateService, bind, get, ret, when, forEach, names_of, Object_keys,
    Object_entries, array_method, push_error.
  rewrite Hnn. cbn -[append bracket]. rewrite Himage. cbn -[append bracket].
  destruct as_mapping; cbn -[append bracket];
    destruct (truthy (bracket (prop compose "services") dep)); cbn -[append];
    rewrite ?app_nil_r; destruct st; reflexivity.
Qed.

Lemma validate_no_sections compose st :
  is_nullish compose = false ->
  prop compose "networks" = VUndefined -> prop compose "volumes" = VUndefined ->
  prop compose "configs" = VUndefined -> prop compose "secrets" = VUndefined ->
  bind (validateNetworks compose)
    (fun _ => bind (validateVolumes compose)
       (fun _ => bind (validateConfigs compose) (fun _ => validateSecrets compose))) st
  = (inr tt, st).
Proof.
  intros Hnn Hn Hv Hc Hs.
  unfold validateNetworks, validateVolumes, validateConfigs, validateSecrets, bind, get.
  rewrite Hnn, Hn, Hv, Hc, Hs. reflexivity.
Qed.

Lemma validateServices_entries compose entries st :
  is_nullish compose = false ->
  prop compose "services" = VObj entries ->
  validateServices compose st
  = forEach_from 0 (fun '(serviceName, service) _ =>
                      validateService compose serviceName service) entries st.
Proof.
  intros Hnn Hs. unfold validateServices, bind, get. rewrite Hnn. unfold ret at 1.
  rewrite Hs. reflexivity.
Qed.

(** An oblivious method appends what it appends from the empty state. *)
Lemma obl_appends {A} (m : M A) :
  oblivious m ->
  forall st, m st = (outcome m, Diag (warnings st ++ warnings (snd (m no_diag)))
                                     (errors st ++ errors (snd (m no_diag)))).
Proof.
  intros (r & ws & es & Hm) st. unfold outcome. rewrite (Hm no_diag), Hm. reflexivity.
Qed.

(** Validation is not fail-fast: as long as no service makes the validator
    throw, the loop over the services reports the defects of every service,
    in the order of the services. *)
Lemma validateServices_reports_every_service compose entries st :
  is_nullish compose = false ->
  prop compose "services" = VObj entries ->
  (forall entry, In entry entries ->
     outcome (validateService compose (fst entry) (snd entry)) = inr tt) ->
  validateServices compose st
  = (inr tt, Diag (warnings st ++ flat_map (service_warnings compose) entries)
                  (errors st ++ flat_map (service_errors compose) entries)).
Proof.
  intros Hnn Hs Hall. rewrite (validateServices_entries compose entries st Hnn Hs).
  clear Hs. revert st. generalize 0%nat.
  induction entries as [|[name service] entries IH]; intros i st; simpl.
  - unfold ret. destruct st; simpl. now rewrite !app_nil_r.
  - unfold bind.
    rewrite (obl_appends _ (obl_validateService compose name service) st).
    pose proof (Hall (name, service) (or_introl eq_refl)) as Hret. simpl in Hret.
    rewrite Hret.
    rewrite IH by (intros entry Hin; apply Hall; now right).
    simpl. unfold service_warnings, service_errors. simpl.
    now rewrite !app_assoc.
Qed.

(** C8. Validation does not stop at the first defect, but it misses a
    dependency on an inherited name.  As long as no service makes the
    validator throw, the loop reports the defects of every service, in the
    order of the services.  For a document in which one service lacks both
    [image] and [build] and a different service depends on a name that is
    not a service, and which the schema accepts,
    [validateComposeFile] returns the two errors, one per defect, in the
    order of the services, unless the name is one that every object
    inherits, such as [toString]: [compose.services[dep]] is then a
    function, the dependency passes for defined and the only error is the
    missing image.  [isValid] is false in both cases. *)
Theorem C8_inherited_names_pass_for_services :
  (forall (compose : value) (entries : list (string * value)) (st : diag),
     is_nullish compose = false ->
     prop compose "services" = VObj entries ->
     (forall entry, In entry entries ->
        outcome (validateService compose (fst entry) (snd entry)) = inr tt) ->
     validateServices compose st
     = (inr tt, Diag (warnings st ++ flat_map (service_warnings compose) entries)
                     (errors st ++ flat_map (service_errors compose) entries))) /\
  forall (a b dep image : string) (as_mapping a_first : bool),
    a <> b -> dep <> a -> dep <> b -> image <> EmptyString ->
    composeSchema_validate (two_defects a b dep image as_mapping a_first) = [] ->
    validateComposeFile (two_defects a b dep image as_mapping a_first)
    = {| Validation.isValid := false;
         Validation.errors :=
           if inherited_name dep then [missing_image a]
           else if a_first then [missing_image a; undefined_dependency b dep]
                else [undefined_dependency b dep; missing_image a];
         Validation.warnings := [] |}.
Proof.
  split.
  { intros compose entries st. apply validateServices_reports_every_service. }
  intros a b dep image as_mapping a_first Hab Hda Hdb Himage Hschema.
  unfold validateComposeFile, validation_passes, try_catch. rewrite Hschema.
  remember (two_defects a b dep image as_mapping a_first) as compose eqn:Ec.
  assert (Hnn : is_nullish compose = false) by (now subst).
  assert (Hdep : truthy (bracket (prop compose "services") dep) = inherited_name dep).
  { apply String.eqb_neq in Hda, Hdb. rewrite String.eqb_sym in Hda, Hdb.
    subst compose. destruct a_first; cbn [two_defects prop own String.eqb Ascii.eqb Bool.eqb];
      apply bracket_absent; cbn [has_own]; now rewrite Hda, Hdb. }
  assert (Hrest : forall st,
             bind (validateNetworks compose)
               (fun _ => bind (validateVolumes compose)
                  (fun _ => bind (validateConfigs compose)
                     (fun _ => validateSecrets compose))) st = (inr tt, st)).
  { intros st. apply validate_no_sections; now subst. }
  unfold bind at 1. unfold forEach. rewrite forEach_push_error.
  change (Diag (warnings no_diag) (errors no_diag ++ [])) with no_diag.
  unfold bind at 1.
  assert (Hservices : validateServices compose no_diag
            = (inr tt,
               Diag [] (if inherited_name dep then [missing_image a]
                        else if a_first then [missing_image a; undefined_dependency b dep]
                             else [undefined_dependency b dep; missing_image a]))).
  { destruct a_first.
    - rewrite (validateServices_entries compose
                 [(a, VObj []);
                  (b, VObj [("image", VStr image);
                            ("depends_on", if as_mapping then VObj [(dep, VObj [])]
                                           else VArr [VStr dep])])])
        by (now subst).
      cbn [forEach_from]. unfold bind at 1. cbv beta iota.
      rewrite validateService_without_image. unfold bind at 1.
      rewrite validateService_dependency by assumption. rewrite Hdep.
      now destruct (inherited_name dep).
    - rewrite (validateServices_entries compose
                 [(b, VObj [("image", VStr image);
                            ("depends_on", if as_mapping then VObj [(dep, VObj [])]
                                           else VArr [VStr dep])]);
                  (a, VObj [])])
        by (now subst).
      cbn [forEach_from]. unfold bind at 1. cbv beta iota.
      rewrite validateService_dependency by assumption. unfold bind at 1.
      rewrite validateService_without_image. rewrite Hdep.
      now destruct (inherited_name dep). }
  rewrite Hservices. rewrite Hrest. simpl.
  destruct (inherited_name dep); [reflexivity|]. destruct a_first; reflexivity.
Qed.

(** * More of the validator, of the converter and of a caller *)

(** ** Compose versions *)

Lemma listed_version_starts_with_3 (v : string) :
  existsb (String.eqb v)
    ["3.0"; "3.1"; "3.2"; "3.3"; "3.4"; "3.5"; "3.6"; "3.7"; "3.8"; "3.9"] = true ->
  startsWith v "3." = true.
Proof.
  intros H. apply existsb_exists in H as (x & Hin & Heq).
  apply String.eqb_eq in Heq. subst x.
  simpl in Hin. decompose [or] Hin; subst; try reflexivity; contradiction.
Qed.

Lemma prefix_cons (a b : ascii) (p s : string) :
  String.prefix (String a p) (String b s) = Ascii.eqb a b && String.prefix p s.
Proof.
  cbn [String.prefix]. destruct (ascii_dec a b) as [->|Hne].
  - now rewrite Ascii.eqb_refl.
  - apply Ascii.eqb_neq in Hne. now rewrite Hne.
Qed.

Lemma starts_3_not_legacy (v : string) :
  startsWith v "3." = true -> startsWith v "2." || startsWith v "1." = false.
Proof.
  unfold startsWith. destruct v as [|c v]; [intros H; discriminate H|].
  rewrite !prefix_cons. destruct (Ascii.eqb_spec "3" c) as [<-|]; intros H;
    [reflexivity | discriminate H].
Qed.

Lemma validateComposeVersion_errors (v : string) :
  v <> EmptyString ->
  Validation.warnings (validateComposeVersion (Some v)) = [] /\
  Validation.isValid (validateComposeVersion (Some v))
  = (List.length (Validation.errors (validateComposeVersion (Some v))) =? 0)%nat /\
  List.length (Validation.errors (validateComposeVersion (Some v)))
  = if startsWith v "3." then 0%nat
    else if startsWith v "1." || startsWith v "2." then 2%nat else 1%nat.
Proof.
  intros Hv. destruct v as [|c v]; [congruence|].
  cbv beta iota zeta delta [validateComposeVersion].
  generalize (String c v). clear. intros version.
  cbn [Validation.warnings Validation.isValid Validation.errors].
  split; [reflexivity|]. split; [reflexivity|].
  pose proof (listed_version_starts_with_3 version) as Hl.
  destruct (startsWith version "3.") eqn:H3.
  - rewrite (starts_3_not_legacy _ H3), andb_false_r. reflexivity.
  - destruct (existsb _ _); [now discriminate Hl|].
    rewrite (orb_comm (startsWith version "1.")).
    destruct (_ || _); reflexivity.
Qed.

(** X1. [validateComposeVersion] accepts a version exactly when it is absent,
    empty or begins with "3.": the list of supported versions adds nothing
    to the prefix test.  The result is valid exactly when it has no error; a
    version that begins with "1." or "2." gets two errors (not supported,
    and deprecated); the warning is there exactly when no version is given. *)
Theorem validateComposeVersion_accepts_3 (version : option string) :
  let result := validateComposeVersion version in
  Validation.isValid result
  = match version with
    | None => true
    | Some v => (v =? "")%string || startsWith v "3."
    end /\
  (Validation.isValid result = true <-> Validation.errors result = []) /\
  (forall v, version = Some v ->
     startsWith v "1." || startsWith v "2." = true ->
     List.length (Validation.errors result) = 2%nat) /\
  (Validation.warnings result <> [] <->
   version = None \/ version = Some EmptyString).
Proof.
  cbv zeta.
  assert (Hempty : forall o, o = None \/ o = Some EmptyString ->
            validateComposeVersion o
            = {| Validation.isValid := true; Validation.errors := [];
                 Validation.warnings := ["No version specified - assuming latest"] |}).
  { intros o [->| ->]; reflexivity. }
  destruct version as [v|].
  - destruct (String.eqb_spec v "") as [->|Hv].
    + rewrite Hempty by now right.
      split; [reflexivity|]. split; [split; reflexivity|].
      split; [intros v [= <-] Hl; discriminate Hl|]. split; [auto|discriminate].
    + destruct (validateComposeVersion_errors v Hv) as (Hw & Hvalid & Hlen).
      rewrite Hw, Hvalid, Hlen. clear Hw Hvalid. cbn [orb].
      destruct (validateComposeVersion (Some v)) as [valid [|e es] ws]; simpl in *.
      * destruct (startsWith v "3.") eqn:H3; [|destruct (_ || _); discriminate].
        split; [reflexivity|]. split; [split; reflexivity|].
        split; [intros v0 [= <-] Hl;
                rewrite orb_comm, (starts_3_not_legacy _ H3) in Hl; discriminate Hl|].
        split; [intros H; now contradiction H|]. intros [H|[= H]]; congruence.
      * destruct (startsWith v "3."); [discriminate|].
        split; [now destruct (startsWith v "1." || startsWith v "2.")|].
        split; [destruct (startsWith v "1." || startsWith v "2."); split; discriminate|].
        split; [intros v0 [= <-] Hl; now rewrite Hl|].
        split; [intros H; now contradiction H|]. intros [H|[= H]]; congruence.
  - rewrite Hempty by now left.
    split; [reflexivity|]. split; [split; reflexivity|].
    split; [intros v Hv; discriminate Hv|]. split; [intros _; now left|discriminate].
Qed.

(** X2. The converter and [validateComposeVersion] disagree on versions.  For
    a non-empty version string, [validateComposeVersion] accepts it exactly
    when it begins with "3."; [isSupportedVersion] of the converter accepts
    the same strings and "3".  And [parseCompose] never rejects a document
    for its version string: it returns the document, with one warning when
    the version is not supported (so also for "2.4" or "1.0"). *)
Theorem a_legacy_version_only_warns (v : string) (st : diag) :
  v <> EmptyString ->
  let accepted := Validation.isValid (validateComposeVersion (Some v)) in
  accepted = startsWith v "3." /\
  isSupportedVersion (VStr v) st = (inr (accepted || (v =? "3")%string), st) /\
  forall content compose,
    loadYAML content = inr compose ->
    is_object compose = true ->
    prop compose "version" = VStr v ->
    parseCompose content st
    = (inr compose,
       if accepted || (v =? "3")%string then st
       else Diag (warnings st ++ ["Docker Compose version '" ++ v
                                  ++ "' may not be fully supported"]%string)
                 (errors st)).
Proof.
  intros Hv accepted.
  assert (Haccepted : accepted = startsWith v "3.").
  { unfold accepted. destruct (validateComposeVersion_errors v Hv) as (_ & -> & ->).
    destruct (startsWith v "3."); [reflexivity|].
    now destruct (startsWith v "1." || startsWith v "2."). }
  assert (Hsupported : existsb (String.eqb v) supportedVersions || startsWith v "3."
                       = accepted || (v =? "3")%string).
  { rewrite Haccepted. unfold supportedVersions.
    assert (Hc : forall l, existsb (String.eqb v) ("3" :: l)
                           = (v =? "3")%string || existsb (String.eqb v) l)
      by reflexivity.
    rewrite Hc. clear Hc.
    pose proof (listed_version_starts_with_3 v) as Hl.
    destruct (startsWith v "3.") eqn:H3.
    - now rewrite !orb_true_r.
    - destruct (existsb _ _); [now discriminate Hl|]. now rewrite !orb_false_r. }
  split; [exact Haccepted|]. split.
  - unfold isSupportedVersion, ret. now rewrite Hsupported.
  - intros content compose Hload Hobject Hversion.
    assert (Htruthy : truthy compose = true) by (destruct compose; auto; discriminate).
    apply String.eqb_neq in Hv.
    unfold parseCompose, try_catch, bind at 1, call. rewrite Hload. unfold ret at 1.
    rewrite Htruthy, Hobject, Hversion. cbn [negb orb truthy]. rewrite Hv. cbn [negb].
    unfold bind at 1. unfold bind at 1. unfold isSupportedVersion, ret at 1.
    rewrite Hsupported. cbn [ToString].
    destruct (accepted || (v =? "3")%string); reflexivity.
Qed.

(** ** The validator's result *)

Lemma validateComposeFile_run compose :
  validateComposeFile compose
  = match validation_passes compose no_diag with
    | (inr _, st) =>
        {| Validation.isValid := (List.length (errors st) =? 0)%nat;
           Validation.errors := errors st;
           Validation.warnings := warnings st |}
    | (inl e, st) =>
        {| Validation.isValid := false;
           Validation.errors := push (errors st) ("Validation error: " ++ message_of e);
           Validation.warnings := warnings st |}
    end.
Proof.
  unfold validateComposeFile, try_catch.
  destruct (validation_passes compose no_diag) as [[e|[]] st]; [|reflexivity].
  unfold push_error, push. cbn [errors warnings]. f_equal.
  rewrite length_app, Nat.add_comm. reflexivity.
Qed.

Lemma validateComposeFile_logged compose entry :
  logs (validation_passes compose) entry ->
  Validation.isValid (validateComposeFile compose) = false /\
  In entry (Validation.errors (validateComposeFile compose)).
Proof.
  intros Hlogs. rewrite validateComposeFile_run.
  destruct (validation_passes compose no_diag) as [[e|[]] st] eqn:Erun;
    pose proof (Hlogs _ _ _ Erun) as Hin; cbn [Validation.isValid Validation.errors].
  - split; [reflexivity|]. apply in_or_app. now left.
  - split; [|assumption]. destruct (errors st); [contradiction|reflexivity].
Qed.

Lemma fails_bind_l {A B} (m : M A) (k : A -> M B) : fails m -> fails (bind m k).
Proof. intros Hm st. destruct (Hm st) as (e & st' & Hrun). unfold bind. rewrite Hrun. eauto. Qed.

Lemma fails_bind_r {A B} (m : M A) (k : A -> M B) :
  (forall a, fails (k a)) -> fails (bind m k).
Proof.
  intros Hk st. unfold bind. destruct (m st) as [[e|a] st1]; [eauto|]. apply Hk.
Qed.

Lemma fails_get {B} (v : value) (k : string) (K : value -> M B) :
  is_nullish v = true -> fails (bind (get v k) K).
Proof.
  intros Hv. apply fails_bind_l. intros st. unfold get. rewrite Hv. unfold throw. eauto.
Qed.

Lemma fails_forEach_from {A} (f : A -> nat -> M unit) (x : A) (l : list A) :
  In x l -> (forall i, fails (f x i)) -> forall i, fails (forEach_from i f l).
Proof.
  intros Hin Hx. induction l as [|y l IH]; [contradiction|]. intros i.
  cbn [forEach_from]. destruct Hin as [->|Hin].
  - apply fails_bind_l, Hx.
  - apply fails_bind_r. intros _. now apply IH.
Qed.

Lemma fails_validation compose :
  fails (validation_passes compose) ->
  Validation.isValid (validateComposeFile compose) = false /\
  exists text,
    last (Validation.errors (validateComposeFile compose)) EmptyString
    = "Validation error: " ++ text.
Proof.
  intros Hf. rewrite validateComposeFile_run.
  destruct (Hf no_diag) as (e & st & ->). cbn [Validation.isValid Validation.errors].
  split; [reflexivity|]. exists (message_of e). apply last_last.
Qed.

(** A section entry without a body makes the loop over the section throw. *)
Lemma section_fails compose section entries name body :
  In section declared_sections ->
  prop compose section = VObj entries ->
  In (name, body) entries -> is_nullish body = true ->
  fails (validation_passes compose).
Proof.
  intros Hsection Hprop Hin Hbody.
  assert (Hnn : is_nullish compose = false).
  { destruct compose; try reflexivity; discriminate. }
  assert (Hloop : forall (f : string * value -> nat -> M unit) st,
            (forall i, fails (f (name, body) i)) ->
            exists e st', forEach f entries st = (inl e, st')).
  { intros f st Hf. now apply (fails_forEach_from f (name, body) entries Hin Hf 0%nat st). }
  unfold validation_passes.
  do 2 (apply fails_bind_r; intros _).
  simpl in Hsection. decompose [or] Hsection; try contradiction; subst section.
  - apply fails_bind_l. unfold validateNetworks. intros st.
    unfold bind at 1. unfold get at 1. rewrite Hnn. unfold ret at 1. rewrite Hprop. cbn [truthy when].
    unfold bind at 1, Object_entries. cbn [is_nullish own_entries]. unfold ret at 1.
    apply Hloop. intros _. now apply fails_get.
  - apply fails_bind_r; intros _.
    apply fails_bind_l. unfold validateVolumes. intros st.
    unfold bind at 1. unfold get at 1. rewrite Hnn. unfold ret at 1. rewrite Hprop. cbn [truthy when].
    unfold bind at 1, Object_entries. cbn [is_nullish own_entries]. unfold ret at 1.
    apply Hloop. intros _. now apply fails_get.
  - do 2 (apply fails_bind_r; intros _).
    apply fails_bind_l. unfold validateConfigs. intros st.
    unfold bind at 1. unfold get at 1. rewrite Hnn. unfold ret at 1. rewrite Hprop. cbn [truthy when].
    unfold bind at 1, Object_entries. cbn [is_nullish own_entries]. unfold ret at 1.
    apply Hloop. intros _. now apply fails_get.
  - do 3 (apply fails_bind_r; intros _).
    unfold validateSecrets. intros st.
    unfold bind at 1. unfold get at 1. rewrite Hnn. unfold ret at 1. rewrite Hprop. cbn [truthy when].
    unfold bind at 1, Object_entries. cbn [is_nullish own_entries]. unfold ret at 1.
    apply Hloop. intros _. now apply fails_get.
Qed.

(** X3. A top-level entry without a body in [networks], [volumes], [configs]
    or [secrets] (as in [volumes: {db_data: null}], the YAML of a named
    volume with default settings) makes validation fail: the validator reads
    a property of [null], the exception is caught, [isValid] is false and the
    last error is "Validation error: " followed by the engine's message. *)
Theorem empty_section_entry_fails_validation
  (compose : value) (section : string) (entries : list (string * value))
  (name : string) (body : value) :
  In section declared_sections ->
  prop compose section = VObj entries ->
  In (name, body) entries ->
  is_nullish body = true ->
  Validation.isValid (validateComposeFile compose) = false /\
  exists text,
    last (Validation.errors (validateComposeFile compose)) EmptyString
    = "Validation error: " ++ text.
Proof.
  intros Hsection Hprop Hin Hbody. apply fails_validation.
  eapply section_fails; eassumption.
Qed.

(** ** A document without services *)

Lemma logs_no_services compose :
  is_nullish compose = false -> truthy (prop compose "services") = false ->
  logs (validation_passes compose) "No services defined".
Proof.
  intros Hnn Hs. unfold validation_passes. intros st r st'. unfold bind at 1, forEach.
  rewrite forEach_push_error. revert r st'.
  apply logs_then; [|intros; obl].
  unfold validateServices. apply logs_get; [assumption|]. rewrite Hs. cbn [negb].
  apply logs_push_error.
Qed.

Lemma without_services (compose : value) :
  truthy (get_opt compose "services") = false ->
  Validation.isValid (validateComposeFile compose) = false /\
  (is_nullish compose = false ->
   In "No services defined" (Validation.errors (validateComposeFile compose))).
Proof.
  intros Hs. destruct (is_nullish compose) eqn:Hnn.
  - split; [|discriminate]. apply fails_validation.
    unfold validation_passes. apply fails_bind_r; intros _. apply fails_bind_l.
    unfold validateServices. now apply fails_get.
  - unfold get_opt in Hs. rewrite Hnn in Hs.
    pose proof (validateComposeFile_logged compose _ (logs_no_services compose Hnn Hs)) as [H1 H2].
    split; [assumption|]. intros _. assumption.
Qed.

(** X4. A document without services never validates: when [compose.services]
    is absent or falsy, [validateComposeFile] returns [isValid = false], and
    unless the document itself is [null] or [undefined] the error
    "No services defined" is reported.  This includes a document that is
    not a mapping at all, such as the YAML text itself. *)
Theorem no_services_never_valid (compose : value) :
  truthy (get_opt compose "services") = false ->
  Validation.isValid (validateComposeFile compose) = false /\
  (is_nullish compose = false ->
   In "No services defined" (Validation.errors (validateComposeFile compose))).
Proof. apply without_services. Qed.

(** X5. [convertComposeFile] of the deployment service never reports success:
    it hands the text of the file, not the parsed document, to
    [validateComposeFile], which finds no services in a string; so the
    method returns [success: false] and no [hcl], with the validator's
    errors, "No services defined" among them. *)
Theorem convertComposeFile_never_succeeds (read : exn + string) :
  Deployment.success (convertComposeFile read) = VBool false /\
  Deployment.hcl (convertComposeFile read) = VUndefined /\
  forall composeContent, read = inr composeContent ->
    Deployment.errors (convertComposeFile read)
    = strings (Validation.errors (validateComposeFile (VStr composeContent))) /\
    In "No services defined" (Validation.errors (validateComposeFile (VStr composeContent))).
Proof.
  destruct read as [e|content]; cbn [convertComposeFile].
  - split; [reflexivity|]. split; [reflexivity|]. intros c [=].
  - assert (Hs : truthy (get_opt (VStr content) "services") = false) by reflexivity.
    destruct (without_services (VStr content) Hs) as [Hvalid Hin].
    rewrite Hvalid. cbn [negb].
    split; [reflexivity|]. split; [reflexivity|]. intros c [= <-].
    split; [reflexivity|]. now apply Hin.
Qed.

(** X6. The errors that [validateComposeFile] returns begin with the
    messages of the schema, in their order, and the result is valid exactly
    when there is no error at all. *)
Theorem schema_messages_come_first (compose : value) :
  (exists rest,
     Validation.errors (validateComposeFile compose)
     = (composeSchema_validate compose ++ rest)%list) /\
  (Validation.isValid (validateComposeFile compose) = true
   <-> Validation.errors (validateComposeFile compose) = []).
Proof.
  assert (Hrun : exists r ws es,
            validation_passes compose no_diag
            = (r, Diag ws (composeSchema_validate compose ++ es))).
  { unfold validation_passes. unfold bind at 1. unfold forEach. rewrite forEach_push_error.
    match goal with
    | |- context [ bind (validateServices compose) ?k ?s ] =>
        assert (Hrest : oblivious (bind (validateServices compose) k)) by obl;
        rewrite (obl_appends _ Hrest s)
    end.
    eexists _, _, _. reflexivity. }
  destruct Hrun as (r & ws & es & Hrun).
  rewrite validateComposeFile_run, Hrun.
  destruct r as [e|[]]; cbn [errors warnings Validation.errors Validation.isValid].
  - split.
    + exists (push es ("Validation error: " ++ message_of e)). unfold push.
      now rewrite <- app_assoc.
    + split; [intros H; discriminate H|]. unfold push. intros H.
      apply app_eq_nil in H as [_ H]. discriminate H.
  - split; [now exists es|].
    destruct (composeSchema_validate compose ++ es)%list; split; try reflexivity;
      intros H; discriminate H.
Qed.

(** ** A service without a body *)

Lemma validateServices_until compose before name body after st :
  is_nullish compose = false ->
  prop compose "services" = VObj (before ++ (name, body) :: after) ->
  is_nullish body = true ->
  (forall entry, In entry before ->
     outcome (validateService compose (fst entry) (snd entry)) = inr tt) ->
  exists e,
    validateServices compose st
    = (inl e, Diag (warnings st ++ flat_map (service_warnings compose) before)
                   (errors st ++ flat_map (service_errors compose) before)).
Proof.
  intros Hnn Hs Hbody Hall.
  rewrite (validateServices_entries compose _ st Hnn Hs).
  clear Hs. revert st. generalize 0%nat.
  induction before as [|[n s] before IH]; intros i st.
  - cbn [app forEach_from flat_map]. unfold bind, validateService.
    unfold bind at 1. unfold get at 1. rewrite Hbody. unfold throw.
    eexists. f_equal. destruct st; simpl. now rewrite !app_nil_r.
  - cbn [app forEach_from flat_map]. unfold bind at 1.
    rewrite (obl_appends _ (obl_validateService compose n s) st).
    pose proof (Hall (n, s) (or_introl eq_refl)) as Hret. simpl in Hret. rewrite Hret.
    destruct (IH (fun entry Hin => Hall entry (or_intror Hin)) (S i)
                 (Diag (warnings st ++ warnings (snd (validateService compose n s no_diag)))
                       (errors st ++ errors (snd (validateService compose n s no_diag)))))
      as (e & Hrun).
    exists e. rewrite Hrun. cbn [warnings errors].
    unfold service_warnings, service_errors. cbn [fst snd]. now rewrite !app_assoc.
Qed.

(** X7. Validation is exhaustive only as long as nothing throws.  At a service
    without a body ([null]) the validator throws: the result holds the
    schema's messages, the defects of the services before it and one
    "Validation error: ..." entry; nothing is reported for the services
    after it, nor for the other sections. *)
Theorem validation_stops_at_a_service_without_body
  (compose : value) (before after : list (string * value)) (name : string) (body : value) :
  prop compose "services" = VObj (before ++ (name, body) :: after) ->
  is_nullish body = true ->
  (forall entry, In entry before ->
     outcome (validateService compose (fst entry) (snd entry)) = inr tt) ->
  exists text,
    validateComposeFile compose
    = {| Validation.isValid := false;
         Validation.errors :=
           (composeSchema_validate compose
            ++ flat_map (service_errors compose) before
            ++ ["Validation error: " ++ text]%string)%list;
         Validation.warnings := flat_map (service_warnings compose) before |}.
Proof.
  intros Hs Hbody Hall.
  assert (Hnn : is_nullish compose = false).
  { destruct compose; try reflexivity; discriminate. }
  rewrite validateComposeFile_run. unfold validation_passes.
  unfold bind at 1. unfold forEach. rewrite forEach_push_error.
  unfold bind at 1.
  destruct (validateServices_until compose before name body after
              (Diag (warnings no_diag) (errors no_diag ++ composeSchema_validate compose))
              Hnn Hs Hbody Hall) as (e & ->).
  exists (message_of e). cbn [warnings errors no_diag app]. unfold push.
  now rewrite <- app_assoc.
Qed.

(** ** Strings: indices, separators, [parseInt] *)

Lemma index_string_inj (i j : nat) : index_string i = index_string j -> i = j.
Proof.
  unfold index_string. intros H.
  assert (Hu : Some (Nat.to_uint i) = Some (Nat.to_uint j)).
  { rewrite <- !NilEmpty.usu. now rewrite H. }
  injection Hu as Hu.
  rewrite <- (DecimalNat.Unsigned.of_to i), <- (DecimalNat.Unsigned.of_to j). now rewrite Hu.
Qed.

Lemma app_inv_head_string (p a b : string) : (p ++ a = p ++ b)%string -> a = b.
Proof. induction p as [|c p IH]; simpl; [auto|]. intros [= H]. auto. Qed.

Lemma port_label_inj i j : port_label i = port_label j -> i = j.
Proof. intros H. apply index_string_inj. exact (app_inv_head_string _ _ _ H). Qed.


Lemma volume_name_inj i j : volume_name i = volume_name j -> i = j.
Proof. intros H. apply index_string_inj. exact (app_inv_head_string _ _ _ H). Qed.

Lemma mount_name_inj i j : mount_name i = mount_name j -> i = j.
Proof. intros H. apply index_string_inj. exact (app_inv_head_string _ _ _ H). Qed.

Lemma split_free (sep : ascii) (s : string) : free_of sep s = true -> split sep s = [s].
Proof.
  unfold free_of. induction s as [|c s IH]; simpl; [reflexivity|]. intros H.
  apply andb_true_iff in H as [Hc Hs]. apply negb_true_iff in Hc.
  now rewrite Hc, (IH Hs).
Qed.

Lemma split_app (sep : ascii) (a r : string) :
  free_of sep a = true -> split sep (a ++ String sep r) = a :: split sep r.
Proof.
  unfold free_of. induction a as [|c a IH]; simpl.
  - now rewrite Ascii.eqb_refl.
  - intros H. apply andb_true_iff in H as [Hc Ha]. apply negb_true_iff in Hc.
    now rewrite Hc, (IH Ha).
Qed.

Lemma free_of_app (sep : ascii) (a b : string) :
  free_of sep a = true -> free_of sep b = true -> free_of sep (a ++ b) = true.
Proof.
  unfold free_of. induction a as [|c a IH]; simpl; [auto|]. intros H Hb.
  apply andb_true_iff in H as [Hc Ha]. now rewrite Hc, IH.
Qed.

(** What the parsers and the separators need to know about a digit. *)
Lemma digit_is_plain (c : ascii) :
  is_digit c = true ->
  Ascii.eqb c ":" = false /\ Ascii.eqb c "x" || Ascii.eqb c "X" = false.
Proof.
  intros Hc.
  destruct c as [[] [] [] [] [] [] [] []];
    try (vm_compute in Hc; discriminate); split; reflexivity.
Qed.

Lemma digits_free_of_colon (ds : string) : all_digits ds = true -> free_of ":" ds = true.
Proof.
  unfold all_digits, free_of. induction ds as [|c ds IH]; simpl; [reflexivity|]. intros H.
  apply andb_true_iff in H as [Hc Hd].
  destruct (digit_is_plain c Hc) as [-> _]. now rewrite IH.
Qed.

(** [parseInt] on digits followed by something that is not a digit: the
    Number value of the digits. *)
Lemma parseInt_digits_then (ds rest : string) :
  ds <> EmptyString -> all_digits ds = true ->
  match rest with
  | String c _ => is_digit c = false /\ Ascii.eqb c "x" || Ascii.eqb c "X" = false
  | EmptyString => True
  end ->
  parseInt_string (ds ++ rest) = Number_value (digits_value ds).
Proof.
  intros Hne Hd Hrest.
  assert (Hspan : span is_digit (ds ++ rest) = (ds, rest)).
  { apply span_digits; [assumption|]. destruct rest; [exact I | apply Hrest]. }
  destruct ds as [|c ds]; [congruence|].
  assert (Hc : is_digit c = true).
  { unfold all_digits in Hd. simpl in Hd. now apply andb_true_iff in Hd. }
  destruct (digit_facts c (ds ++ rest) Hc) as (Hs & Hsign & _ & _).
  unfold parseInt_string, dropWhile.
  change (String c ds ++ rest)%string with (String c (ds ++ rest)) in *.
  simpl span at 1. rewrite Hs. cbn [snd]. rewrite Hsign.
  assert (Hx : match (ds ++ rest)%string with
               | String x _ => Ascii.eqb x "x" || Ascii.eqb x "X" = false
               | EmptyString => True
               end).
  { destruct ds as [|d ds]; simpl.
    - destruct rest; [exact I | apply Hrest].
    - unfold all_digits in Hd. simpl in Hd. apply andb_true_iff in Hd as [_ Hd].
      apply andb_true_iff in Hd as [Hd _]. apply (digit_is_plain d Hd). }
  rewrite Hspan. cbn [fst].
  destruct c as [[] [] [] [] [] [] [] []]; try reflexivity.
  destruct (ds ++ rest)%string; [reflexivity|]. now rewrite Hx.
Qed.

Lemma suffix_is_plain (suffix : string) :
  In suffix protocol_suffixes ->
  free_of ":" suffix = true /\
  match suffix with
  | String c _ => is_digit c = false /\ Ascii.eqb c "x" || Ascii.eqb c "X" = false
  | EmptyString => True
  end.
Proof.
  intros H. simpl in H. decompose [or] H; try contradiction; subst; split;
    try reflexivity; try exact I; split; reflexivity.
Qed.

(** ** Memory sizes that the validator accepts *)

Lemma unit_of_lower (u : ascii) :
  In (lower_char u) ["b"; "k"; "m"; "g"]%char -> In u unit_letters.
Proof.
  destruct u as [[] [] [] [] [] [] [] []]; vm_compute; intros H;
    decompose [or] H; try discriminate; try contradiction; tauto.
Qed.

Lemma toLowerCase_unit (r : string) :
  let l := toLowerCase r in
  ((l =? "") || (l =? "b") || (l =? "k") || (l =? "m") || (l =? "g"))%string = true ->
  r = EmptyString \/ exists u, In u unit_letters /\ r = String u EmptyString.
Proof.
  destruct r as [|u [|v r]]; [now left| |].
  - intros l H. right. exists u. split; [|reflexivity]. apply unit_of_lower.
    subst l. cbn [toLowerCase] in H.
    repeat (apply orb_true_iff in H as [H|H]);
      try apply String.eqb_eq in H; try discriminate;
      apply Ascii.eqb_eq in H; rewrite H; simpl; tauto.
  - intros l H. subst l. cbn [toLowerCase] in H.
    repeat (apply orb_true_iff in H as [H|H]);
      try apply String.eqb_eq in H; try discriminate;
      apply andb_true_iff in H as [_ H]; discriminate.
Qed.

(** X8. A memory size that the validator accepts ([isValidMemorySpec]) is
    always parsed by the converter, without a warning and without falling
    back to the default: it is a run of digits followed by at most one of the
    letters b, k, m, g (in either case), and [parseMemoryValue] returns a
    number of MB, which for digits up to 2^53 is their value in MB, rounded;
    a size without a unit counts as bytes. *)
Theorem validated_memory_always_parses
  (options : Required.Options) (memory : string) (st : diag) :
  isValidMemorySpec (VStr memory) = true ->
  exists digits unit MB,
    memory = (digits ++ unit)%string /\
    digits <> EmptyString /\ all_digits digits = true /\
    (unit = EmptyString \/ exists u, In u unit_letters /\ unit = String u EmptyString) /\
    parseMemoryValue options (VStr memory) st = (inr MB, st) /\
    (digits_value digits <= 2 ^ 53 ->
     MB = num (round_div
                 (digits_value digits
                  * match unit with String u _ => multiplier u | EmptyString => 1 end)
                 (1024 * 1024))).
Proof.
  unfold isValidMemorySpec. cbn [ToString].
  destruct (span is_digit memory) as [digits unit] eqn:Espan.
  destruct (span_spec _ _ _ _ Espan) as (-> & Hd & _).
  destruct digits as [|c ds]; [discriminate|]. intros Hunit.
  apply toLowerCase_unit in Hunit.
  assert (Hne : String c ds <> EmptyString) by discriminate.
  pose proof (digits_value_nonneg _ Hd) as Hmin.
  exists (String c ds), unit.
  destruct Hunit as [->|(u & Hu & ->)].
  - eexists. split; [reflexivity|]. split; [exact Hne|]. split; [exact Hd|].
    split; [now left|]. split.
    + rewrite append_nil_r.
      unfold parseMemoryValue, string_method, bind, ret.
      rewrite (memory_match_digits _ Hne Hd). reflexivity.
    + intros Hmax. rewrite (parseFloat_digits _ Hne Hd Hmax).
      cbn [String.eqb]. exact (units_MB _ "b"%char (conj Hmin Hmax) (or_introl eq_refl)).
  - eexists. split; [reflexivity|]. split; [exact Hne|]. split; [exact Hd|].
    split; [right; now exists u|]. split.
    + unfold parseMemoryValue, string_method, bind, ret.
      rewrite (memory_match_unit _ u Hne Hd Hu). reflexivity.
    + intros Hmax. rewrite (parseFloat_digits _ Hne Hd Hmax).
      pose proof (unit_or_b u Hu) as Eu. cbv zeta in Eu. rewrite Eu.
      exact (units_MB _ u (conj Hmin Hmax) Hu).
Qed.

Lemma memory_match_scaled (ds : string) (u b : ascii) :
  ds <> EmptyString -> all_digits ds = true ->
  In u scale_letters -> In b ["b"; "B"]%char ->
  memory_match (toLowerCase (ds ++ String u (String b EmptyString)))
  = Some (ds, String (lower_char u) EmptyString) /\
  isValidMemorySpec (VStr (ds ++ String u (String b EmptyString))) = false.
Proof.
  intros Hne Hd Hu Hb. split.
  - rewrite toLowerCase_app, (toLowerCase_digits _ Hd). unfold memory_match.
    assert (Hspan : span is_digit (ds ++ toLowerCase (String u (String b EmptyString)))
                    = (ds, toLowerCase (String u (String b EmptyString)))).
    { apply span_digits; [assumption|].
      simpl in Hu. decompose [or] Hu; subst; try reflexivity; contradiction. }
    rewrite Hspan. destruct ds as [|c ds]; [congruence|].
    simpl in Hu, Hb. decompose [or] Hu; decompose [or] Hb; subst;
      try reflexivity; contradiction.
  - unfold isValidMemorySpec. cbn [ToString].
    assert (Hspan : span is_digit (ds ++ String u (String b EmptyString))
                    = (ds, String u (String b EmptyString))).
    { apply span_digits; [assumption|].
      simpl in Hu. decompose [or] Hu; subst; try reflexivity; contradiction. }
    rewrite Hspan. destruct ds as [|c ds]; [congruence|].
    simpl in Hu, Hb. decompose [or] Hu; decompose [or] Hb; subst;
      try reflexivity; contradiction.
Qed.

(** X9. The validator is stricter than the converter on memory sizes: for
    digits followed by k, m or g and then b (in either case, as in "512mb"),
    [isValidMemorySpec] is false although [parseMemoryValue] parses the size
    without a warning, for digits up to 2^53 to the MB of the size without
    the trailing b. *)
Theorem two_letter_units_convert_but_do_not_validate
  (options : Required.Options) (digits : string) (u b : ascii) (st : diag) :
  digits <> EmptyString -> all_digits digits = true ->
  In u scale_letters -> In b ["b"; "B"]%char ->
  let memory := VStr (digits ++ String u (String b EmptyString)) in
  isValidMemorySpec memory = false /\
  exists MB,
    parseMemoryValue options memory st = (inr MB, st) /\
    (digits_value digits <= 2 ^ 53 -> MB = num (megabytes (digits_value digits) u)).
Proof.
  intros Hne Hd Hu Hb memory.
  destruct (memory_match_scaled digits u b Hne Hd Hu Hb) as [Hmatch Hvalid].
  split; [exact Hvalid|].
  pose proof (digits_value_nonneg _ Hd) as Hmin.
  eexists. split.
  - unfold memory, parseMemoryValue, string_method, bind, ret.
    rewrite Hmatch. reflexivity.
  - intros Hmax. rewrite (parseFloat_digits _ Hne Hd Hmax). cbn [String.eqb].
    apply units_MB; [split; assumption|].
    simpl in Hu. simpl. tauto.
Qed.

(** ** Loops that store one property per element *)

Lemma fold_from_keyed {A} (f : value -> A -> nat -> M value) (key : nat -> string)
  (g : A -> nat -> option value) (l : list A) :
  (forall i j, key i = key j -> i = j) ->
  (forall props x i st, In x l ->
     f (VObj props) x i st
     = (inr (VObj (match g x i with
                   | Some v => set_own props (key i) v
                   | None => props
                   end)), st)) ->
  forall i props st, exists props',
    fold_from i f l (VObj props) st = (inr (VObj props'), st) /\
    (forall n x, nth_error l n = Some x ->
       own props' (key (i + n)%nat)
       = match g x (i + n)%nat with
         | Some v => v
         | None => own props (key (i + n)%nat)
         end) /\
    (forall k, (forall n, (n < List.length l)%nat -> k <> key (i + n)%nat) ->
       own props' k = own props k).
Proof.
  intros Hinj. induction l as [|x l IH]; intros Hf i props st.
  - exists props. split; [reflexivity|]. split; [|reflexivity].
    intros [|n] y; discriminate.
  - cbn [fold_from]. unfold bind. rewrite (Hf props x i st (or_introl eq_refl)).
    destruct (IH (fun props y j st Hin => Hf props y j st (or_intror Hin)) (S i)
                 (match g x i with Some v => set_own props (key i) v | None => props end) st)
      as (props' & Hrun & Hat & Hother).
    exists props'. split; [exact Hrun|]. split.
    + intros [|n] y Hy.
      * injection Hy as <-. rewrite Nat.add_0_r.
        rewrite Hother.
        -- destruct (g x i); [apply own_set_own_eq | reflexivity].
        -- intros n _ Heq. apply Hinj in Heq. lia.
      * replace (i + S n)%nat with (S i + n)%nat by lia. rewrite (Hat n y Hy).
        destruct (g y (S i + n)%nat); [reflexivity|].
        destruct (g x i); [|reflexivity].
        apply own_set_own_neq. intros Heq. apply Hinj in Heq. lia.
    + intros k Hk. rewrite Hother.
      * destruct (g x i); [|reflexivity].
        apply own_set_own_neq. intros Heq. apply (Hk 0%nat); [simpl; lia|].
        now rewrite Nat.add_0_r.
      * intros n Hn. replace (S i + n)%nat with (i + S n)%nat by lia.
        apply Hk. simpl. lia.
Qed.


Lemma nth_error_strings (l : list string) (n : nat) (x : value) :
  nth_error (map VStr l) n = Some x -> exists s, x = VStr s /\ nth_error l n = Some s.
Proof.
  rewrite nth_error_map. destruct (nth_error l n) as [s|]; [|discriminate].
  intros [= <-]. eauto.
Qed.

(** ** Published and exposed ports *)

Lemma add_ports_run (ps : list string) (i : nat) (props : list (string * value)) st :
  exists props',
    fold_from i add_port (map VStr ps) (VObj props) st = (inr (VObj props'), st) /\
    (forall n p, nth_error ps n = Some p ->
       own props' (port_label (i + n))
       = if (List.length (split ":" p) =? 2)%nat
         then VObj [("static", VNum (parseInt_string (ToString (part (split ":" p) 0))));
                    ("to", VNum (parseInt_string (ToString (part (split ":" p) 1))))]
         else VObj [("to", VNum (parseInt_string p))]) /\
    (forall k, (forall n, (n < List.length ps)%nat -> k <> port_label (i + n)) ->
       own props' k = own props k).
Proof.
  destruct (fold_from_keyed add_port port_label
              (fun x _ =>
                 match x with
                 | VStr p =>
                     Some (if (List.length (split ":" p) =? 2)%nat
                           then VObj [("static", VNum (parseInt (part (split ":" p) 0)));
                                      ("to", VNum (parseInt (part (split ":" p) 1)))]
                           else VObj [("to", VNum (parseInt x))])
                 | _ => None
                 end)
              (map VStr ps) port_label_inj) with (i := i) (props := props) (st := st)
    as (props' & Hrun & Hat & Hother).
  - intros props0 x j st0 Hin. apply in_map_iff in Hin as (p & <- & _). reflexivity.
  - exists props'. split; [exact Hrun|]. split.
    + intros n p Hp. rewrite (Hat n (VStr p)) by now apply map_nth_error. reflexivity.
    + intros k Hk. apply Hother. intros n Hn. apply Hk. now rewrite length_map in Hn.
Qed.


Lemma convertNetworking_published options service ps st :
  is_nullish service = false ->
  prop service "ports" = strings ps ->
  truthy (prop service "expose") = false ->
  convertNetworking options service st
  = (x <- fold_from 0 add_port (map VStr ps) (VObj []) ;;
     ret (VObj [("mode", VStr (NetworkMode_text (Required.networkMode options)));
                ("port", x)])) st.
Proof.
  intros Hnn Hports Hexpose. unfold convertNetworking.
  unfold bind at 1. unfold get at 1. rewrite Hnn. unfold ret at 1. rewrite Hports, Hexpose.
  unfold strings. cbn [truthy array_method]. unfold bind at 1. unfold ret at 1.
  unfold bind. destruct (fold_from 0 add_port (map VStr ps) (VObj []) st) as [[e|x] st1];
    reflexivity.
Qed.

(** The entry of a port string, for the forms of the short syntax. *)
Lemma short_port_entry (p first second suffix : string) :
  first <> EmptyString -> all_digits first = true ->
  second <> EmptyString -> all_digits second = true ->
  In suffix protocol_suffixes ->
  let entry :=
    if (List.length (split ":" p) =? 2)%nat
    then VObj [("static", VNum (parseInt_string (ToString (part (split ":" p) 0))));
               ("to", VNum (parseInt_string (ToString (part (split ":" p) 1))))]
    else VObj [("to", VNum (parseInt_string p))] in
  (p = first ++ ":" ++ second ++ suffix ->
   entry = VObj [("static", VNum (Number_value (digits_value first)));
                 ("to", VNum (Number_value (digits_value second)))]) /\
  (p = first ++ suffix -> entry = VObj [("to", VNum (Number_value (digits_value first)))]) /\
  (forall tail,
     p = first ++ "." ++ tail -> List.length (split ":" p) <> 2%nat ->
     entry = VObj [("to", VNum (Number_value (digits_value first)))]).
Proof.
  intros Hf1 Hf2 Hs1 Hs2 Hsuffix entry. subst entry.
  destruct (suffix_is_plain suffix Hsuffix) as [Hfree Hplain].
  split; [|split].
  - intros ->.
    assert (Hsplit : split ":" (first ++ ":" ++ second ++ suffix)
                     = [first; (second ++ suffix)%string]).
    { change (first ++ ":" ++ second ++ suffix)%string
        with (first ++ String ":" (second ++ suffix))%string.
      rewrite split_app by now apply digits_free_of_colon.
      rewrite split_free; [reflexivity|].
      apply free_of_app; [now apply digits_free_of_colon | assumption]. }
    rewrite Hsplit. cbn [List.length Nat.eqb part nth_error ToString].
    rewrite <- (append_nil_r first) at 1.
    rewrite !parseInt_digits_then; auto.
  - intros ->.
    assert (Hsplit : split ":" (first ++ suffix) = [(first ++ suffix)%string]).
    { apply split_free. apply free_of_app; [now apply digits_free_of_colon | assumption]. }
    rewrite Hsplit. cbn [List.length Nat.eqb].
    rewrite parseInt_digits_then; auto.
  - intros tail -> Hlen. apply Nat.eqb_neq in Hlen. rewrite Hlen.
    rewrite parseInt_digits_then; auto. split; reflexivity.
Qed.


(** X10. The short syntax of published ports.  For a service whose [ports] are
    strings and which exposes nothing, [convertNetworking] returns a network
    block in which the port of index [i] is found under the label "port_<i>":
    "H:C" gives the static port H and the target C, "C" alone gives the target
    only, in both cases also with a protocol suffix "/tcp" or "/udp", which is
    dropped.  A string that does not split into two parts at ":" (such as an
    address, a host port and a target) is read by [parseInt] as a whole: its
    leading digits become the target, and there is no static port.  The
    numbers stored are the Number values of the digits: the digits
    themselves up to 2^53. *)
Theorem published_ports_short_syntax
  (options : Required.Options) (service : value) (ps : list string)
  (i : nat) (p : string) (st : diag) :
  is_nullish service = false ->
  prop service "ports" = strings ps ->
  truthy (prop service "expose") = false ->
  nth_error ps i = Some p ->
  exists ports,
    convertNetworking options service st
    = (inr (VObj [("mode", VStr (NetworkMode_text (Required.networkMode options)));
                  ("port", VObj ports)]), st) /\
    (forall (first second suffix : string),
       first <> EmptyString -> all_digits first = true ->
       second <> EmptyString -> all_digits second = true ->
       In suffix protocol_suffixes ->
       (p = first ++ ":" ++ second ++ suffix ->
        own ports (port_label i)
        = VObj [("static", VNum (Number_value (digits_value first)));
                ("to", VNum (Number_value (digits_value second)))]) /\
       (p = first ++ suffix ->
        own ports (port_label i)
        = VObj [("to", VNum (Number_value (digits_value first)))]) /\
       (forall tail,
          p = first ++ "." ++ tail -> List.length (split ":" p) <> 2%nat ->
          own ports (port_label i)
          = VObj [("to", VNum (Number_value (digits_value first)))])) /\
    (forall z, Z.abs z <= 2 ^ 53 -> Number_value z = num z).
Proof.
  intros Hnn Hports Hexpose Hp.
  rewrite (convertNetworking_published options service ps st Hnn Hports Hexpose).
  destruct (add_ports_run ps 0 [] st) as (ports & Hrun & Hat & _).
  exists ports. unfold bind. rewrite Hrun. split; [reflexivity|].
  split; [|exact binary64_integer].
  intros first second suffix Hf1 Hf2 Hs1 Hs2 Hsuffix.
  specialize (Hat i p Hp). rewrite Nat.add_0_l in Hat. rewrite Hat.
  exact (short_port_entry p first second suffix Hf1 Hf2 Hs1 Hs2 Hsuffix).
Qed.

Lemma suffix_of_eqb (r : string) :
  ((r =? "") || (r =? "/tcp") || (r =? "/udp"))%string = true -> In r protocol_suffixes.
Proof.
  intros H. repeat (apply orb_true_iff in H as [H|H]); apply String.eqb_eq in H; subst;
    simpl; auto.
Qed.

(** The strings that the validator's pattern for ports matches. *)
Lemma port_format_forms (p : string) :
  port_format p = true ->
  exists first suffix,
    first <> EmptyString /\ all_digits first = true /\ In suffix protocol_suffixes /\
    (p = (first ++ suffix)%string \/
     exists second,
       second <> EmptyString /\ all_digits second = true /\
       p = (first ++ ":" ++ second ++ suffix)%string).
Proof.
  unfold port_format.
  destruct (span is_digit p) as [d1 r1] eqn:E1.
  destruct (span_spec _ _ _ _ E1) as (-> & Hd1 & _).
  destruct d1 as [|c d1]; [discriminate|].
  assert (Hne : String c d1 <> EmptyString) by discriminate.
  destruct r1 as [|x r].
  - intros _. exists (String c d1), EmptyString.
    split; [exact Hne|]. split; [exact Hd1|]. split; [simpl; auto|]. now left.
  - destruct (Ascii.eqb_spec x ":") as [->|Hx].
    + destruct (span is_digit r) as [d2 r'] eqn:E2.
      destruct (span_spec _ _ _ _ E2) as (-> & Hd2 & _).
      destruct d2 as [|c2 d2].
      * intros H. apply suffix_of_eqb in H. simpl in H.
        decompose [or] H; try discriminate; contradiction.
      * intros H. apply suffix_of_eqb in H.
        exists (String c d1), r'. split; [exact Hne|]. split; [exact Hd1|].
        split; [exact H|]. right. exists (String c2 d2).
        split; [discriminate|]. split; [exact Hd2|]. reflexivity.
    + assert (Hmatch : forall T (a b : T),
                match String x r with
                | String ":" r0 => a
                | _ => b
                end = b).
      { intros T a b. destruct x as [[] [] [] [] [] [] [] []]; try reflexivity.
        now contradiction Hx. }
      rewrite Hmatch. intros H. apply suffix_of_eqb in H.
      exists (String c d1), (String x r). split; [exact Hne|]. split; [exact Hd1|].
      split; [exact H|]. now left.
Qed.

(** X11. A published port for which the validator gives no warning (it matches
    the validator's pattern) is converted as written: it is "C" or "H:C",
    possibly followed by "/tcp" or "/udp", and the network block has under
    "port_<i>" the target C and, in the second form, the static port H, as
    the Number values of their digits (the digits themselves up to 2^53). *)
Theorem ports_without_a_warning_convert_as_written
  (options : Required.Options) (service : value) (ps : list string)
  (i : nat) (p : string) (st : diag) :
  is_nullish service = false ->
  prop service "ports" = strings ps ->
  truthy (prop service "expose") = false ->
  nth_error ps i = Some p ->
  port_format p = true ->
  exists ports first suffix,
    convertNetworking options service st
    = (inr (VObj [("mode", VStr (NetworkMode_text (Required.networkMode options)));
                  ("port", VObj ports)]), st) /\
    first <> EmptyString /\ all_digits first = true /\ In suffix protocol_suffixes /\
    ((p = (first ++ suffix)%string /\
      own ports (port_label i) = VObj [("to", VNum (Number_value (digits_value first)))]) \/
     exists second,
       second <> EmptyString /\ all_digits second = true /\
       p = (first ++ ":" ++ second ++ suffix)%string /\
       own ports (port_label i)
       = VObj [("static", VNum (Number_value (digits_value first)));
               ("to", VNum (Number_value (digits_value second)))]) /\
    (forall z, Z.abs z <= 2 ^ 53 -> Number_value z = num z).
Proof.
  intros Hnn Hports Hexpose Hp Hformat.
  rewrite (convertNetworking_published options service ps st Hnn Hports Hexpose).
  destruct (add_ports_run ps 0 [] st) as (ports & Hrun & Hat & _).
  specialize (Hat i p Hp). rewrite Nat.add_0_l in Hat.
  destruct (port_format_forms p Hformat) as (first & suffix & Hne & Hd & Hsuffix & Hform).
  exists ports, first, suffix. unfold bind. rewrite Hrun.
  split; [reflexivity|]. split; [exact Hne|]. split; [exact Hd|]. split; [exact Hsuffix|].
  split; [|exact binary64_integer].
  destruct Hform as [Hp1|(second & Hne2 & Hd2 & Hp2)].
  - left. split; [exact Hp1|]. rewrite Hat.
    exact (proj1 (proj2 (short_port_entry p first first suffix Hne Hd Hne Hd Hsuffix)) Hp1).
  - right. exists second. split; [exact Hne2|]. split; [exact Hd2|]. split; [exact Hp2|].
    rewrite Hat.
    exact (proj1 (short_port_entry p first second suffix Hne Hd Hne2 Hd2 Hsuffix) Hp2).
Qed.




(** ** Volumes and mounts *)

Lemma add_volumes_run (vs : list string) (i : nat) (props : list (string * value)) st :
  exists props',
    fold_from i add_volume (map VStr vs) (VObj props) st = (inr (VObj props'), st) /\
    (forall n v, nth_error vs n = Some v ->
       own props' (volume_name (i + n))
       = VObj [("type", VStr (if startsWith (nth 0 (split ":" v) "") "/"
                              then "host" else "csi"));
               ("source", VStr (nth 0 (split ":" v) ""));
               ("read_only", mode_read_only (split ":" v))]).
Proof.
  destruct (fold_from_keyed add_volume volume_name
              (fun x _ =>
                 match x with
                 | VStr v =>
                     Some (VObj [("type", VStr (if startsWith (nth 0 (split ":" v) "") "/"
                                                then "host" else "csi"));
                                 ("source", VStr (nth 0 (split ":" v) ""));
                                 ("read_only", mode_read_only (split ":" v))])
                 | _ => None
                 end)
              (map VStr vs) volume_name_inj) with (i := i) (props := props) (st := st)
    as (props' & Hrun & Hat & _).
  - intros props0 x j st0 Hin. apply in_map_iff in Hin as (v & <- & _). reflexivity.
  - exists props'. split; [exact Hrun|].
    intros n v Hv. rewrite (Hat n (VStr v)) by now apply map_nth_error. reflexivity.
Qed.

Lemma add_mounts_run (vs : list string) (i : nat) (props : list (string * value)) st :
  exists props',
    fold_from i add_mount (map VStr vs) (VObj props) st = (inr (VObj props'), st) /\
    (forall n v, nth_error vs n = Some v ->
       own props' (mount_name (i + n))
       = if (2 <=? List.length (split ":" v))%nat
         then VObj [("volume", VStr (volume_name (i + n)));
                    ("destination", part (split ":" v) 1);
                    ("read_only", mode_read_only (split ":" v))]
         else own props (mount_name (i + n))).
Proof.
  destruct (fold_from_keyed add_mount mount_name
              (fun x j =>
                 match x with
                 | VStr v =>
                     if (2 <=? List.length (split ":" v))%nat
                     then Some (VObj [("volume", VStr (volume_name j));
                                      ("destination", part (split ":" v) 1);
                                      ("read_only", mode_read_only (split ":" v))])
                     else None
                 | _ => None
                 end)
              (map VStr vs) mount_name_inj) with (i := i) (props := props) (st := st)
    as (props' & Hrun & Hat & _).
  - intros props0 x j st0 Hin. apply in_map_iff in Hin as (v & <- & _).
    unfold add_mount, ret. destruct (2 <=? List.length (split ":" v))%nat; reflexivity.
  - exists props'. split; [exact Hrun|].
    intros n v Hv. rewrite (Hat n (VStr v)) by now apply map_nth_error.
    destruct (2 <=? List.length (split ":" v))%nat; reflexivity.
Qed.

(** X13. Volumes in the short syntax.  The volume of index [i] is stored as
    "volume_<i>", of type "host" when its source begins with "/" and "csi"
    otherwise (so also for a relative path), and the mount "mount_<i>" refers
    to "volume_<i>" with the second segment as destination.  A third segment
    makes both read-only exactly when it contains "ro".  A volume with a
    single segment is declared but has no mount. *)
Theorem short_volumes_and_their_mounts
  (service composeVolumes : value) (vs : list string) (i : nat) (v : string) (st : diag) :
  is_nullish service = false ->
  prop service "volumes" = strings vs ->
  nth_error vs i = Some v ->
  exists volumes mounts,
    convertVolumes service composeVolumes st = (inr (VObj volumes), st) /\
    convertVolumeMounts (prop service "volumes") st = (inr (VObj mounts), st) /\
    forall source, free_of ":" source = true ->
      let type := VStr (if startsWith source "/" then "host" else "csi") in
      (v = source ->
       own volumes (volume_name i)
       = VObj [("type", type); ("source", VStr source); ("read_only", VBool false)] /\
       own mounts (mount_name i) = VUndefined) /\
      forall destination, free_of ":" destination = true ->
        (v = source ++ ":" ++ destination ->
         own volumes (volume_name i)
         = VObj [("type", type); ("source", VStr source); ("read_only", VBool false)] /\
         own mounts (mount_name i)
         = VObj [("volume", VStr (volume_name i)); ("destination", VStr destination);
                 ("read_only", VBool false)]) /\
        forall mode, free_of ":" mode = true ->
          v = source ++ ":" ++ destination ++ ":" ++ mode ->
          own volumes (volume_name i)
          = VObj [("type", type); ("source", VStr source);
                  ("read_only", VBool (includes mode "ro"))] /\
          own mounts (mount_name i)
          = VObj [("volume", VStr (volume_name i)); ("destination", VStr destination);
                  ("read_only", VBool (includes mode "ro"))].
Proof.
  intros Hnn Hvolumes Hv.
  destruct (add_volumes_run vs 0 [] st) as (volumes & Hrun1 & Hat1).
  destruct (add_mounts_run vs 0 [] st) as (mounts & Hrun2 & Hat2).
  exists volumes, mounts. split; [|split].
  - unfold convertVolumes. unfold bind at 1. unfold get at 1. rewrite Hnn. unfold ret at 1.
    rewrite Hvolumes. unfold strings. cbn [truthy array_method].
    unfold bind at 1. unfold ret at 1. exact Hrun1.
  - rewrite Hvolumes. unfold convertVolumeMounts, strings. cbn [truthy negb array_method].
    unfold bind at 1. unfold ret at 1. exact Hrun2.
  - specialize (Hat1 i v Hv). specialize (Hat2 i v Hv). rewrite Nat.add_0_l in Hat1, Hat2.
    intros source Hsource type. split.
    + intros ->. rewrite Hat1, Hat2, split_free by assumption. split; reflexivity.
    + intros destination Hdestination. split.
      * intros ->.
        change (source ++ ":" ++ destination)%string
          with (source ++ String ":" destination)%string in *.
        rewrite Hat1, Hat2, split_app, split_free by assumption. split; reflexivity.
      * intros mode Hmode ->.
        change (source ++ ":" ++ destination ++ ":" ++ mode)%string
          with (source ++ String ":" (destination ++ String ":" mode))%string in *.
        rewrite Hat1, Hat2, !split_app, split_free by assumption. split; reflexivity.
Qed.

(** ** Words and [split(/\s+/)] *)

Lemma span_word (a rest : string) :
  forallb (fun c => negb (is_space c)) (list_ascii_of_string a) = true ->
  match rest with String c _ => is_space c = true | EmptyString => True end ->
  span (fun c => negb (is_space c)) (a ++ rest) = (a, rest).
Proof.
  induction a as [|c a IH]; simpl; intros Ha Hr.
  - destruct rest as [|c r]; simpl; [reflexivity | now rewrite Hr].
  - apply andb_true_iff in Ha as [Hc Ha]. rewrite Hc, IH; auto.
Qed.

Lemma dropWhile_word (a rest : string) :
  is_word a = true -> dropWhile is_space (String " " (a ++ rest)) = (a ++ rest)%string.
Proof.
  unfold is_word, dropWhile. intros H. apply andb_true_iff in H as [Hne Ha].
  destruct a as [|c a]; [discriminate|]. simpl in Ha. apply andb_true_iff in Ha as [Hc _].
  apply negb_true_iff in Hc. simpl. now rewrite Hc.
Qed.

Lemma split_spaces_three (fuel : nat) (a b c : string) :
  is_word a = true -> is_word b = true -> is_word c = true ->
  split_spaces_from (S (S (S fuel))) (a ++ " " ++ b ++ " " ++ c) = [a; b; c].
Proof.
  intros Ha Hb Hc.
  pose proof Ha as Ha'. pose proof Hb as Hb'. pose proof Hc as Hc'.
  unfold is_word in Ha', Hb', Hc'.
  apply andb_true_iff in Ha' as [_ Ha']. apply andb_true_iff in Hb' as [_ Hb'].
  apply andb_true_iff in Hc' as [_ Hc'].
  change (a ++ " " ++ b ++ " " ++ c)%string
    with (a ++ String " " (b ++ String " " c))%string.
  cbn [split_spaces_from].
  rewrite (span_word a (String " " (b ++ String " " c)) Ha' eq_refl).
  rewrite (dropWhile_word b _ Hb). rewrite (span_word b (String " " c) Hb' eq_refl).
  rewrite <- (append_nil_r c) at 1. rewrite (dropWhile_word c _ Hc).
  rewrite (span_word c "" Hc' I). reflexivity.
Qed.


Lemma length_append (a b : string) :
  String.length (a ++ b) = (String.length a + String.length b)%nat.
Proof. induction a; simpl; congruence. Qed.

Lemma split_spaces_words (a b c : string) :
  is_word a = true -> is_word b = true -> is_word c = true ->
  split_spaces (a ++ " " ++ b ++ " " ++ c) = [a; b; c].
Proof.
  intros Ha Hb Hc. unfold split_spaces.
  assert (Hlen : exists fuel, String.length (a ++ " " ++ b ++ " " ++ c) = S (S fuel)).
  { rewrite length_append. cbn [append String.length]. rewrite length_append.
    cbn [append String.length]. exists (String.length a + (String.length b + String.length c))%nat.
    lia. }
  destruct Hlen as (fuel & ->). now apply split_spaces_three.
Qed.

(** X14. The conversion of a placement constraint always returns, and the
    operator of the result is one of the operators Nomad knows.  For a
    constraint of three words "attribute operator value" the three fields are
    the three words, except that an operator that is not valid (such as "==")
    is replaced by "=". *)
Theorem constraints_keep_a_valid_operator (text : string) (st : diag) :
  exists constraint,
    convertConstraint (VStr text) st = (inr constraint, st) /\
    (exists operator,
       prop constraint "operator" = VStr operator /\ In operator validOperators) /\
    forall attribute operator value,
      is_word attribute = true -> is_word operator = true -> is_word value = true ->
      text = attribute ++ " " ++ operator ++ " " ++ value ->
      constraint
      = VObj [("attribute", VStr attribute);
              ("operator", VStr (if existsb (String.eqb operator) validOperators
                                 then operator else "="));
              ("value", VStr value)].
Proof.
  eexists. split; [reflexivity|]. split.
  - destruct (3 <=? List.length (split_spaces text))%nat.
    + destruct (existsb (String.eqb (nth 1 (split_spaces text) "")) validOperators) eqn:E.
      * exists (nth 1 (split_spaces text) ""). cbn [prop own String.eqb Ascii.eqb Bool.eqb].
        rewrite E. split; [reflexivity|].
        apply existsb_exists in E as (x & Hin & Heq). apply String.eqb_eq in Heq. now subst.
      * exists "=". cbn [prop own String.eqb Ascii.eqb Bool.eqb]. rewrite E.
        split; [reflexivity | now left].
    + exists "=". split; [reflexivity | now left].
  - intros attribute operator value Ha Ho Hv ->.
    rewrite (split_spaces_words attribute operator value Ha Ho Hv). reflexivity.
Qed.

(** ** Labels *)

Lemma split_first_equals (key value : string) :
  no_equals key = true ->
  split "=" (key ++ "=" ++ value) = key :: split "=" value.
Proof. intros Hk. now apply (split_app "=" key value). Qed.

(** X15. Labels in the array form are split with a limit of two: of the label
    "key=value" only what precedes the next '=' in the value is kept (the
    same text as an environment entry keeps the whole value), and a label
    without '=' is dropped. *)
Theorem array_labels_are_cut_at_a_second_equals
  (props : list (string * value)) (label : string) (st : diag) :
  exists labels,
    add_label (VObj props) (VStr label) st = (inr labels, st) /\
    (no_equals label = true -> labels = VObj props) /\
    forall key value,
      no_equals key = true -> key <> EmptyString -> label = key ++ "=" ++ value ->
      labels = VObj (set_own props key (VStr (fst (key_value value)))) /\
      add_env_entry (VObj props) (VStr label) st
      = (inr (VObj (set_own props key (VStr value))), st).
Proof.
  assert (Henv : forall key value,
            no_equals key = true -> key <> EmptyString -> label = key ++ "=" ++ value ->
            add_env_entry (VObj props) (VStr label) st
            = (inr (VObj (set_own props key (VStr value))), st)).
  { intros key value Hkey Hne ->.
    rewrite add_env_entry_run, (key_value_first_equals key value Hkey).
    apply String.eqb_neq in Hne. now rewrite Hne. }
  unfold add_label, destructured, bind, ret.
  destruct (split "=" label) as [|p [|q ps]] eqn:Hsplit; cbn [firstn];
    (eexists; split; [reflexivity|]); (split; [|intros key value Hkey Hne Hlabel;
       split; [|now apply Henv]]); try reflexivity.
  - exfalso. subst label. rewrite (split_first_equals key value Hkey) in Hsplit. discriminate.
  - exfalso. subst label. rewrite (split_first_equals key value Hkey) in Hsplit.
    destruct (split_key_value value) as (parts & Hv & _). rewrite Hv in Hsplit. discriminate.
  - intros Hfree. rewrite (split_free "=" label Hfree) in Hsplit. discriminate.
  - subst label. rewrite (split_first_equals key value Hkey) in Hsplit.
    destruct (split_key_value value) as (parts & Hv & _). rewrite Hv in Hsplit.
    injection Hsplit as <- <- _. apply String.eqb_neq in Hne. now rewrite Hne.
Qed.

(** ** Templates *)

Lemma fold_from_push {A B} (f : list B -> A -> nat -> M (list B)) (g : A -> list B)
  (l : list A) :
  (forall acc x i st, In x l -> f acc x i st = (inr (acc ++ g x)%list, st)) ->
  forall i acc st, fold_from i f l acc st = (inr (acc ++ flat_map g l)%list, st).
Proof.
  induction l as [|x l IH]; intros Hf i acc st; cbn [fold_from flat_map].
  - unfold ret. now rewrite app_nil_r.
  - unfold bind. rewrite (Hf acc x i st (or_introl eq_refl)).
    rewrite IH by (intros; apply Hf; now right). now rewrite <- app_assoc.
Qed.

(** A config is found in the declared ones when it is declared with a
    truthy body, and also when its name is one that every object inherits. *)
Lemma truthy_bracket_object (declared : list (string * value)) (k : string) :
  truthy (bracket_opt (VObj declared) k)
  = if has_own declared k then truthy (own declared k) else inherited_name k.
Proof.
  unfold bracket_opt. cbn [is_nullish].
  destruct (has_own declared k) eqn:E.
  - now rewrite bracket_present.
  - now apply bracket_absent.
Qed.

(** X16. Templates.  For a service whose [configs] and [secrets] are arrays of
    names and a document whose [configs] section is a mapping,
    [convertConfigsAndSecrets] returns, in this order, one template with
    destination "local/<name>" for each config that is found in the section
    and one template with destination "secrets/<name>" for every secret,
    declared or not.  A config is found when the section declares it (with a
    body), and also when its name is one that every object inherits, such as
    [toString]; any other config is dropped silently. *)
Theorem every_secret_and_each_config_found_gets_a_template
  (service compose : value) (cs ss : list string) (declared : list (string * value))
  (st : diag) :
  is_nullish service = false ->
  is_nullish compose = false ->
  prop service "configs" = strings cs ->
  prop service "secrets" = strings ss ->
  prop compose "configs" = VObj declared ->
  exists templates,
    convertConfigsAndSecrets service compose st = (inr templates, st) /\
    map (fun template => prop template "destination") templates
    = (map (fun config => VStr ("local/" ++ config))
           (filter (fun config =>
                      if has_own declared config then truthy (own declared config)
                      else inherited_name config) cs)
       ++ map (fun secret => VStr ("secrets/" ++ secret)) ss)%list.
Proof.
  intros Hs Hc Hconfigs Hsecrets Hdeclared.
  unfold convertConfigsAndSecrets.
  unfold bind at 1. unfold get at 1. rewrite Hs. unfold ret at 1.
  rewrite Hconfigs, Hsecrets. unfold strings. cbn [truthy array_method].
  unfold bind at 1. unfold bind at 1. unfold ret at 1.
  rewrite (fold_from_push _
             (fun config =>
                match config with
                | VStr c =>
                    if truthy (bracket_opt (VObj declared) c)
                    then [VObj [("destination", VStr ("local/" ++ c));
                                ("embedded_tmpl",
                                 or_else (prop (bracket_opt (VObj declared) c) "content")
                                         (VStr ("# Config: " ++ c)));
                                ("change_mode", VStr "restart")]]
                    else []
                | _ => []
                end)).
  2:{ intros acc x i st0 Hin. apply in_map_iff in Hin as (c & <- & _).
      unfold reference_name, bind, get, ret. cbn [isString]. rewrite Hc, Hdeclared.
      cbn [ToString reference_target isString]. unfold push.
      destruct (truthy (bracket_opt (VObj declared) c)); [reflexivity|].
      now rewrite app_nil_r. }
  unfold bind at 1. unfold ret at 1.
  rewrite (fold_from_push _
             (fun secret =>
                match secret with
                | VStr s =>
                    [VObj [("destination", VStr ("secrets/" ++ s));
                           ("embedded_tmpl",
                            VStr ("{{ with secret " ++ double_quote ++ "secret/data/"
                                  ++ s ++ double_quote
                                  ++ " }}{{ .Data.data.value }}{{ end }}"));
                           ("change_mode", VStr "restart")]]
                | _ => []
                end)).
  2:{ intros acc x i st0 Hin. apply in_map_iff in Hin as (s & <- & _). reflexivity. }
  eexists. split; [reflexivity|]. cbn [app]. rewrite map_app. f_equal.
  - clear. induction cs as [|c cs IH]; [reflexivity|]. cbn [map flat_map filter].
    rewrite <- truthy_bracket_object.
    destruct (truthy (bracket_opt (VObj declared) c)); cbn [app map]; now rewrite IH.
  - clear. induction ss as [|s ss IH]; [reflexivity|]. cbn [map flat_map app]. now rewrite IH.
Qed.

(** ** The forms of a health check's test *)

Lemma join_values_single (sep : string) (v : value) :
  is_nullish v = false -> join_values sep [v] = ToString v.
Proof. intros Hv. unfold join_values. cbn [map]. rewrite Hv. reflexivity. Qed.

(** X17. The forms of a health check's [test].  A script given as a string
    and the same script given as the array ["CMD-SHELL", script] convert to
    the same check, which runs "/bin/sh" with the arguments "-c" and the
    script.  An array whose first element is neither "CMD" nor "CMD-SHELL"
    (such as ["NONE"]) gives a check without command. *)
Theorem shell_tests_agree_in_both_forms (script : string) (rest : list (string * value)) :
  script <> EmptyString ->
  truthy (own rest "disable") = false ->
  convertHealthCheck (tested (VArr [VStr "CMD-SHELL"; VStr script]) rest)
  = convertHealthCheck (tested (VStr script) rest) /\
  prop (convertHealthCheck (tested (VStr script) rest)) "command" = VStr "/bin/sh" /\
  prop (convertHealthCheck (tested (VStr script) rest)) "args"
  = VArr [VStr "-c"; VStr script] /\
  forall first others,
    first <> "CMD" -> first <> "CMD-SHELL" ->
    convertHealthCheck (tested (VArr (VStr first :: others)) rest)
    = script_check (tested (VArr (VStr first :: others)) rest).
Proof.
  intros Hscript Hdisable. apply String.eqb_neq in Hscript.
  unfold convertHealthCheck, tested, script_check.
  cbn [truthy negb orb prop own String.eqb Ascii.eqb Bool.eqb andb].
  rewrite Hdisable, Hscript.
  cbn [negb nth is_str String.eqb Ascii.eqb Bool.eqb andb tl set].
  rewrite (join_values_single " " (VStr script) eq_refl). cbn [ToString].
  split; [reflexivity|]. split; [reflexivity|]. split; [reflexivity|].
  intros first others Hcmd Hshell.
  apply String.eqb_neq in Hcmd, Hshell. now rewrite Hcmd, Hshell.
Qed.

(** ** The task group of a service *)

Lemma prop_set_neq obj k k' v : k <> k' -> prop (set obj k v) k' = prop obj k'.
Proof. intros Hne. destruct obj; try reflexivity. simpl. now apply own_set_own_neq. Qed.

Lemma bind_returns {A B} (m : M A) (k : A -> M B) st b st' :
  bind m k st = (inr b, st') ->
  exists a st1, m st = (inr a, st1) /\ k a st1 = (inr b, st').
Proof.
  unfold bind. destruct (m st) as [[e|a] st1]; [discriminate|]. eauto.
Qed.

Lemma update_keeps (c : bool) (m : M value) k obj st a st' k' :
  (if c then bind m (fun x => ret (set obj k x)) else ret obj) st = (inr a, st') ->
  k <> k' -> prop a k' = prop obj k'.
Proof.
  intros Hrun Hne. destruct c.
  - apply bind_returns in Hrun as (x & st1 & _ & Hret). injection Hret as <- _.
    now apply prop_set_neq.
  - now injection Hrun as <- _.
Qed.

Lemma taskGroup_of_count options serviceName service compose st taskGroup st' :
  taskGroup_of options serviceName service compose st = (inr taskGroup, st') ->
  prop taskGroup "count"
  = or_else (get_opt (prop service "deploy") "replicas") (VNum (num 1)) /\
  exists task st1 st2,
    convertServiceToTask options serviceName service compose st1 = (inr task, st2) /\
    prop taskGroup "task" = (if truthy task then VObj [(serviceName, task)] else VObj []).
Proof.
  unfold taskGroup_of. intros Hrun.
  apply bind_returns in Hrun as (count & st1 & Hcount & Hrun).
  apply bind_returns in Hrun as (task & st2 & Htask & Hrun). cbv zeta in Hrun.
  apply bind_returns in Hrun as (tg1 & st3 & H1 & Hrun).
  apply bind_returns in Hrun as (composeVolumes & st4 & _ & Hrun).
  apply bind_returns in Hrun as (tg2 & st5 & H2 & Hrun).
  apply bind_returns in Hrun as (nomadServices & st6 & _ & Hrun).
  set (tg3 := if (0 <? List.length nomadServices)%nat
              then set tg2 "service" (VArr nomadServices) else tg2) in Hrun.
  assert (Hkeep : forall k, In k ["count"; "task"] ->
            prop taskGroup k = prop (VObj [("count", count); ("task",
                 if truthy task then VObj [(serviceName, task)] else VObj [])]) k).
  { intros k Hk.
    assert (Hne : forall k', In k' ["network"; "volume"; "service"; "restart"] -> k' <> k).
    { intros k' Hk' ->. simpl in Hk, Hk'.
      decompose [or] Hk; decompose [or] Hk'; subst; try discriminate; contradiction. }
    rewrite (update_keeps _ _ _ _ _ _ _ k Hrun) by (apply Hne; simpl; tauto).
    assert (H3 : prop tg3 k = prop tg2 k).
    { unfold tg3. destruct (0 <? List.length nomadServices)%nat; [|reflexivity].
      apply prop_set_neq. apply Hne. simpl; tauto. }
    rewrite H3.
    rewrite (update_keeps _ _ _ _ _ _ _ k H2) by (apply Hne; simpl; tauto).
    rewrite (update_keeps _ _ _ _ _ _ _ k H1) by (apply Hne; simpl; tauto).
    destruct (truthy task); reflexivity. }
  split.
  - rewrite Hkeep by (simpl; tauto). cbn [prop own String.eqb Ascii.eqb Bool.eqb].
    revert Hcount. unfold getServiceReplicas.
    intros Hcount. apply bind_returns in Hcount as (deploy & st0 & Hdeploy & Hret).
    injection Hret as <- _. revert Hdeploy. unfold get.
    destruct (is_nullish service); [discriminate|]. now intros [= <- _].
  - exists task, st1, st2. split; [exact Htask|].
    rewrite Hkeep by (simpl; tauto). reflexivity.
Qed.

(** X18. The count of a task group is [deploy.replicas] when that is truthy
    and 1 otherwise; it is never falsy.  In particular [replicas: 0] gives
    the count 1. *)
Theorem a_group_never_has_count_zero
  (options : Required.Options) (serviceName : string) (service compose : value)
  (st st' : diag) (taskGroup : value) :
  taskGroup_of options serviceName service compose st = (inr taskGroup, st') ->
  prop taskGroup "count"
  = or_else (get_opt (prop service "deploy") "replicas") (VNum (num 1)) /\
  truthy (prop taskGroup "count") = true /\
  (get_opt (prop service "deploy") "replicas" = VNum (num 0) ->
   prop taskGroup "count" = VNum (num 1)).
Proof.
  intros Hrun. destruct (taskGroup_of_count _ _ _ _ _ _ _ Hrun) as [Hcount _].
  rewrite Hcount. split; [reflexivity|]. split.
  - unfold or_else. destruct (truthy (get_opt _ "replicas")) eqn:E; [exact E | reflexivity].
  - now intros ->.
Qed.

(** ** Dependencies *)

Lemma apart_when (w : string) (b b' : bool) :
  apart_from w b b' (when b (push_warning w)) (when b' (push_warning w)).
Proof.
  exists (inr tt), [], [], [], true. split; [|reflexivity].
  intros st. cbn [andb app]. rewrite !app_nil_r.
  destruct b, b'; unfold when, push_warning, ret; destruct st; cbn [warnings errors];
    rewrite ?app_nil_r; split; reflexivity.
Qed.

Lemma bind_pointwise {A B} (m : M A) (k k' : A -> M B) (st : diag) :
  (forall a st', k a st' = k' a st') -> bind m k st = bind m k' st.
Proof. intros Hk. unfold bind. destruct (m st) as [[e|a] st']; [reflexivity | apply Hk]. Qed.

(** A common prefix that does not read the diagnostics. *)
Lemma apart_bind_l {A B} (w : string) (b b' : bool) (m : M A) (k k' : A -> M B) :
  oblivious m -> (forall a, apart_from w b b' (k a) (k' a)) ->
  apart_from w b b' (bind m k) (bind m k').
Proof.
  intros (r & ws & es & Hm) Hk. destruct r as [e|a].
  - exists (inl e), ws, [], es, false. split; [|discriminate].
    intros st. unfold bind. rewrite Hm. cbn [andb app]. rewrite app_nil_r. now split.
  - destruct (Hk a) as (r & before & after & es' & reached & Hrun & Hret).
    exists r, (ws ++ before)%list, after, (es ++ es')%list, reached. split; [|exact Hret].
    intros st. unfold bind. rewrite Hm.
    destruct (Hrun (Diag (warnings st ++ ws) (errors st ++ es))) as [H1 H2].
    rewrite H1, H2. cbn [warnings errors]. rewrite <- !app_assoc. now split.
Qed.

(** A common continuation that does not read the diagnostics. *)
Lemma apart_bind_r {A B} (w : string) (b b' : bool) (m m' : M A) (k k' : A -> M B) :
  apart_from w b b' m m' -> (forall a, oblivious (k a)) ->
  (forall a st, k' a st = k a st) ->
  apart_from w b b' (bind m k) (bind m' k').
Proof.
  intros (r & before & after & es & reached & Hrun & Hret) Hk Hsame. destruct r as [e|a].
  - exists (inl e), before, after, es, reached. split; [|discriminate].
    intros st. unfold bind. destruct (Hrun st) as [H1 H2]. rewrite H1, H2. now split.
  - destruct (Hk a) as (r & ws & es' & Hka).
    exists r, before, (after ++ ws)%list, (es ++ es')%list, reached.
    split; [|intros; now apply (Hret a)].
    intros st. unfold bind. destruct (Hrun st) as [H1 H2]. rewrite H1, H2, Hsame, !Hka.
    cbn [warnings errors]. rewrite <- !app_assoc. now split.
Qed.

(** Rewriting the reads of a service that differs in one field. *)
Ltac rewrite_own props H :=
  repeat match goal with
         | |- context [own props ?k] => rewrite (H k) by discriminate
         end.

Section SameService.

Variables (props props' : list (string * value)).
Hypothesis Hsame : same_but "depends_on" props props'.

Lemma same_getServiceReplicas :
  getServiceReplicas (VObj props) = getServiceReplicas (VObj props').
Proof. unfold getServiceReplicas, get. cbn [is_nullish prop]. now rewrite_own props Hsame. Qed.

Lemma same_convertDockerConfig options :
  convertDockerConfig options (VObj props) = convertDockerConfig options (VObj props').
Proof. unfold convertDockerConfig, get. cbn [is_nullish prop]. now rewrite_own props Hsame. Qed.

Lemma same_convertResources options :
  convertResources options (VObj props) = convertResources options (VObj props').
Proof. unfold convertResources, get. cbn [is_nullish prop]. now rewrite_own props Hsame. Qed.

Lemma same_convertNetworking options :
  convertNetworking options (VObj props) = convertNetworking options (VObj props').
Proof. unfold convertNetworking, get. cbn [is_nullish prop]. now rewrite_own props Hsame. Qed.

Lemma same_convertVolumes composeVolumes :
  convertVolumes (VObj props) composeVolumes = convertVolumes (VObj props') composeVolumes.
Proof. unfold convertVolumes, get. cbn [is_nullish prop]. now rewrite_own props Hsame. Qed.

Lemma same_convertToNomadServices serviceName :
  convertToNomadServices (VObj props) serviceName
  = convertToNomadServices (VObj props') serviceName.
Proof.
  unfold convertToNomadServices, port_service, with_check, get. cbn [is_nullish prop].
  now rewrite_own props Hsame.
Qed.

Lemma same_convertConfigsAndSecrets compose :
  convertConfigsAndSecrets (VObj props) compose
  = convertConfigsAndSecrets (VObj props') compose.
Proof.
  unfold convertConfigsAndSecrets. unfold get at 1. cbn [is_nullish prop].
  now rewrite_own props Hsame.
Qed.

Lemma same_convertRestartPolicy :
  convertRestartPolicy (VObj props) = convertRestartPolicy (VObj props').
Proof. unfold convertRestartPolicy, get. cbn [is_nullish prop]. now rewrite_own props Hsame. Qed.

Lemma apart_convertServiceToTask options serviceName compose :
  apart_from (dependencies_warning serviceName)
    (truthy (own props "depends_on")) (truthy (own props' "depends_on"))
    (convertServiceToTask options serviceName (VObj props) compose)
    (convertServiceToTask options serviceName (VObj props') compose).
Proof.
  unfold convertServiceToTask. cbn [prop].
  rewrite same_convertDockerConfig, same_convertResources, same_convertToNomadServices,
    same_convertConfigsAndSecrets.
  rewrite_own props Hsame.
  generalize (truthy (own props "depends_on")) (truthy (own props' "depends_on")).
  intros b b'.
  repeat (apply apart_bind_l; [obl | intros; cbv zeta]).
  apply apart_bind_r; [apply apart_when | intros; obl | reflexivity].
Qed.

Lemma apart_taskGroup_of options serviceName compose :
  apart_from (dependencies_warning serviceName)
    (truthy (own props "depends_on")) (truthy (own props' "depends_on"))
    (taskGroup_of options serviceName (VObj props) compose)
    (taskGroup_of options serviceName (VObj props') compose).
Proof.
  unfold taskGroup_of. cbn [prop].
  rewrite same_getServiceReplicas, same_convertToNomadServices, same_convertRestartPolicy,
    same_convertNetworking.
  rewrite_own props Hsame.
  apply apart_bind_l; [obl | intros count].
  apply apart_bind_r; [apply apart_convertServiceToTask | intros task; cbv zeta; obl|].
  intros task st. cbv zeta.
  apply bind_pointwise; intros taskGroup st1.
  apply bind_pointwise; intros composeVolumes st2.
  now rewrite same_convertVolumes.
Qed.

End SameService.

(** X19. [depends_on] is not translated.  Two services that differ only in
    their [depends_on] field are converted alike, from any state: the same
    task group or the same exception, the same errors appended, and the same
    warnings appended but for one, the warning about the dependencies, which
    each run pushes when its [depends_on] is truthy.  A conversion that
    returns a task group has passed the place of that warning. *)
Theorem depends_on_is_not_translated
  (options : Required.Options) (serviceName : string)
  (props props' : list (string * value)) (compose : value) :
  same_but "depends_on" props props' ->
  exists (r : exn + value) (before after es : list string) (reached : bool),
    (forall st,
       taskGroup_of options serviceName (VObj props) compose st
       = (r, Diag (warnings st ++ before
                   ++ (if reached && truthy (own props "depends_on")
                       then [dependencies_warning serviceName] else [])
                   ++ after)
                  (errors st ++ es)) /\
       taskGroup_of options serviceName (VObj props') compose st
       = (r, Diag (warnings st ++ before
                   ++ (if reached && truthy (own props' "depends_on")
                       then [dependencies_warning serviceName] else [])
                   ++ after)
                  (errors st ++ es))) /\
    (forall taskGroup, r = inr taskGroup -> reached = true).
Proof.
  intros Hsame. exact (apart_taskGroup_of props props' Hsame options serviceName compose).
Qed.

(** ** The errors of a conversion *)

Lemma quiet_ret {A} (a : A) : quiet (ret a).
Proof. exists (inr a), []. intros st. unfold ret. destruct st; simpl. now rewrite app_nil_r. Qed.

Lemma quiet_throw {A} (e : exn) : quiet (@throw A e).
Proof. exists (inl e), []. intros st. unfold throw. destruct st; simpl. now rewrite app_nil_r. Qed.

Lemma quiet_push_warning (w : string) : quiet (push_warning w).
Proof. exists (inr tt), [w]. reflexivity. Qed.

Lemma quiet_bind {A B} (m : M A) (k : A -> M B) :
  quiet m -> (forall a, quiet (k a)) -> quiet (bind m k).
Proof.
  intros (r & ws & Hm) Hk. destruct r as [e|a].
  - exists (inl e), ws. intros st. unfold bind. now rewrite Hm.
  - destruct (Hk a) as (r' & ws' & Hk').
    exists r', (ws ++ ws')%list. intros st. unfold bind.
    rewrite Hm, Hk'. simpl. now rewrite app_assoc.
Qed.

Lemma quiet_when (b : bool) (c : M unit) : quiet c -> quiet (when b c).
Proof. destruct b; simpl; auto using quiet_ret. Qed.

Lemma quiet_fold_from {A B} (f : B -> A -> nat -> M B) (l : list A) :
  (forall acc x i, quiet (f acc x i)) ->
  forall i acc, quiet (fold_from i f l acc).
Proof.
  intros Hf. induction l as [|x l IH]; intros i acc; simpl.
  - apply quiet_ret.
  - apply quiet_bind; auto.
Qed.

Lemma quiet_mapM {A B} (f : A -> M B) (l : list A) :
  (forall x, quiet (f x)) -> quiet (mapM f l).
Proof.
  intros Hf. induction l as [|x l IH]; simpl.
  - apply quiet_ret.
  - apply quiet_bind; [auto|]. intros y. apply quiet_bind; [auto|]. intros ys. apply quiet_ret.
Qed.

Create HintDb quiet discriminated.
#[local] Hint Resolve quiet_ret quiet_throw quiet_push_warning quiet_when quiet_mapM : quiet.

Ltac quiet_step :=
  lazymatch goal with
  | |- quiet (bind _ _) => apply quiet_bind; [|intros]
  | |- quiet (when _ _) => apply quiet_when
  | |- quiet (fold_from _ _ _ _) => apply quiet_fold_from; intros
  | |- quiet (mapM _ _) => apply quiet_mapM; intros
  | |- quiet (ret _) => apply quiet_ret
  | |- quiet (throw _) => apply quiet_throw
  | |- quiet (push_warning _) => apply quiet_push_warning
  | |- quiet (let _ := _ in _) => cbv zeta
  | |- quiet (match ?x with _ => _ end) => destruct x
  | |- quiet ((match ?x with _ => _ end) _) => destruct x
  | |- quiet ((fun _ => _) _) => cbv beta
  | |- _ => solve [eauto with quiet]
  end.

Ltac quiet_steps := repeat quiet_step.

Lemma quiet_get v k : quiet (get v k).
Proof. unfold get. quiet_steps. Qed.

Lemma quiet_Object_entries v : quiet (Object_entries v).
Proof. unfold Object_entries. quiet_steps. Qed.

Lemma quiet_array_method r m v : quiet (array_method r m v).
Proof. unfold array_method. quiet_steps. Qed.

Lemma quiet_string_method r m v : quiet (string_method r m v).
Proof. unfold string_method. quiet_steps. Qed.

Lemma quiet_destructured r m v : quiet (destructured r m v).
Proof. unfold destructured. quiet_steps. Qed.

Lemma quiet_spread source v : quiet (spread source v).
Proof. unfold spread. quiet_steps. Qed.

#[local] Hint Resolve quiet_get quiet_Object_entries quiet_array_method quiet_string_method
  quiet_destructured quiet_spread : quiet.

Lemma quiet_getServiceReplicas service : quiet (getServiceReplicas service).
Proof. unfold getServiceReplicas. quiet_steps. Qed.

Lemma quiet_convertDevice device : quiet (convertDevice device).
Proof. unfold convertDevice. quiet_steps. Qed.

Lemma quiet_add_label labels label : quiet (add_label labels label).
Proof. unfold add_label. quiet_steps. Qed.

#[local] Hint Resolve quiet_getServiceReplicas quiet_convertDevice quiet_add_label : quiet.

Lemma quiet_convertDockerConfig options service : quiet (convertDockerConfig options service).
Proof. unfold convertDockerConfig. quiet_steps. Qed.

Lemma quiet_add_env_entry env envVar : quiet (add_env_entry env envVar).
Proof. unfold add_env_entry. quiet_steps. Qed.

#[local] Hint Resolve quiet_convertDockerConfig quiet_add_env_entry : quiet.

Lemma quiet_convertEnvironment environment : quiet (convertEnvironment environment).
Proof. unfold convertEnvironment. quiet_steps. Qed.

Lemma quiet_parseMemoryValue options memory : quiet (parseMemoryValue options memory).
Proof. unfold parseMemoryValue. quiet_steps. Qed.

#[local] Hint Resolve quiet_convertEnvironment quiet_parseMemoryValue : quiet.

Lemma quiet_convertResources options service : quiet (convertResources options service).
Proof. unfold convertResources. quiet_steps. Qed.

Lemma quiet_add_port ports port index : quiet (add_port ports port index).
Proof. unfold add_port. quiet_steps. Qed.

Lemma quiet_add_expose ports port index : quiet (add_expose ports port index).
Proof. unfold add_expose. quiet_steps. Qed.

#[local] Hint Resolve quiet_convertResources quiet_add_port quiet_add_expose : quiet.

Lemma quiet_convertNetworking options service : quiet (convertNetworking options service).
Proof. unfold convertNetworking. quiet_steps. Qed.

Lemma quiet_add_volume volumes volume index : quiet (add_volume volumes volume index).
Proof. unfold add_volume. quiet_steps. Qed.

#[local] Hint Resolve quiet_convertNetworking quiet_add_volume : quiet.

Lemma quiet_convertVolumes service composeVolumes :
  quiet (convertVolumes service composeVolumes).
Proof. unfold convertVolumes. quiet_steps. Qed.

Lemma quiet_add_mount mounts volume index : quiet (add_mount mounts volume index).
Proof. unfold add_mount. quiet_steps. Qed.

#[local] Hint Resolve quiet_convertVolumes quiet_add_mount : quiet.

Lemma quiet_convertVolumeMounts volumes : quiet (convertVolumeMounts volumes).
Proof. unfold convertVolumeMounts. quiet_steps. Qed.

Lemma quiet_convertToNomadServices service serviceName :
  quiet (convertToNomadServices service serviceName).
Proof. unfold convertToNomadServices. quiet_steps. Qed.

Lemma quiet_reference_name ref : quiet (reference_name ref).
Proof. unfold reference_name. quiet_steps. Qed.

#[local] Hint Resolve quiet_convertVolumeMounts quiet_convertToNomadServices
  quiet_reference_name : quiet.

Lemma quiet_convertConfigsAndSecrets service compose :
  quiet (convertConfigsAndSecrets service compose).
Proof. unfold convertConfigsAndSecrets. quiet_steps. Qed.

Lemma quiet_convertRestartPolicy service : quiet (convertRestartPolicy service).
Proof. unfold convertRestartPolicy. quiet_steps. Qed.

Lemma quiet_convertConstraint constraint : quiet (convertConstraint constraint).
Proof. unfold convertConstraint. quiet_steps. Qed.

#[local] Hint Resolve quiet_convertConfigsAndSecrets quiet_convertRestartPolicy
  quiet_convertConstraint : quiet.

Lemma quiet_convertConstraints constraints : quiet (convertConstraints constraints).
Proof. unfold convertConstraints. quiet_steps. Qed.

#[local] Hint Resolve quiet_convertConstraints : quiet.

Lemma quiet_convertServiceToTask options serviceName service compose :
  quiet (convertServiceToTask options serviceName service compose).
Proof. unfold convertServiceToTask. quiet_steps. Qed.

#[local] Hint Resolve quiet_convertServiceToTask : quiet.

Lemma quiet_taskGroup_of options serviceName service compose :
  quiet (taskGroup_of options serviceName service compose).
Proof. unfold taskGroup_of. quiet_steps. Qed.

Lemma quiet_constraint_text c : quiet (constraint_text c).
Proof. unfold constraint_text. quiet_steps. Qed.

#[local] Hint Resolve quiet_constraint_text : quiet.

Lemma quiet_convertGlobalConstraints compose jobSpec :
  quiet (convertGlobalConstraints compose jobSpec).
Proof. unfold convertGlobalConstraints. quiet_steps. Qed.

(** A quiet method run from any state: its outcome, and the errors as they were. *)
Lemma quiet_run {A} (m : M A) :
  quiet m -> forall st, exists ws, m st = (outcome m, Diag (warnings st ++ ws) (errors st)).
Proof.
  intros (r & ws & Hm) st. exists ws. unfold outcome. now rewrite (Hm no_diag), Hm.
Qed.

(** The loop over the services leaves exactly the failures in the errors. *)
Lemma convertServices_failures options compose entries :
  forall props st, exists ws,
    convertServices options compose entries (VObj props) st
    = (inr (VObj (collected options compose entries props)),
       Diag (warnings st ++ ws) (errors st ++ failures options compose entries)).
Proof.
  unfold convertServices. generalize 0%nat.
  induction entries as [|[serviceName service] entries IH]; intros i props st.
  - exists []. simpl. unfold ret. destruct st; simpl. now rewrite !app_nil_r.
  - destruct (quiet_run _ (quiet_taskGroup_of options serviceName service compose) st)
      as (ws1 & Hrun).
    cbn [fold_from]. unfold bind at 1. unfold bind at 1.
    unfold convertServiceToTaskGroup at 1. unfold try_catch at 1. rewrite Hrun.
    cbn [collected fold_left failures flat_map].
    destruct (outcome (taskGroup_of options serviceName service compose))
      as [e|taskGroup] eqn:Eo.
    + unfold bind at 1, push_error at 1. unfold ret at 1. unfold ret at 1.
      cbn [truthy warnings errors].
      destruct (IH (S i) props (Diag (warnings st ++ ws1)
                                  (errors st ++ [service_failure serviceName e])))
        as (ws2 & Hloop).
      exists (ws1 ++ ws2)%list. unfold failures in Hloop. rewrite Hloop.
      cbn [warnings errors]. now rewrite <- !app_assoc.
    + unfold ret at 1. rewrite (taskGroup_of_truthy _ _ _ _ _ Eo). cbn [set].
      destruct (IH (S i) (set_own props serviceName taskGroup)
                   (Diag (warnings st ++ ws1) (errors st))) as (ws2 & Hloop).
      exists (ws1 ++ ws2)%list. unfold failures in Hloop. rewrite Hloop.
      cbn [warnings errors app]. now rewrite <- !app_assoc.
Qed.

Lemma convertToNomadJob_failures options compose st :
  is_nullish compose = false ->
  exists ws,
    convertToNomadJob options compose st
    = (outcome (convertToNomadJob options compose),
       Diag (warnings st ++ ws)
            (errors st ++ failures options compose (own_entries (prop compose "services")))).
Proof.
  intros Hnn.
  assert (Hany : forall st, exists r ws,
            convertToNomadJob options compose st
            = (r, Diag (warnings st ++ ws)
                       (errors st ++ failures options compose
                                       (own_entries (prop compose "services"))))).
  { clear st. intros st. unfold convertToNomadJob.
    unfold bind at 1. unfold get at 1. rewrite Hnn. unfold ret at 1.
    set (entries := own_entries (prop compose "services")).
    assert (Hloop : exists ws,
               (if truthy (prop compose "services")
                then bind (Object_entries (prop compose "services"))
                       (fun entries => convertServices options compose entries (VObj []))
                else ret (VObj [])) st
               = (inr (VObj (collected options compose entries [])),
                  Diag (warnings st ++ ws) (errors st ++ failures options compose entries))).
    { destruct (truthy (prop compose "services")) eqn:Et.
      - unfold bind, Object_entries.
        assert (Hs : is_nullish (prop compose "services") = false)
          by (destruct (prop compose "services"); auto; discriminate).
        rewrite Hs. unfold ret at 1. apply convertServices_failures.
      - exists []. unfold entries. rewrite (own_entries_falsy _ Et). simpl.
        unfold ret. destruct st; simpl. now rewrite !app_nil_r. }
    destruct Hloop as (ws1 & Hloop).
    unfold bind at 1. rewrite Hloop. unfold bind at 1.
    match goal with
    | |- context [ convertGlobalConstraints compose ?js ?s ] =>
        destruct (quiet_run _ (quiet_convertGlobalConstraints compose js) s) as (ws2 & Hrun)
    end.
    rewrite Hrun. cbn [warnings errors].
    match goal with
    | |- context [ outcome ?m ] => destruct (outcome m) as [e|jobSpec]
    end.
    - exists (inl e), (ws1 ++ ws2)%list. now rewrite <- app_assoc.
    - exists (inr (VObj [("job", VObj [(ToString (or_else (prop compose "name")
                                              (VStr (Required.jobName options))), jobSpec)])])),
        (ws1 ++ ws2)%list.
      unfold ret. now rewrite <- app_assoc. }
  destruct (Hany st) as (r & ws & Hrun). exists ws. rewrite Hrun. f_equal.
  destruct (Hany no_diag) as (r0 & ws0 & Hrun0).
  destruct (obl_run _ (obl_convertToNomadJob options compose) st) as (st' & Hrun' & _).
  rewrite Hrun in Hrun'. now injection Hrun' as -> _.
Qed.

(** X20. The errors of a conversion that reaches translation are exactly: one
    "Failed to convert service" entry for each service whose conversion
    throws, in the order of the services, followed by the message of the
    top-level step that threw, if any (the job-level constraints or the HCL
    generator).  So the result has no error only if every service was
    converted. *)
Theorem conversion_errors_are_the_failures
  (options : Required.Options) (content : string) (compose : value) (st0 st1 : diag) :
  parseCompose content no_diag = (inr compose, st1) ->
  Required.skipValidation options = true \/
  Validation.errors (validateComposeFile compose) = [] ->
  exists result st',
    convert options content st0 = (inr result, st') /\
    Conversion.errors result
    = (failures options compose (own_entries (prop compose "services"))
       ++ match outcome (convertToNomadJob options compose) with
          | inl error => [message_of error]
          | inr nomadJob =>
              match generateHCL nomadJob (Required.includeComments options) with
              | inl error => [message_of error]
              | inr _ => []
              end
          end)%list /\
    (Conversion.errors result = [] ->
     forall name service,
       In (name, service) (own_entries (prop compose "services")) ->
       exists taskGroup,
         outcome (taskGroup_of options name service compose) = inr taskGroup).
Proof.
  intros Hparse Hpass.
  destruct (parseCompose_returns _ _ _ _ Hparse) as (_ & Hnn & Herrs).
  destruct (validation_gate_passes options compose st1 Herrs Hpass) as (st2 & Hgate & _).
  assert (Herrs2 : errors st2 = []).
  { revert Hgate. unfold validation_gate.
    destruct (Required.skipValidation options) eqn:Eskip; simpl.
    - unfold ret. intros [= <-]. exact Herrs.
    - destruct Hpass as [|Hv]; [discriminate|].
      unfold bind, push_all, current. rewrite Hv, Herrs. simpl. now intros [= <-]. }
  destruct (convertToNomadJob_failures options compose st2 Hnn) as (ws & Hjob).
  rewrite Herrs2 in Hjob. cbn [app] in Hjob.
  assert (Hall : forall tail : list string,
            (failures options compose (own_entries (prop compose "services")) ++ tail)%list = [] ->
            forall name service,
              In (name, service) (own_entries (prop compose "services")) ->
              exists taskGroup,
                outcome (taskGroup_of options name service compose) = inr taskGroup).
  { intros tail Hnil name service Hin. apply app_eq_nil in Hnil as [Hnil _].
    destruct (outcome (taskGroup_of options name service compose)) as [e|tg] eqn:Eo;
      [|eauto].
    exfalso. unfold failures in Hnil.
    assert (Hmem : In (service_failure name e)
                      (flat_map
                         (fun '(serviceName, service) =>
                            match outcome (taskGroup_of options serviceName service compose) with
                            | inl error => [service_failure serviceName error]
                            | inr _ => []
                            end) (own_entries (prop compose "services")))).
    { apply in_flat_map. exists (name, service). split; [assumption|]. rewrite Eo. now left. }
    rewrite Hnil in Hmem. contradiction. }
  rewrite convert_run. unfold conversion.
  unfold bind at 1. rewrite Hparse.
  unfold bind at 1. rewrite Hgate.
  unfold bind at 1. rewrite Hjob.
  destruct (outcome (convertToNomadJob options compose)) as [e|nomadJob].
  - eexists _, _. split; [reflexivity|]. cbn [Conversion.errors errors].
    split; [reflexivity | apply Hall].
  - unfold bind at 1, call.
    destruct (generateHCL nomadJob (Required.includeComments options)) as [e|text].
    + unfold throw. eexists _, _. split; [reflexivity|]. cbn [Conversion.errors errors].
      split; [reflexivity | apply Hall].
    + unfold ret at 1. unfold bind, current, ret.
      eexists _, _. split; [reflexivity|]. cbn [Conversion.errors errors].
      split; [now rewrite app_nil_r|]. rewrite <- (app_nil_r (failures _ _ _)). apply Hall.
Qed.

(** ** Validation as a gate *)

Lemma conversion_after_the_gate options content compose st1 st2 :
  parseCompose content no_diag = (inr compose, st1) ->
  validation_gate options compose st1 = (inr tt, st2) ->
  errors st2 = [] ->
  let ws := (warnings st2 ++ warnings (snd (convertToNomadJob options compose no_diag)))%list in
  let es := failures options compose (own_entries (prop compose "services")) in
  conversion options content no_diag
  = match outcome (convertToNomadJob options compose) with
    | inl e => (inl e, Diag ws es)
    | inr nomadJob =>
        match generateHCL nomadJob (Required.includeComments options) with
        | inl e => (inl e, Diag ws es)
        | inr hcl =>
            (inr {| Conversion.hcl := hcl; Conversion.nomadJob := nomadJob;
                    Conversion.warnings := ws; Conversion.errors := es |},
             Diag ws es)
        end
    end.
Proof.
  intros Hparse Hgate Herrors ws es.
  destruct (parseCompose_returns _ _ _ _ Hparse) as (_ & Hnn & _).
  assert (Hjob : convertToNomadJob options compose st2
                 = (outcome (convertToNomadJob options compose), Diag ws es)).
  { assert (He : errors (snd (convertToNomadJob options compose no_diag)) = es).
    { destruct (convertToNomadJob_failures options compose no_diag Hnn) as (ws0 & Hrun).
      now rewrite Hrun. }
    rewrite (obl_appends _ (obl_convertToNomadJob options compose) st2).
    now rewrite Herrors, He. }
  unfold conversion.
  unfold bind at 1. rewrite Hparse.
  unfold bind at 1. rewrite Hgate.
  unfold bind at 1. rewrite Hjob.
  destruct (outcome (convertToNomadJob options compose)) as [e|nomadJob]; [reflexivity|].
  unfold bind at 1, call.
  destruct (generateHCL nomadJob (Required.includeComments options)) as [e|text];
    reflexivity.
Qed.

(** X21. Validation is a gate and nothing more.  For a document that parses
    and that the validator accepts without errors, converting with
    [skipValidation] set and unset gives the same HCL, the same job and the
    same errors; the warnings differ by those of the validator, which come
    after those of the parser and before those of the translation. *)
Theorem skipping_validation_changes_only_the_warnings
  (options : Required.Options) (content : string) (compose : value) (st0 st1 : diag) :
  parseCompose content no_diag = (inr compose, st1) ->
  Validation.errors (validateComposeFile compose) = [] ->
  exists skipped checked st st',
    convert (with_skipValidation true options) content st0 = (inr skipped, st) /\
    convert (with_skipValidation false options) content st0 = (inr checked, st') /\
    Conversion.hcl skipped = Conversion.hcl checked /\
    Conversion.nomadJob skipped = Conversion.nomadJob checked /\
    Conversion.errors skipped = Conversion.errors checked /\
    exists ws,
      Conversion.warnings skipped = (warnings st1 ++ ws)%list /\
      Conversion.warnings checked
      = (warnings st1 ++ Validation.warnings (validateComposeFile compose) ++ ws)%list.
Proof.
  intros Hparse Hvalid.
  destruct (parseCompose_returns _ _ _ _ Hparse) as (_ & _ & Herrors). cbn [errors no_diag] in Herrors.
  assert (Hskip : validation_gate (with_skipValidation true options) compose st1
                  = (inr tt, st1)) by reflexivity.
  assert (Hcheck : validation_gate (with_skipValidation false options) compose st1
                   = (inr tt, Diag (warnings st1
                                    ++ Validation.warnings (validateComposeFile compose)) [])).
  { unfold validation_gate. cbn [Required.skipValidation with_skipValidation negb when].
    unfold bind, push_all, current. rewrite Hvalid, Herrors. reflexivity. }
  pose proof (conversion_after_the_gate _ _ _ _ _ Hparse Hskip Herrors) as Hs.
  pose proof (conversion_after_the_gate _ _ _ _ _ Hparse Hcheck eq_refl) as Hc.
  cbv zeta in Hs, Hc. cbn [warnings] in Hc.
  rewrite !convert_run, Hs, Hc.
  change (convertToNomadJob (with_skipValidation true options) compose)
    with (convertToNomadJob options compose).
  change (convertToNomadJob (with_skipValidation false options) compose)
    with (convertToNomadJob options compose).
  change (Required.includeComments (with_skipValidation true options))
    with (Required.includeComments options).
  change (Required.includeComments (with_skipValidation false options))
    with (Required.includeComments options).
  change (failures (with_skipValidation true options) compose)
    with (failures options compose).
  change (failures (with_skipValidation false options) compose)
    with (failures options compose).
  destruct (outcome (convertToNomadJob options compose)) as [e|nomadJob].
  - eexists _, _, _, _. do 5 (split; [reflexivity|]).
    eexists. cbn [Conversion.warnings]. split; [reflexivity|]. now rewrite app_assoc.
  - destruct (generateHCL nomadJob (Required.includeComments options)) as [e|text].
    + eexists _, _, _, _. do 5 (split; [reflexivity|]).
      eexists. cbn [Conversion.warnings]. split; [reflexivity|]. now rewrite app_assoc.
    + eexists _, _, _, _. do 5 (split; [reflexivity|]).
      eexists. cbn [Conversion.warnings]. split; [reflexivity|]. now rewrite app_assoc.
Qed.

(** ** Documents that do not parse *)

Lemma convert_parse_failure options content st text :
  parseCompose content no_diag = (inl (Error text), no_diag) ->
  convert options content st
  = (inr (failed_conversion text), Diag [] [text]).
Proof.
  intros Hparse. rewrite convert_run. unfold conversion, bind at 1. now rewrite Hparse.
Qed.

(** X22. A [version] that the YAML parser does not return as a string (the
    unquoted [version: 3.8] is a number) stops the conversion, whatever the
    options are, validation skipped or not: the version test calls a string
    method on it, [parseCompose] wraps the exception, and [convert] returns
    the placeholder with the single error "Failed to parse YAML: ...". *)
Theorem version_that_is_not_a_string_stops_the_conversion
  (options : Required.Options) (content : string) (compose : value) (st : diag) :
  loadYAML content = inr compose ->
  is_object compose = true ->
  truthy (prop compose "version") = true ->
  isString (prop compose "version") = false ->
  exists text,
    convert options content st
    = (inr (failed_conversion ("Failed to parse YAML: " ++ text)),
       Diag [] ["Failed to parse YAML: " ++ text]).
Proof.
  intros Hload Hobject Hversion Hstring.
  assert (Htruthy : truthy compose = true) by (destruct compose; auto; discriminate).
  eexists. apply convert_parse_failure.
  unfold parseCompose, try_catch, bind at 1, call. rewrite Hload. unfold ret at 1.
  rewrite Htruthy, Hobject. cbn [negb orb]. rewrite Hversion.
  unfold bind at 1. unfold bind at 1. unfold isSupportedVersion.
  destruct (prop compose "version"); try discriminate; reflexivity.
Qed.

(** X23. When the YAML parser returns something that is not a mapping or a
    sequence (a scalar, or [undefined] for an empty file), [convert] returns
    the placeholder with the single error
    "Failed to parse YAML: Invalid YAML structure". *)
Theorem scalar_and_empty_documents_do_not_convert
  (options : Required.Options) (content : string) (parsed : value) (st : diag) :
  loadYAML content = inr parsed ->
  is_object parsed = false ->
  convert options content st
  = (inr (failed_conversion "Failed to parse YAML: Invalid YAML structure"),
     Diag [] ["Failed to parse YAML: Invalid YAML structure"]).
Proof.
  intros Hload Hobject. apply convert_parse_failure.
  unfold parseCompose, try_catch, bind at 1, call. rewrite Hload. unfold ret at 1.
  rewrite Hobject. cbn [negb]. rewrite orb_true_r. reflexivity.
Qed.

(** ** The job *)


Lemma has_own_app props props' k :
  has_own (props ++ props') k = has_own props k || has_own props' k.
Proof.
  induction props as [|[k' v'] props IH]; simpl; [reflexivity|].
  now rewrite IH, orb_assoc.
Qed.








End Properties.

(** * The properties on the examples *)

Lemma C6_witness :
  "2048" <> EmptyString /\
  all_digits "2048" = true /\
  In "k"%char unit_letters /\
  digits_value "2048" <= 2 ^ 53 /\
  parseMemoryValue default_options (VStr "2048k") no_diag = (inr (num 2), no_diag).
Proof.
  assert (H1 : "2048" <> EmptyString) by discriminate.
  assert (H2 : all_digits "2048" = true) by reflexivity.
  assert (H3 : In "k"%char unit_letters) by (simpl; auto).
  assert (H4 : digits_value "2048" <= 2 ^ 53) by (vm_compute; discriminate).
  repeat (split; [assumption|]).
  exact (proj2 (proj2 (proj2 (C6_memory_values_in_MB default_options no_diag)))
           "2048" "k"%char H1 H2 H3 H4).
Defined.

Lemma C1_witness :
  parseCompose (host := example_host) partial_yaml no_diag
  = (inr partial_document, no_diag) /\
  Validation.errors (validateComposeFile (host := example_host) partial_document) = [] /\
  NoDup (map fst (own_entries (prop partial_document "services"))) /\
  exists result st',
    convert (host := example_host) default_options partial_yaml no_diag
    = (inr result, st') /\
    (exists e, In (service_failure "a" e) (Conversion.errors result)) /\
    task_group (Conversion.nomadJob result) "a" = VUndefined /\
    task_group (Conversion.nomadJob result) "b" <> VUndefined /\
    task_group (Conversion.nomadJob result) "c" <> VUndefined.
Proof.
  assert (Hparse : parseCompose (host := example_host) partial_yaml no_diag
                   = (inr partial_document, no_diag)) by (vm_compute; reflexivity).
  assert (Hvalid : Validation.errors
                     (validateComposeFile (host := example_host) partial_document) = [])
    by (vm_compute; reflexivity).
  assert (Hnd : NoDup (map fst (own_entries (prop partial_document "services")))).
  { simpl. repeat constructor; simpl; intuition discriminate. }
  repeat (split; [assumption|]).
  destruct (C1_service_failures_are_isolated (host := example_host)
              default_options partial_yaml partial_document no_diag no_diag
              Hparse (or_intror Hvalid) Hnd) as (result & st' & Hrun & Hall).
  exists result, st'. split; [exact Hrun|].
  remember (task_group (Conversion.nomadJob result) "a") as ga eqn:Ea.
  remember (task_group (Conversion.nomadJob result) "b") as gb eqn:Eb.
  remember (task_group (Conversion.nomadJob result) "c") as gc eqn:Ec.
  pose proof (Hall "a" _ (or_introl eq_refl)) as Ha.
  pose proof (Hall "b" _ (or_intror (or_introl eq_refl))) as Hb.
  pose proof (Hall "c" _ (or_intror (or_intror (or_introl eq_refl)))) as Hc.
  rewrite <- Ea in Ha. rewrite <- Eb in Hb. rewrite <- Ec in Hc.
  vm_compute in Ha. vm_compute in Hb. vm_compute in Hc.
  destruct Ha as (Hin & _ & Hga).
  split.
  { exists (Error "envVar.split is not a function or its return value is not iterable").
    exact Hin. }
  split; [exact Hga|].
  split; [rewrite Hb | rewrite Hc]; discriminate.
Defined.

(** C1 as stated fails on a document that reaches translation where one
    service throws and the job-level constraints throw after the loop: the
    other service converts, and the result's job has no task group for it. *)
Lemma C1_counterexample :
  exists result st' e taskGroup,
    parseCompose (host := example_host) aborted_yaml no_diag
    = (inr aborted_document, no_diag) /\
    Validation.errors (validateComposeFile (host := example_host) aborted_document) = [] /\
    convert (host := example_host) default_options aborted_yaml no_diag
    = (inr result, st') /\
    outcome (taskGroup_of (host := example_host) default_options "a"
               (prop (prop aborted_document "services") "a") aborted_document)
    = inl e /\
    In (service_failure "a" e) (Conversion.errors result) /\
    outcome (taskGroup_of (host := example_host) default_options "b"
               (prop (prop aborted_document "services") "b") aborted_document)
    = inr taskGroup /\
    taskGroup <> VUndefined /\
    task_group (Conversion.nomadJob result) "b" = VUndefined /\
    Conversion.nomadJob result = empty_job /\
    String.prefix "# ERROR:" (Conversion.hcl result) = true.
Proof.
  do 4 eexists. vm_compute.
  do 4 (split; [reflexivity|]).
  split; [left; reflexivity|]. split; [reflexivity|].
  split; [discriminate|]. repeat split.
Qed.

Lemma C2_witness :
  parseCompose (host := example_host) web_without_image_yaml no_diag
  = (inr web_without_image, no_diag) /\
  Required.skipValidation default_options = false /\
  Validation.errors (validateComposeFile (host := example_host) web_without_image) <> [] /\
  exists result st',
    convert (host := example_host) default_options web_without_image_yaml no_diag
    = (inr result, st') /\
    String.prefix "# ERROR:" (Conversion.hcl result) = true /\
    Conversion.nomadJob result = empty_job /\
    exists defect, In defect (Conversion.errors result) /\ includes defect "web" = true.
Proof.
  assert (Hparse : parseCompose (host := example_host) web_without_image_yaml no_diag
                   = (inr web_without_image, no_diag)) by (vm_compute; reflexivity).
  assert (Hskip : Required.skipValidation default_options = false) by reflexivity.
  assert (Hv : Validation.errors
                 (validateComposeFile (host := example_host) web_without_image) <> [])
    by (vm_compute; discriminate).
  repeat (split; [assumption|]).
  destruct (C2_convert_never_throws (host := example_host)
              default_options web_without_image_yaml no_diag)
    as (result & st' & Hrun & _ & _ & Hvalidation & Hweb).
  exists result, st'. split; [exact Hrun|].
  destruct (Hvalidation web_without_image no_diag Hparse Hskip Hv) as (Hhcl & Hjob & _ & _).
  split; [exact Hhcl|]. split; [exact Hjob|].
  exact (Hweb web_without_image no_diag [("ports", VArr [VStr "80:80"])] []
           Hparse Hskip eq_refl eq_refl eq_refl).
Defined.

Lemma C5_witness :
  is_nullish (VObj [("image", VStr "myapp"); ("restart", VStr "unless-stopped")]) = false /\
  convertRestartPolicy
    (VObj [("image", VStr "myapp"); ("restart", VStr "unless-stopped")]) no_diag
  = (inr (restart_policy (VNum (num 0)) (VStr "15s") (VStr "5m") (VStr "fail")), no_diag).
Proof.
  split; [reflexivity|].
  pose proof (C5_restart_policy
                (VObj [("image", VStr "myapp"); ("restart", VStr "unless-stopped")])
                no_diag eq_refl) as H.
  cbv zeta in H. destruct H as (_ & Hrestart & _).
  destruct (Hrestart eq_refl) as (_ & _ & _ & _ & Hunless).
  exact (Hunless eq_refl).
Defined.





(** A disabled healthcheck: [convertHealthCheck] returns [null], and the
    discovery entry carries the array that holds it. *)
Lemma disabled_healthcheck_leaves_a_null_check :
  convertHealthCheck (host := example_host) (prop disabled_service "healthcheck")
  = VNull /\
  convertToNomadServices (host := example_host) disabled_service "web" no_diag
  = (inr [VObj [("name", VStr "web"); ("tags", VArr [VStr "docker-compose"]);
                ("check", VArr [VNull])]], no_diag).
Proof. split; reflexivity. Qed.

Lemma C7_witness :
  NoDup (map fst [("A", VNum (num 2)); ("B", VStr "x=y")]) /\
  (forall key,
     option_map (env_text (host := example_host))
       (lookup [("A", VNum (num 2)); ("B", VStr "x=y")] key)
     = final_value ["A=1"; "B=x=y"; "A=2"] key) /\
  exists from_array from_mapping,
    convertEnvironment (host := example_host) (strings ["A=1"; "B=x=y"; "A=2"]) no_diag
    = (inr from_array, no_diag) /\
    convertEnvironment (host := example_host)
      (VObj [("A", VNum (num 2)); ("B", VStr "x=y")]) no_diag
    = (inr from_mapping, no_diag) /\
    (forall key, prop from_array key = prop from_mapping key) /\
    prop from_array "A" = VStr "2" /\
    prop from_array "B" = VStr "x=y".
Proof.
  assert (Hnd : NoDup (map fst [("A", VNum (num 2)); ("B", VStr "x=y")])).
  { simpl. repeat constructor; simpl; intuition discriminate. }
  assert (Hsame : forall key,
             option_map (env_text (host := example_host))
               (lookup [("A", VNum (num 2)); ("B", VStr "x=y")] key)
             = final_value ["A=1"; "B=x=y"; "A=2"] key).
  { intros key.
    destruct (String.eqb_spec "A" key) as [<-|HA]; [reflexivity|].
    destruct (String.eqb_spec "B" key) as [<-|HB]; [reflexivity|].
    apply String.eqb_neq in HA, HB.
    unfold final_value, final_from.
    cbn [fold_left key_value lookup option_map Ascii.eqb Bool.eqb].
    rewrite HA, HB. reflexivity. }
  repeat (split; [assumption|]).
  destruct (proj2 (C7_environment_shape_independent (host := example_host))
              ["A=1"; "B=x=y"; "A=2"] [("A", VNum (num 2)); ("B", VStr "x=y")]
              no_diag Hnd Hsame)
    as (from_array & from_mapping & Harray & Hmapping & Hagree & Hfinal).
  exists from_array, from_mapping.
  split; [exact Harray|]. split; [exact Hmapping|]. split; [exact Hagree|].
  split; [exact (Hfinal "A") | exact (Hfinal "B")].
Defined.

Lemma C8_witness :
  "web" <> "api" /\ "toString" <> "web" /\ "toString" <> "api" /\
  "db" <> "web" /\ "db" <> "api" /\ "nginx" <> EmptyString /\
  composeSchema_validate (Host := example_host)
    (two_defects "web" "api" "toString" "nginx" false true) = [] /\
  composeSchema_validate (Host := example_host)
    (two_defects "web" "api" "db" "nginx" false true) = [] /\
  validateComposeFile (host := example_host)
    (two_defects "web" "api" "toString" "nginx" false true)
  = {| Validation.isValid := false;
       Validation.errors :=
         ["Service 'web' must have either 'image' or 'build' specified"];
       Validation.warnings := [] |} /\
  validateComposeFile (host := example_host)
    (two_defects "web" "api" "db" "nginx" false true)
  = {| Validation.isValid := false;
       Validation.errors :=
         ["Service 'web' must have either 'image' or 'build' specified";
          "Service 'api' depends on undefined service 'db'"];
       Validation.warnings := [] |}.
Proof.
  assert (H1 : "web" <> "api") by discriminate.
  assert (H2 : "toString" <> "web") by discriminate.
  assert (H3 : "toString" <> "api") by discriminate.
  assert (H4 : "db" <> "web") by discriminate.
  assert (H5 : "db" <> "api") by discriminate.
  assert (H6 : "nginx" <> EmptyString) by discriminate.
  assert (H7 : composeSchema_validate (Host := example_host)
                 (two_defects "web" "api" "toString" "nginx" false true) = []) by reflexivity.
  assert (H8 : composeSchema_validate (Host := example_host)
                 (two_defects "web" "api" "db" "nginx" false true) = []) by reflexivity.
  repeat (split; [assumption|]).
  split.
  - exact (proj2 (C8_inherited_names_pass_for_services (host := example_host))
             "web" "api" "toString" "nginx" false true H1 H2 H3 H6 H7).
  - exact (proj2 (C8_inherited_names_pass_for_services (host := example_host))
             "web" "api" "db" "nginx" false true H1 H4 H5 H6 H8).
Defined.

(** * The further properties on the examples *)

Lemma X1_witness :
  Validation.isValid (validateComposeVersion (Some "2.4")) = false /\
  List.length (Validation.errors (validateComposeVersion (Some "2.4"))) = 2%nat.
Proof.
  pose proof (validateComposeVersion_accepts_3 (Some "2.4")) as H. cbv zeta in H.
  destruct H as (Hvalid & _ & Hlegacy & _).
  split; [exact Hvalid | exact (Hlegacy "2.4" eq_refl eq_refl)].
Defined.

Lemma X2_witness :
  "2.4" <> EmptyString /\
  Validation.isValid (validateComposeVersion (Some "2.4")) = false /\
  isSupportedVersion (VStr "2.4") no_diag = (inr false, no_diag) /\
  parseCompose (host := second_host) legacy_yaml no_diag
  = (inr legacy_document,
     Diag ["Docker Compose version '2.4' may not be fully supported"] []).
Proof.
  assert (Hv : "2.4" <> EmptyString) by discriminate.
  pose proof (a_legacy_version_only_warns (host := second_host) "2.4" no_diag Hv) as H.
  cbv zeta in H. destruct H as (Haccepted & Hsupported & Hparse).
  split; [exact Hv|]. split; [exact Haccepted|]. split; [exact Hsupported|].
  exact (Hparse legacy_yaml legacy_document eq_refl eq_refl eq_refl).
Defined.

Lemma X3_witness :
  In "volumes" declared_sections /\
  prop named_volume_document "volumes" = VObj [("db_data", VNull)] /\
  In ("db_data", VNull) [("db_data", VNull)] /\
  is_nullish VNull = true /\
  Validation.isValid (validateComposeFile (host := example_host) named_volume_document)
  = false.
Proof.
  assert (H1 : In "volumes" declared_sections) by (simpl; auto).
  assert (H3 : In ("db_data", VNull) [("db_data", VNull)]) by (simpl; auto).
  split; [exact H1|]. split; [reflexivity|]. split; [exact H3|]. split; [reflexivity|].
  exact (proj1 (empty_section_entry_fails_validation (host := example_host)
                  named_volume_document "volumes" [("db_data", VNull)] "db_data" VNull
                  H1 eq_refl H3 eq_refl)).
Defined.

Lemma X4_witness :
  truthy (get_opt (VObj [("version", VStr "3.8")]) "services") = false /\
  Validation.isValid
    (validateComposeFile (host := example_host) (VObj [("version", VStr "3.8")])) = false /\
  In "No services defined"
     (Validation.errors
        (validateComposeFile (host := example_host) (VObj [("version", VStr "3.8")]))).
Proof.
  split; [reflexivity|].
  destruct (no_services_never_valid (host := example_host)
              (VObj [("version", VStr "3.8")]) eq_refl) as [Hvalid Hin].
  split; [exact Hvalid | exact (Hin eq_refl)].
Defined.

Lemma X5_witness :
  Deployment.success
    (convertComposeFile (host := example_host) (inr web_without_image_yaml)) = VBool false /\
  In "No services defined"
     (Validation.errors
        (validateComposeFile (host := example_host) (VStr web_without_image_yaml))).
Proof.
  destruct (convertComposeFile_never_succeeds (host := example_host)
              (inr web_without_image_yaml)) as (Hsuccess & _ & Herrors).
  split; [exact Hsuccess | exact (proj2 (Herrors web_without_image_yaml eq_refl))].
Defined.

Lemma X7_witness :
  prop bodiless_service_document "services"
  = VObj ([("web", VObj [("image", VStr "nginx")])]
          ++ ("worker", VNull) :: [("db", VObj [])]) /\
  is_nullish VNull = true /\
  (forall entry, In entry [("web", VObj [("image", VStr "nginx")])] ->
     outcome (validateService (host := example_host) bodiless_service_document
                (fst entry) (snd entry)) = inr tt) /\
  (exists text,
     validateComposeFile (host := example_host) bodiless_service_document
     = {| Validation.isValid := false;
          Validation.errors :=
            (composeSchema_validate (Host := example_host) bodiless_service_document
             ++ flat_map (service_errors (H := example_host) bodiless_service_document)
                  [("web", VObj [("image", VStr "nginx")])]
             ++ ["Validation error: " ++ text]%string)%list;
          Validation.warnings :=
            flat_map (service_warnings (H := example_host) bodiless_service_document)
              [("web", VObj [("image", VStr "nginx")])] |}) /\
  ~ In (missing_image "db")
       (Validation.errors
          (validateComposeFile (host := example_host) bodiless_service_document)).
Proof.
  assert (Hbefore : forall entry, In entry [("web", VObj [("image", VStr "nginx")])] ->
            outcome (validateService (host := example_host) bodiless_service_document
                       (fst entry) (snd entry)) = inr tt).
  { intros entry [<-|[]]. reflexivity. }
  split; [reflexivity|]. split; [reflexivity|]. split; [exact Hbefore|]. split.
  - exact (validation_stops_at_a_service_without_body (host := example_host)
             bodiless_service_document [("web", VObj [("image", VStr "nginx")])]
             [("db", VObj [])] "worker" VNull eq_refl eq_refl Hbefore).
  - vm_compute. intros [H|[H|[]]]; discriminate H.
Defined.

Lemma X8_witness :
  isValidMemorySpec (host := example_host) (VStr "512m") = true /\
  exists digits unit,
    "512m" = (digits ++ unit)%string /\
    (digits_value digits <= 2 ^ 53 ->
     parseMemoryValue default_options (VStr "512m") no_diag
     = (inr (num (round_div
                    (digits_value digits
                     * match unit with String u _ => multiplier u | EmptyString => 1 end)
                    (1024 * 1024))), no_diag)) /\
    parseMemoryValue default_options (VStr "512m") no_diag = (inr (num 512), no_diag).
Proof.
  split; [reflexivity|].
  destruct (validated_memory_always_parses (host := example_host)
              default_options "512m" no_diag eq_refl)
    as (digits & unit & MB & Hsplit & _ & _ & _ & Hparse & Hvalue).
  exists digits, unit. split; [exact Hsplit|]. split.
  - intros Hmax. rewrite (Hvalue Hmax) in Hparse. exact Hparse.
  - vm_compute. reflexivity.
Defined.

Lemma X9_witness :
  "512" <> EmptyString /\ all_digits "512" = true /\
  In "m"%char scale_letters /\ In "b"%char ["b"; "B"]%char /\
  digits_value "512" <= 2 ^ 53 /\
  isValidMemorySpec (host := example_host) (VStr "512mb") = false /\
  parseMemoryValue default_options (VStr "512mb") no_diag = (inr (num 512), no_diag).
Proof.
  assert (H1 : "512" <> EmptyString) by discriminate.
  assert (H3 : In "m"%char scale_letters) by (simpl; auto).
  assert (H4 : In "b"%char ["b"; "B"]%char) by (simpl; auto).
  assert (H5 : digits_value "512" <= 2 ^ 53) by (vm_compute; discriminate).
  split; [exact H1|]. split; [reflexivity|]. split; [exact H3|]. split; [exact H4|].
  split; [exact H5|].
  destruct (two_letter_units_convert_but_do_not_validate (host := example_host)
              default_options "512" "m"%char "b"%char no_diag H1 eq_refl H3 H4)
    as (Hvalid & MB & Hparse & Hvalue).
  split; [exact Hvalid|]. rewrite (Hvalue H5) in Hparse. exact Hparse.
Defined.

Lemma X10_witness :
  is_nullish published_service = false /\
  prop published_service "ports" = strings ["8080:80"; "443"; "127.0.0.1:8443:443"] /\
  truthy (prop published_service "expose") = false /\
  nth_error ["8080:80"; "443"; "127.0.0.1:8443:443"] 0 = Some "8080:80" /\
  nth_error ["8080:80"; "443"; "127.0.0.1:8443:443"] 2 = Some "127.0.0.1:8443:443" /\
  exists ports,
    convertNetworking (host := example_host) default_options published_service no_diag
    = (inr (VObj [("mode", VStr "bridge"); ("port", VObj ports)]), no_diag) /\
    own ports (port_label 0)
    = VObj [("static", VNum (num 8080)); ("to", VNum (num 80))] /\
    own ports (port_label 2) = VObj [("to", VNum (num 127))].
Proof.
  do 5 (split; [reflexivity|]).
  destruct (published_ports_short_syntax (host := example_host) default_options
              published_service ["8080:80"; "443"; "127.0.0.1:8443:443"] 0 "8080:80" no_diag
              eq_refl eq_refl eq_refl eq_refl) as (ports & Hrun & Hfirst & Hnum).
  destruct (published_ports_short_syntax (host := example_host) default_options
              published_service ["8080:80"; "443"; "127.0.0.1:8443:443"] 2
              "127.0.0.1:8443:443" no_diag eq_refl eq_refl eq_refl eq_refl)
    as (ports' & Hrun' & Hthird & _).
  assert (Hsame : ports' = ports).
  { rewrite Hrun in Hrun'. now injection Hrun' as <-. }
  subst ports'. exists ports. split; [exact Hrun|].
  assert (H8080 : "8080" <> EmptyString) by discriminate.
  assert (H80 : "80" <> EmptyString) by discriminate.
  assert (H127 : "127" <> EmptyString) by discriminate.
  assert (Hplain : In EmptyString protocol_suffixes) by (simpl; auto).
  assert (Hsmall : forall z, (Z.abs z <=? 2 ^ 53) = true -> Number_value z = num z)
    by (intros z Hz; apply Hnum; now apply Z.leb_le).
  split.
  - rewrite (proj1 (Hfirst "8080" "80" "" H8080 eq_refl H80 eq_refl Hplain) eq_refl).
    now rewrite !Hsmall by reflexivity.
  - rewrite (proj2 (proj2 (Hthird "127" "80" "" H127 eq_refl H80 eq_refl Hplain))
               "0.0.1:8443:443" eq_refl).
    + now rewrite Hsmall by reflexivity.
    + vm_compute. intros H. discriminate H.
Defined.

Lemma X11_witness :
  is_nullish published_service = false /\
  prop published_service "ports" = strings ["8080:80"; "443"; "127.0.0.1:8443:443"] /\
  truthy (prop published_service "expose") = false /\
  nth_error ["8080:80"; "443"; "127.0.0.1:8443:443"] 0 = Some "8080:80" /\
  port_format "8080:80" = true /\
  port_format "127.0.0.1:8443:443" = false /\
  exists ports first suffix,
    convertNetworking (host := example_host) default_options published_service no_diag
    = (inr (VObj [("mode", VStr "bridge"); ("port", VObj ports)]), no_diag) /\
    first <> EmptyString /\ all_digits first = true /\ In suffix protocol_suffixes /\
    (("8080:80" = (first ++ suffix)%string /\
      own ports (port_label 0) = VObj [("to", VNum (Number_value (digits_value first)))]) \/
     exists second,
       second <> EmptyString /\ all_digits second = true /\
       "8080:80" = (first ++ ":" ++ second ++ suffix)%string /\
       own ports (port_label 0)
       = VObj [("static", VNum (Number_value (digits_value first)));
               ("to", VNum (Number_value (digits_value second)))]) /\
    Number_value 8080 = num 8080.
Proof.
  do 6 (split; [reflexivity|]).
  destruct (ports_without_a_warning_convert_as_written (host := example_host) default_options
              published_service ["8080:80"; "443"; "127.0.0.1:8443:443"] 0 "8080:80" no_diag
              eq_refl eq_refl eq_refl eq_refl eq_refl)
    as (ports & first & suffix & Hrun & Hne & Hd & Hsuffix & Hforms & Hnum).
  exists ports, first, suffix.
  split; [exact Hrun|]. split; [exact Hne|]. split; [exact Hd|]. split; [exact Hsuffix|].
  split; [exact Hforms|]. apply Hnum. vm_compute. discriminate.
Defined.


Lemma X13_witness :
  is_nullish stateful_service = false /\
  prop stateful_service "volumes"
  = strings ["db_data:/var/lib/postgresql/data"; "./config:/etc/postgresql:ro"; "/data"] /\
  nth_error ["db_data:/var/lib/postgresql/data"; "./config:/etc/postgresql:ro"; "/data"] 1
  = Some "./config:/etc/postgresql:ro" /\
  exists volumes mounts,
    convertVolumes stateful_service VUndefined no_diag = (inr (VObj volumes), no_diag) /\
    convertVolumeMounts (prop stateful_service "volumes") no_diag
    = (inr (VObj mounts), no_diag) /\
    own volumes (volume_name 1)
    = VObj [("type", VStr "csi"); ("source", VStr "./config"); ("read_only", VBool true)] /\
    own mounts (mount_name 1)
    = VObj [("volume", VStr "volume_1"); ("destination", VStr "/etc/postgresql");
            ("read_only", VBool true)].
Proof.
  do 3 (split; [reflexivity|]).
  destruct (short_volumes_and_their_mounts stateful_service VUndefined
              ["db_data:/var/lib/postgresql/data"; "./config:/etc/postgresql:ro"; "/data"]
              1 "./config:/etc/postgresql:ro" no_diag eq_refl eq_refl eq_refl)
    as (volumes & mounts & Hvolumes & Hmounts & Hforms).
  exists volumes, mounts. split; [exact Hvolumes|]. split; [exact Hmounts|].
  pose proof (Hforms "./config" eq_refl) as Hsource. cbv zeta in Hsource.
  exact (proj2 (proj2 Hsource "/etc/postgresql" eq_refl) "ro" eq_refl eq_refl).
Defined.

Lemma X14_witness :
  is_word "node.class" = true /\ is_word "==" = true /\ is_word "gpu" = true /\
  exists constraint,
    convertConstraint (VStr "node.class == gpu") no_diag = (inr constraint, no_diag) /\
    constraint
    = VObj [("attribute", VStr "node.class"); ("operator", VStr "=");
            ("value", VStr "gpu")].
Proof.
  do 3 (split; [reflexivity|]).
  destruct (constraints_keep_a_valid_operator "node.class == gpu" no_diag)
    as (constraint & Hrun & _ & Hwords).
  exists constraint. split; [exact Hrun|].
  exact (Hwords "node.class" "==" "gpu" eq_refl eq_refl eq_refl eq_refl).
Defined.

Lemma X15_witness :
  no_equals "a" = true /\ "a" <> EmptyString /\
  exists labels,
    add_label (VObj []) (VStr "a=b=c") no_diag = (inr labels, no_diag) /\
    labels = VObj [("a", VStr "b")] /\
    add_env_entry (VObj []) (VStr "a=b=c") no_diag
    = (inr (VObj [("a", VStr "b=c")]), no_diag).
Proof.
  assert (Ha : "a" <> EmptyString) by discriminate.
  split; [reflexivity|]. split; [exact Ha|].
  destruct (array_labels_are_cut_at_a_second_equals [] "a=b=c" no_diag)
    as (labels & Hrun & _ & Hcut).
  exists labels. split; [exact Hrun|].
  exact (Hcut "a" "b=c" eq_refl Ha eq_refl).
Defined.

Lemma X16_witness :
  is_nullish configured_service = false /\
  is_nullish configured_document = false /\
  prop configured_service "configs" = strings ["app_conf"; "missing"; "toString"] /\
  prop configured_service "secrets" = strings ["db_password"] /\
  prop configured_document "configs" = VObj [("app_conf", VObj [("file", VStr "./app.conf")])] /\
  exists templates,
    convertConfigsAndSecrets (host := example_host) configured_service configured_document
      no_diag
    = (inr templates, no_diag) /\
    map (fun template => prop template "destination") templates
    = [VStr "local/app_conf"; VStr "local/toString"; VStr "secrets/db_password"].
Proof.
  do 5 (split; [reflexivity|]).
  destruct (every_secret_and_each_config_found_gets_a_template (host := example_host)
              configured_service configured_document ["app_conf"; "missing"; "toString"]
              ["db_password"] [("app_conf", VObj [("file", VStr "./app.conf")])] no_diag
              eq_refl eq_refl eq_refl eq_refl eq_refl)
    as (templates & Hrun & Hdestinations).
  exists templates. split; [exact Hrun | exact Hdestinations].
Defined.

Lemma X17_witness :
  "curl -f http://localhost" <> EmptyString /\
  truthy (own [("interval", VStr "10s")] "disable") = false /\
  convertHealthCheck (host := example_host)
    (tested (VArr [VStr "CMD-SHELL"; VStr "curl -f http://localhost"])
       [("interval", VStr "10s")])
  = VObj [("type", VStr "script"); ("interval", VStr "10s"); ("timeout", VStr "5s");
          ("command", VStr "/bin/sh");
          ("args", VArr [VStr "-c"; VStr "curl -f http://localhost"])] /\
  convertHealthCheck (host := example_host)
    (tested (VArr [VStr "CMD-SHELL"; VStr "curl -f http://localhost"])
       [("interval", VStr "10s")])
  = convertHealthCheck (host := example_host)
      (tested (VStr "curl -f http://localhost") [("interval", VStr "10s")]).
Proof.
  assert (Hscript : "curl -f http://localhost" <> EmptyString) by discriminate.
  split; [exact Hscript|]. split; [reflexivity|]. split; [reflexivity|].
  exact (proj1 (shell_tests_agree_in_both_forms (host := example_host)
                  "curl -f http://localhost" [("interval", VStr "10s")] Hscript eq_refl)).
Defined.

Lemma X18_witness :
  exists taskGroup st',
    taskGroup_of (host := example_host) default_options "web" idle_service
      (VObj [("services", VObj [("web", idle_service)])]) no_diag
    = (inr taskGroup, st') /\
    get_opt (prop idle_service "deploy") "replicas" = VNum (num 0) /\
    prop taskGroup "count" = VNum (num 1).
Proof.
  destruct (taskGroup_of (host := example_host) default_options "web" idle_service
              (VObj [("services", VObj [("web", idle_service)])]) no_diag)
    as [[e|taskGroup] st'] eqn:Hrun.
  - exfalso. vm_compute in Hrun. discriminate Hrun.
  - exists taskGroup, st'. split; [reflexivity|]. split; [reflexivity|].
    exact (proj2 (proj2 (a_group_never_has_count_zero (host := example_host)
                           default_options "web" idle_service
                           (VObj [("services", VObj [("web", idle_service)])])
                           no_diag st' taskGroup Hrun)) eq_refl).
Defined.

Lemma X19_witness :
  same_but "depends_on"
    [("image", VStr "nginx"); ("depends_on", VArr [VStr "db"])] [("image", VStr "nginx")] /\
  exists taskGroup,
    taskGroup_of (host := example_host) default_options "web"
      (VObj [("image", VStr "nginx"); ("depends_on", VArr [VStr "db"])])
      dependent_document no_diag
    = (inr taskGroup,
       Diag ["Service dependencies for 'web' converted to constraints where possible"] []) /\
    taskGroup_of (host := example_host) default_options "web"
      (VObj [("image", VStr "nginx")]) dependent_document no_diag
    = (inr taskGroup, no_diag).
Proof.
  assert (Hsame : same_but "depends_on"
                    [("image", VStr "nginx"); ("depends_on", VArr [VStr "db"])]
                    [("image", VStr "nginx")]).
  { intros k Hk. cbn [own]. destruct ("image" =? k)%string; [reflexivity|].
    destruct (String.eqb_spec "depends_on" k) as [Heq|_]; [|reflexivity].
    exfalso. apply Hk. now rewrite Heq. }
  split; [exact Hsame|].
  destruct (depends_on_is_not_translated (host := example_host) default_options "web"
              _ _ dependent_document Hsame)
    as (r & before & after & es & reached & Hrun & Hreached).
  destruct (Hrun no_diag) as [Hwith Hwithout].
  assert (Hreturns : exists taskGroup, r = inr taskGroup).
  { destruct r as [e|taskGroup]; [|now exists taskGroup].
    exfalso. revert Hwithout. vm_compute. intros H. discriminate H. }
  destruct Hreturns as (taskGroup & ->).
  rewrite (Hreached taskGroup eq_refl) in Hwith, Hwithout.
  cbn [andb truthy own String.eqb Ascii.eqb Bool.eqb] in Hwith, Hwithout.
  assert (Hquiet : before = [] /\ after = [] /\ es = []).
  { revert Hwithout. vm_compute. intros H.
    injection H as _ Hws Hes.
    destruct before; [|discriminate Hws]. destruct after; [|discriminate Hws].
    destruct es; [|discriminate Hes]. now repeat split. }
  destruct Hquiet as (-> & -> & ->).
  exists taskGroup. split; [exact Hwith | exact Hwithout].
Defined.

Lemma X20_witness :
  parseCompose (host := example_host) partial_yaml no_diag
  = (inr partial_document, no_diag) /\
  Validation.errors (validateComposeFile (host := example_host) partial_document) = [] /\
  exists result st',
    convert (host := example_host) default_options partial_yaml no_diag
    = (inr result, st') /\
    Conversion.errors result
    = failures (H := example_host) default_options partial_document
        (own_entries (prop partial_document "services")) /\
    List.length (Conversion.errors result) = 1%nat.
Proof.
  assert (Hparse : parseCompose (host := example_host) partial_yaml no_diag
                   = (inr partial_document, no_diag)) by (vm_compute; reflexivity).
  assert (Hvalid : Validation.errors
                     (validateComposeFile (host := example_host) partial_document) = [])
    by (vm_compute; reflexivity).
  split; [exact Hparse|]. split; [exact Hvalid|].
  destruct (conversion_errors_are_the_failures (host := example_host)
              default_options partial_yaml partial_document no_diag no_diag
              Hparse (or_intror Hvalid)) as (result & st' & Hrun & Herrors & _).
  exists result, st'. split; [exact Hrun|]. rewrite Herrors.
  split; vm_compute; reflexivity.
Defined.

Lemma X21_witness :
  parseCompose (host := example_host) partial_yaml no_diag
  = (inr partial_document, no_diag) /\
  Validation.errors (validateComposeFile (host := example_host) partial_document) = [] /\
  exists skipped checked st st',
    convert (host := example_host) (with_skipValidation true default_options)
      partial_yaml no_diag = (inr skipped, st) /\
    convert (host := example_host) (with_skipValidation false default_options)
      partial_yaml no_diag = (inr checked, st') /\
    Conversion.hcl skipped = Conversion.hcl checked /\
    Conversion.nomadJob skipped = Conversion.nomadJob checked /\
    Conversion.errors skipped = Conversion.errors checked.
Proof.
  assert (Hparse : parseCompose (host := example_host) partial_yaml no_diag
                   = (inr partial_document, no_diag)) by (vm_compute; reflexivity).
  assert (Hvalid : Validation.errors
                     (validateComposeFile (host := example_host) partial_document) = [])
    by (vm_compute; reflexivity).
  split; [exact Hparse|]. split; [exact Hvalid|].
  destruct (skipping_validation_changes_only_the_warnings (host := example_host)
              default_options partial_yaml partial_document no_diag no_diag Hparse Hvalid)
    as (skipped & checked & st & st' & Hskipped & Hchecked & Hhcl & Hjob & Herrors & _).
  exists skipped, checked, st, st'.
  split; [exact Hskipped|]. split; [exact Hchecked|].
  split; [exact Hhcl|]. split; [exact Hjob | exact Herrors].
Defined.

Lemma X22_witness :
  loadYAML (Host := second_host) numeric_version_yaml = inr numeric_version_document /\
  is_object numeric_version_document = true /\
  truthy (prop numeric_version_document "version") = true /\
  isString (prop numeric_version_document "version") = false /\
  exists text,
    convert (host := second_host) default_options numeric_version_yaml no_diag
    = (inr (failed_conversion ("Failed to parse YAML: " ++ text)),
       Diag [] ["Failed to parse YAML: " ++ text]%string).
Proof.
  do 4 (split; [reflexivity|]).
  exact (version_that_is_not_a_string_stops_the_conversion (host := second_host)
           default_options numeric_version_yaml numeric_version_document no_diag
           eq_refl eq_refl eq_refl eq_refl).
Defined.

Lemma X23_witness :
  loadYAML (Host := second_host) EmptyString = inr VUndefined /\
  is_object VUndefined = false /\
  convert (host := second_host) default_options EmptyString no_diag
  = (inr (failed_conversion "Failed to parse YAML: Invalid YAML structure"),
     Diag [] ["Failed to parse YAML: Invalid YAML structure"]).
Proof.
  do 2 (split; [reflexivity|]).
  exact (scalar_and_empty_documents_do_not_convert (host := second_host)
           default_options EmptyString VUndefined no_diag eq_refl eq_refl).
Defined.


